(** * pilmoji-cached: tokenizer, asset cache and text layout

    A shallow embedding of [pilmoji/helpers.py], [pilmoji/source.py] and
    [pilmoji/core.py].

    Conventions of the embedding:
    - a Python [str] is the list of its code points ([len] counts code
      points, emoji are not ASCII);
    - Python [int] is [Z]; the values Python computes on as [float]
      (scale factor, measured widths, coordinates) are exact rationals [Q],
      so [round] is round-half-to-even and [int] truncates toward zero on
      the exact value;
    - a coroutine is a state transformer that keeps the state reached when
      an exception is raised; the fetches that [asyncio.gather] starts for
      one line are run in node order. *)

From Stdlib Require Import ZArith NArith QArith Qround Lia String Ascii Sorted.
From stdpp Require Import base option list gmap.

Local Open Scope Z_scope.

(** ** Python strings *)

Abbreviation str := (list N).

(** An ASCII literal as a Python string. *)
Definition py (s : string) : str :=
  map N_of_ascii (list_ascii_of_string s).

Definition str_eqb (a b : str) : bool := bool_decide (a = b).

(** [c in s] for a one-character [c]. *)
Definition char_in (c : N) (s : str) : bool := bool_decide (c ∈ s).

(** ** Python builtins on numbers *)

Module builtins.

(** [round(q)]: to the nearest integer, a tie to the even one. *)
Definition round (q : Q) : Z :=
  let f := Qfloor q in
  match Qcompare (q - inject_Z f) (1 # 2) with
  | Lt => f
  | Gt => f + 1
  | Eq => if Z.even f then f else f + 1
  end.

(** [int(q)]: toward zero. *)
Definition int (q : Q) : Z :=
  if Qle_bool 0 q then Qfloor q else Qceiling q.

(** [math.modf(q)[0]]: the fractional part, with the sign of [q]. *)
Definition modf_frac (q : Q) : Q := (q - inject_Z (int q))%Q.

Definition Qmax (a b : Q) : Q := if Qle_bool b a then a else b.

(** [int(s)] on a string of ASCII digits, the only strings the
    tokenizer hands to it; anything else is a [ValueError]. *)
Definition int_of_str (s : str) : option Z :=
  match s with
  | [] => None
  | _ :: _ =>
      foldl (fun acc c =>
               match acc with
               | Some n =>
                   if (N.leb 48 c && N.leb c 57)%bool
                   then Some (10 * n + Z.of_N (c - 48))
                   else None
               | None => None
               end) (Some 0) s
  end.

Fixpoint digits_of (fuel : nat) (n : N) (acc : str) : str :=
  match fuel with
  | O => acc
  | S fuel' =>
      let acc' := (48 + n mod 10)%N :: acc in
      if N.ltb n 10 then acc' else digits_of fuel' (n / 10)%N acc'
  end.

(** [str(n)] for an integer: decimal, ['-'] first when negative. *)
Definition str_of_int (n : Z) : str :=
  let m := Z.to_N (Z.abs n) in
  let ds := digits_of (S (N.to_nat (N.log2 m))) m [] in
  if n <? 0 then 45%N :: ds else ds.

End builtins.

(** ** The contracts of the raster backend (Pillow) *)

Module PIL.

(** [direction], [features], [language]: passed through to the backend. *)
Record TextOpts : Type := mkTextOpts {
  direction : option str;
  features : option str;
  language : option str
}.

Definition no_opts : TextOpts := mkTextOpts None None None.

(** A colour or an ink: opaque to this library. *)
Abbreviation ColorT := Z.

Record FontT : Type := mkFont {
  size : Q;
  getlength : str -> TextOpts -> Q;
  (* [font.getsize(s)[0]], Pillow before 9.2 *)
  getsize_width : str -> Z;
  (* the offset [font.getmask2] returns for a line drawn with the given
     stroke width, anchor and sub-pixel start; [None] when the font has
     no [getmask2] (AttributeError) *)
  getmask2_offset : str -> Z -> str -> Q * Q -> option (Z * Z)
}.

Record ImageDraw : Type := mkDraw {
  (* [draw.textlength(s, font, ..., embedded_color)] *)
  textlength : str -> FontT -> TextOpts -> bool -> Q;
  (* [draw.textbbox((0, 0), "A", font, stroke_width=w)[3]] *)
  textbbox_A_bottom : FontT -> Z -> Q;
  fontmode : str;
  (* [draw._getink(fill)] *)
  _getink : option ColorT -> option ColorT * option ColorT
}.

(** What reaches the canvas. *)
Inductive canvas_op : Type :=
| DrawText (xy : Q * Q) (s : str) (anchor : str) (spacing : Z)
           (align : str) (stroke_width : Z)
| Paste (img : list N) (size : Z * Z) (box : Z * Z).

End PIL.

Module helpers.

(** *** A backtracking matcher for the fragment of [re] the module uses *)

Inductive regex : Type :=
| Eps
| Lit (s : str)                       (* re.escape(s) *)
| Chr (c : N)
| Opt (r : regex)                     (* r?  (greedy) *)
| Rep (p : N -> bool) (lo hi : nat)   (* [class]{lo,hi}  (greedy) *)
| Seq (r1 r2 : regex)
| Alt (r1 r2 : regex).                (* r1|r2, r1 tried first *)

Fixpoint strip_prefix (e s : str) : option str :=
  match e, s with
  | [], _ => Some s
  | a :: e', b :: s' => if N.eqb a b then strip_prefix e' s' else None
  | _ :: _, [] => None
  end.

(** [rep_match p lo hi s k]: take as many characters of class [p] as
    possible, at most [hi]; give back one at a time while the
    continuation fails and at least [lo] remain taken. *)
Fixpoint rep_match (p : N -> bool) (lo hi : nat) (s : str)
    (k : str -> option str) : option str :=
  match hi with
  | O => match lo with O => k s | S _ => None end
  | S hi' =>
      let stop := match lo with O => k s | S _ => None end in
      match s with
      | c :: s' =>
          if p c then
            match rep_match p (Nat.pred lo) hi' s' k with
            | Some r => Some r
            | None => stop
            end
          else stop
      | [] => stop
      end
  end.

(** [rmatch r s k]: match [r] at the start of [s], then run the
    continuation on what is left; the result is the unmatched rest. *)
Fixpoint rmatch (r : regex) (s : str) (k : str -> option str) : option str :=
  match r with
  | Eps => k s
  | Lit e => match strip_prefix e s with Some s' => k s' | None => None end
  | Chr c =>
      match s with
      | b :: s' => if N.eqb c b then k s' else None
      | [] => None
      end
  | Opt r1 =>
      match rmatch r1 s k with
      | Some x => Some x
      | None => k s
      end
  | Rep p lo hi => rep_match p lo hi s k
  | Seq r1 r2 => rmatch r1 s (fun s' => rmatch r2 s' k)
  | Alt r1 r2 =>
      match rmatch r1 s k with
      | Some x => Some x
      | None => rmatch r2 s k
      end
  end.

(** *** The two token grammars *)

Definition in_range (lo hi c : N) : bool := (N.leb lo c && N.leb c hi)%bool.

Definition is_digit (c : N) : bool := in_range 48 57 c.

(** [[a-zA-Z0-9_]] *)
Definition is_name_char (c : N) : bool :=
  (in_range 97 122 c || in_range 65 90 c || in_range 48 57 c || N.eqb c 95)%bool.

(** [sorted(values, key=len, reverse=True)]: stable, longest first. *)
Fixpoint insert_by_len (x : str) (l : list str) : list str :=
  match l with
  | [] => [x]
  | y :: l' =>
      if (length x <? length y)%nat then y :: insert_by_len x l'
      else x :: l
  end.

Definition sorted_by_len_desc (l : list str) : list str :=
  foldr insert_by_len [] l.

(** ['|'.join(map(re.escape, l))] *)
Fixpoint alternation (l : list str) : regex :=
  match l with
  | [] => Eps
  | [e] => Lit e
  | e :: l' => Alt (Lit e) (alternation l')
  end.

(** ['<a?:[a-zA-Z0-9_]{1,32}:[0-9]{17,22}>'] *)
Definition _DISCORD_EMOJI_REGEX : regex :=
  Seq (Chr 60) (Seq (Opt (Chr 97)) (Seq (Chr 58)
    (Seq (Rep is_name_char 1 32) (Seq (Chr 58)
      (Seq (Rep is_digit 17 22) (Chr 62)))))).

Section Tokenizer.

(** [language_pack.values()]: the fully qualified emoji of the [emoji]
    package that have an English name.  The package is not part of the
    repository; its table is a parameter. *)
Variable language_pack_values : list str.

Definition _UNICODE_EMOJI_REGEX : regex :=
  alternation (sorted_by_len_desc language_pack_values).

Definition EMOJI_REGEX : regex :=
  Alt _UNICODE_EMOJI_REGEX _DISCORD_EMOJI_REGEX.

(** The length of the match of [EMOJI_REGEX] at the start of [s]. *)
Definition EMOJI_REGEX_match (s : str) : option nat :=
  match rmatch EMOJI_REGEX s Some with
  | Some rest => Some (length s - length rest)%nat
  | None => None
  end.

(** [EMOJI_REGEX.split(line)] with its one capturing group: the text
    before the first match, the first match, the text between the first
    and the second match, ...  The scanner tries a match at the current
    position; on success it emits the pending text and the match and
    resumes after it ([skip] counts the characters of the match still to
    pass), otherwise the character joins the pending text.  An empty match
    cannot arise from a table of non-empty emoji and is not a split
    point here. *)
Fixpoint split_from (s : str) (skip : nat) (pending : str) : list str :=
  match s with
  | [] => [rev pending]
  | c :: s' =>
      match skip with
      | S n => split_from s' n pending
      | O =>
          match EMOJI_REGEX_match s with
          | Some (S n) => rev pending :: take (S n) s :: split_from s' n []
          | _ => split_from s' O (c :: pending)
          end
      end
  end.

Definition EMOJI_REGEX_split (line : str) : list str := split_from line 0 [].

Inductive NodeType : Type := text | emoji | discord_emoji.

Record Node : Type := mkNode { type : NodeType; content : str }.

(** [chunk.split(':')[-1]]: what follows the last colon. *)
Fixpoint after_last_colon (s : str) (acc : str) : str :=
  match s with
  | [] => rev acc
  | c :: s' => if N.eqb c 58 then after_last_colon s' []
               else after_last_colon s' (c :: acc)
  end.

(** [chunk.split(':')[-1][:-1]] *)
Definition discord_id_of (chunk : str) : str :=
  removelast (after_last_colon chunk []).

(** The body of the loop of [_parse_line] on chunk number [i]. *)
Fixpoint parse_chunks (i : nat) (chunks : list str) : list Node :=
  match chunks with
  | [] => []
  | chunk :: rest =>
      match chunk with
      | [] => parse_chunks (S i) rest
      | _ :: _ =>
          if Nat.even i then mkNode text chunk :: parse_chunks (S i) rest
          else if (18 <? length chunk)%nat
               then mkNode discord_emoji (discord_id_of chunk)
                      :: parse_chunks (S i) rest
               else mkNode emoji chunk :: parse_chunks (S i) rest
      end
  end.

Definition _parse_line (line : str) : list Node :=
  parse_chunks 0 (EMOJI_REGEX_split line).

(** The line boundaries of [str.splitlines]. *)
Definition is_linebreak (c : N) : bool :=
  (in_range 10 13 c || in_range 28 30 c || N.eqb c 133
   || N.eqb c 8232 || N.eqb c 8233)%bool.

(** [text.splitlines()]: [\r\n] is one boundary, and a boundary at the
    very end opens no further line. *)
Fixpoint splitlines_from (s : str) (cur : str) : list str :=
  match s with
  | [] => match cur with [] => [] | _ :: _ => [rev cur] end
  | c :: s' =>
      if N.eqb c 13 then
        match s' with
        | d :: s'' =>
            if N.eqb d 10 then rev cur :: splitlines_from s'' []
            else rev cur :: splitlines_from s' []
        | [] => rev cur :: splitlines_from s' []
        end
      else if is_linebreak c then rev cur :: splitlines_from s' []
      else splitlines_from s' (c :: cur)
  end.

Definition splitlines (s : str) : list str := splitlines_from s [].

Definition to_nodes (t : str) : list (list Node) :=
  map _parse_line (splitlines t).

(** [tuple(int(part) for part in PIL.__version__.split(".")) >= v] *)
Fixpoint version_ge (a v : list Z) : bool :=
  match a, v with
  | _, [] => true
  | [], _ :: _ => false
  | x :: a', y :: v' =>
      if x =? y then version_ge a' v' else y <? x
  end.

(** The installed Pillow's version: a fact of the environment. *)
Variable PIL_version : list Z.

(** The width of a text node's content, as both [getsize] and the
    drawer measure it. *)
Definition text_width (font : PIL.FontT) (opts : PIL.TextOpts) (s : str) : Z :=
  if version_ge PIL_version [9; 2; 0]
  then builtins.int (PIL.getlength font s opts)
  else PIL.getsize_width font s.

Definition getsize (t : str) (font : PIL.FontT) (spacing : Z)
    (emoji_scale_factor : Q) : Z * Q :=
  let '(x, y) :=
    foldl (fun '(x, y) line =>
             let this_x :=
               foldl (fun this_x node =>
                        let width :=
                          match type node with
                          | text => text_width font PIL.no_opts (content node)
                          | _ => builtins.int (emoji_scale_factor * PIL.size font)
                          end in
                        this_x + width) 0 line in
             let y := (y + (inject_Z spacing + PIL.size font))%Q in
             (if x <? this_x then this_x else x, y))
          (0, 0%Q) (to_nodes t) in
  (x, (y - inject_Z spacing)%Q).

End Tokenizer.

End helpers.

(** ** Exceptions, mutable state and [io.BytesIO] *)

Module runtime.

Inductive exn : Type :=
| ValueError (msg : string)
| TypeError (msg : string)
| AssertionError
| AttributeError
| RuntimeError
| ZeroDivisionError
| UnidentifiedImageError
| ClientError                 (* aiohttp.ClientError *)
| ClientConnectionError       (* a subclass of aiohttp.ClientError *)
| TimeoutError.               (* asyncio.TimeoutError *)

(** [except aiohttp.ClientError] catches the class and its subclasses. *)
Definition is_ClientError (e : exn) : bool :=
  match e with
  | ClientError | ClientConnectionError => true
  | _ => false
  end.

Inductive result (A : Type) : Type :=
| Ok (a : A)
| Raise (e : exn).
Arguments Ok {A} a.
Arguments Raise {A} e.

Definition is_Raise {A} (r : result A) : bool :=
  match r with Raise _ => true | Ok _ => false end.

(** A computation over a state [S]: it returns or raises, and in both
    cases leaves a state behind. *)
Definition M (S A : Type) : Type := S -> result A * S.

Definition ret {S A} (a : A) : M S A := fun s => (Ok a, s).

Definition bind {S A B} (m : M S A) (k : A -> M S B) : M S B :=
  fun s =>
    match m s with
    | (Ok a, s') => k a s'
    | (Raise e, s') => (Raise e, s')
    end.

Definition raise {S A} (e : exn) : M S A := fun s => (Raise e, s).

Definition gets {S A} (f : S -> A) : M S A := fun s => (Ok (f s), s).

Definition modify {S} (f : S -> S) : M S unit := fun s => (Ok tt, f s).

(** [try: m  except <class>: h(e)] *)
Definition try_except {S A} (m : M S A) (catches : exn -> bool)
    (h : exn -> M S A) : M S A :=
  fun s =>
    match m s with
    | (Raise e, s') => if catches e then h e s' else (Raise e, s')
    | r => r
    end.

(** Run [m] on a component of the state. *)
Definition zoom {S T A} (get : S -> T) (set : T -> S -> S) (m : M T A) : M S A :=
  fun s => let '(r, t) := m (get s) in (r, set t s).

#[global] Instance M_ret {S} : MRet (M S) := fun A => ret.
#[global] Instance M_bind {S} : MBind (M S) := fun A B k m => bind m k.

(** [for x in l: body(x)] *)
Fixpoint for_each {S A} (l : list A) (body : A -> M S unit) : M S unit :=
  match l with
  | [] => ret tt
  | x :: l' => bind (body x) (fun _ => for_each l' body)
  end.

(** [[await f(x) for x in l]], one after the other. *)
Fixpoint map_M {S A B} (f : A -> M S B) (l : list A) : M S (list B) :=
  match l with
  | [] => ret []
  | x :: l' => bind (f x) (fun y => bind (map_M f l') (fun ys => ret (y :: ys)))
  end.

Abbreviation bytes := (list N).

Record BytesIO : Type := mkBytesIO {
  getvalue : bytes;
  tell : nat;
  closed : bool
}.

(** The objects allocated so far; an address is an index. *)
Abbreviation Heap := (list BytesIO).
Abbreviation ref := nat.

Section Streams.
Context {S : Type} (heap : S -> Heap) (set_heap : Heap -> S -> S).

(** [BytesIO(b)] *)
Definition BytesIO_new (b : bytes) : M S ref :=
  fun s => (Ok (length (heap s)), set_heap (heap s ++ [mkBytesIO b 0 false]) s).

Definition with_stream {A} (r : ref) (f : BytesIO -> result A * BytesIO) : M S A :=
  fun s =>
    match heap s !! r with
    | Some b =>
        if closed b then (Raise (ValueError "I/O operation on closed file."), s)
        else let '(a, b') := f b in (a, set_heap (<[r := b']> (heap s)) s)
    | None => (Raise RuntimeError, s)
    end.

(** [stream.seek(0)] *)
Definition seek0 (r : ref) : M S unit :=
  with_stream r (fun b => (Ok tt, mkBytesIO (getvalue b) 0 (closed b))).

(** [stream.read()]: everything from the read position on. *)
Definition read (r : ref) : M S bytes :=
  with_stream r (fun b =>
    (Ok (drop (tell b) (getvalue b)),
     mkBytesIO (getvalue b) (Nat.max (tell b) (length (getvalue b))) (closed b))).

(** [stream.read(n)] *)
Definition read_n (r : ref) (n : nat) : M S bytes :=
  with_stream r (fun b =>
    (Ok (take n (drop (tell b) (getvalue b))),
     mkBytesIO (getvalue b)
       (Nat.max (tell b) (Nat.min (tell b + n) (length (getvalue b))))
       (closed b))).

(** [stream.close()]: closing twice is allowed. *)
Definition close_stream (r : ref) : M S unit :=
  modify (fun s =>
    set_heap (alter (fun b => mkBytesIO (getvalue b) (tell b) true) r (heap s)) s).

End Streams.

End runtime.

(** ** [pilmoji/source.py] *)

Module source.
Import runtime.

(** What a GET meets: a response with a status, the 10 s total timeout,
    or a transport fault. *)
Inductive Response : Type :=
| HttpResponse (status : Z) (body : bytes)
| TimedOut
| Fault.

(** [response.ok] *)
Definition ok (status : Z) : bool := status <? 400.

(** The world a source acts on. *)
Record Env : Type := mkEnv {
  heap : Heap;
  disk : gmap str bytes;            (* the files, by path *)
  network : str -> Response;
  requests : list str;              (* the GETs sent, latest first *)
  critical_log : list str;          (* [logging.critical], latest first *)
  session_closed : bool             (* the renderer's aiohttp session *)
}.

Definition set_heap (h : Heap) (e : Env) : Env :=
  mkEnv h (disk e) (network e) (requests e) (critical_log e) (session_closed e).
Definition set_disk (d : gmap str bytes) (e : Env) : Env :=
  mkEnv (heap e) d (network e) (requests e) (critical_log e) (session_closed e).
Definition add_request (url : str) (e : Env) : Env :=
  mkEnv (heap e) (disk e) (network e) (url :: requests e) (critical_log e)
        (session_closed e).
Definition add_critical (msg : str) (e : Env) : Env :=
  mkEnv (heap e) (disk e) (network e) (requests e) (msg :: critical_log e)
        (session_closed e).
Definition set_session_closed (b : bool) (e : Env) : Env :=
  mkEnv (heap e) (disk e) (network e) (requests e) (critical_log e) b.

(** [s.encode('utf-8')] *)
Definition utf8_char (c : N) : bytes :=
  (if c <? 128 then [c]
   else if c <? 2048 then [192 + c / 64; 128 + c mod 64]
   else if c <? 65536 then
     [224 + c / 4096; 128 + (c / 64) mod 64; 128 + c mod 64]
   else [240 + c / 262144; 128 + (c / 4096) mod 64;
         128 + (c / 64) mod 64; 128 + c mod 64])%N.

Definition utf8_encode (s : str) : bytes := concat (map utf8_char s).

Definition hex_digit (n : N) : N := (if n <? 10 then 48 + n else 55 + n)%N.

(** [urllib.parse.quote_plus] *)
Definition quote_plus_byte (b : N) : str :=
  if (helpers.is_name_char b || N.eqb b 46 || N.eqb b 45 || N.eqb b 126)%bool
  then [b]
  else if N.eqb b 32 then [43%N]
  else [37%N; hex_digit (b / 16); hex_digit (b mod 16)].

Definition quote_plus (s : str) : str :=
  concat (map quote_plus_byte (utf8_encode s)).

(** [os.path.join(a, b)] on POSIX *)
Definition os_path_join (a b : str) : str :=
  if bool_decide (head b = Some 47%N) then b
  else match last a with
       | None => b
       | Some c => if N.eqb c 47 then a ++ b else a ++ 47%N :: b
       end.

(** The [_session] attribute of a source. *)
Inductive session_attr : Type :=
| SessionUnset       (* [None], as [HTTPBasedSource.__init__] leaves it *)
| SessionOfRenderer. (* the renderer's session, set by [__aenter__] *)

(** An [EmojiCDNSource]: the class name and [STYLE] tell the subclasses
    apart. *)
Record HTTPBasedSource : Type := mkHTTP {
  class_name : str;
  STYLE : option str;
  _session : session_attr
}.

Definition BASE_DISCORD_EMOJI_URL : str := py "https://cdn.discordapp.com/emojis/".
Definition BASE_EMOJI_CDN_URL : str := py "https://emojicdn.elk.sh/".

Definition TwitterEmojiSource : HTTPBasedSource :=
  mkHTTP (py "TwitterEmojiSource") (Some (py "twitter")) SessionUnset.
Definition AppleEmojiSource : HTTPBasedSource :=
  mkHTTP (py "AppleEmojiSource") (Some (py "apple")) SessionUnset.
Definition OpenmojiEmojiSource : HTTPBasedSource :=
  mkHTTP (py "OpenmojiEmojiSource") (Some (py "openmoji")) SessionUnset.
Definition Twemoji : HTTPBasedSource := TwitterEmojiSource.

(** [HTTPBasedSource.request] *)
Definition request (self : HTTPBasedSource) (url : str) : M Env ref :=
  match _session self with
  | SessionUnset => raise AssertionError
  | SessionOfRenderer =>
      closed ← gets session_closed;
      if closed : bool then raise RuntimeError
      else
        _ ← modify (add_request url);
        response ← gets (fun e => network e url);
        match response with
        | HttpResponse status body =>
            if ok status then BytesIO_new heap set_heap body
            else raise ClientError
        | TimedOut => raise TimeoutError
        | Fault => raise ClientConnectionError
        end
  end.

(** [DiscordEmojiSourceMixin.get_discord_emoji] *)
Definition DiscordEmojiSourceMixin_get_discord_emoji
    (self : HTTPBasedSource) (id : Z) : M Env (option ref) :=
  let url := BASE_DISCORD_EMOJI_URL ++ builtins.str_of_int id ++ py ".png" in
  try_except (r ← request self url; mret (Some r))
    is_ClientError
    (fun e => _ ← modify (add_critical url); raise e).

(** [EmojiCDNSource.get_emoji] *)
Definition EmojiCDNSource_get_emoji
    (self : HTTPBasedSource) (emoji : str) : M Env (option ref) :=
  match STYLE self with
  | None => raise (TypeError "STYLE class variable unfilled.")
  | Some style =>
      let url := BASE_EMOJI_CDN_URL ++ quote_plus emoji
                 ++ py "?style=" ++ quote_plus style in
      try_except (r ← request self url; mret (Some r))
        is_ClientError
        (fun e => _ ← modify (add_critical url); raise e)
  end.

Section CachedHTTPBasedSource.

(** [hashlib.sha256(b).hexdigest()] and [os.path.abspath(".cache")]:
    the library and the working directory are outside the repository. *)
Variable sha256_hexdigest : bytes -> str.
Variable CACHE_DIR : str.

(** The file name inside [CACHE_DIR] of a unicode emoji. *)
Definition emoji_cache_filename (_source : HTTPBasedSource) (emoji : str) : str :=
  let key := sha256_hexdigest (utf8_encode emoji) in
  class_name _source ++ py "_" ++ key ++ py ".png".

Definition _emoji_cache_path (_source : HTTPBasedSource) (emoji : str) : str :=
  os_path_join CACHE_DIR (emoji_cache_filename _source emoji).

Definition discord_cache_filename (id : Z) : str :=
  py "discord_" ++ builtins.str_of_int id ++ py ".png".

Definition _discord_cache_path (id : Z) : str :=
  os_path_join CACHE_DIR (discord_cache_filename id).

(** The body the two getters of the wrapper share: the file when it
    exists, else the wrapped source, whose answer is written through. *)
Definition cached_fetch (path : str) (fetch : M Env (option ref))
    : M Env (option ref) :=
  file ← gets (fun e => disk e !! path);
  match file with
  | Some b => r ← BytesIO_new heap set_heap b; mret (Some r)
  | None =>
      data ← fetch;
      match data with
      | Some r =>
          b ← read heap set_heap r;
          _ ← modify (fun e => set_disk (<[path := b]> (disk e)) e);
          _ ← seek0 heap set_heap r;
          mret (Some r)
      | None => mret None
      end
  end.

Definition CachedHTTPBasedSource_get_emoji (_source : HTTPBasedSource)
    (emoji : str) : M Env (option ref) :=
  cached_fetch (_emoji_cache_path _source emoji)
               (EmojiCDNSource_get_emoji _source emoji).

Definition CachedHTTPBasedSource_get_discord_emoji (_source : HTTPBasedSource)
    (id : Z) : M Env (option ref) :=
  cached_fetch (_discord_cache_path id)
               (DiscordEmojiSourceMixin_get_discord_emoji _source id).

(** A [BaseSource]: an HTTP source, the caching wrapper around one, or
    any other implementation, which answers with image bytes or [None]
    and has no [_session]. *)
Inductive BaseSource : Type :=
| Http (src : HTTPBasedSource)
| CachedHTTPBasedSource (_source : HTTPBasedSource)
| Custom (emoji_image : str -> option bytes) (discord_image : Z -> option bytes).

Definition custom_fetch (image : option bytes) : M Env (option ref) :=
  match image with
  | Some b => r ← BytesIO_new heap set_heap b; mret (Some r)
  | None => mret None
  end.

Definition get_emoji (self : BaseSource) (emoji : str) : M Env (option ref) :=
  match self with
  | Http src => EmojiCDNSource_get_emoji src emoji
  | CachedHTTPBasedSource src => CachedHTTPBasedSource_get_emoji src emoji
  | Custom f _ => custom_fetch (f emoji)
  end.

Definition get_discord_emoji (self : BaseSource) (id : Z) : M Env (option ref) :=
  match self with
  | Http src => DiscordEmojiSourceMixin_get_discord_emoji src id
  | CachedHTTPBasedSource src => CachedHTTPBasedSource_get_discord_emoji src id
  | Custom _ g => custom_fetch (g id)
  end.

(** [hasattr(source, "_session")] and its value. *)
Definition session_of (self : BaseSource) : option session_attr :=
  match self with
  | Http src | CachedHTTPBasedSource src => Some (_session src)
  | Custom _ _ => None
  end.

End CachedHTTPBasedSource.

End source.

(** ** [pilmoji/core.py] *)

Module core.
Import runtime source.

(** What the repository takes from outside: the emoji table of the
    [emoji] package, the Pillow at hand (its version, its default font,
    its image decoder as far as the size of the decoded image goes), the
    SHA-256 of [hashlib] and the absolute path of [.cache]. *)
Record Externals : Type := mkExternals {
  language_pack_values : list str;
  PIL_version : list Z;
  load_default : PIL.FontT;
  image_size : bytes -> option (Z * Z);   (* (width, height) *)
  sha256_hexdigest : bytes -> str;
  CACHE_DIR : str
}.

Record PilmojiMain : Type := mkMain {
  source : BaseSource;
  _cache : bool;
  _closed : bool;
  _new_draw : bool;
  _render_discord_emoji : bool;
  _default_emoji_scale_factor : Q;
  _default_emoji_position_offset : Z * Z;
  _emoji_cache : gmap str ref;
  _discord_emoji_cache : gmap Z ref
}.

(** A renderer, the world its source acts on, and the canvas of its
    drawer. *)
Record World : Type := mkWorld {
  main : PilmojiMain;
  env : Env;
  canvas : list PIL.canvas_op      (* latest first *)
}.

Definition set_main (m : PilmojiMain) (w : World) : World :=
  mkWorld m (env w) (canvas w).
Definition set_env (e : Env) (w : World) : World :=
  mkWorld (main w) e (canvas w).
Definition add_canvas (op : PIL.canvas_op) (w : World) : World :=
  mkWorld (main w) (env w) (op :: canvas w).

Definition w_heap (w : World) : Heap := heap (env w).
Definition w_set_heap (h : Heap) (w : World) : World :=
  set_env (set_heap h (env w)) w.

Definition set_source (s : BaseSource) (m : PilmojiMain) : PilmojiMain :=
  mkMain s (_cache m) (_closed m) (_new_draw m) (_render_discord_emoji m)
         (_default_emoji_scale_factor m) (_default_emoji_position_offset m)
         (_emoji_cache m) (_discord_emoji_cache m).
Definition set_closed (b : bool) (m : PilmojiMain) : PilmojiMain :=
  mkMain (source m) (_cache m) b (_new_draw m) (_render_discord_emoji m)
         (_default_emoji_scale_factor m) (_default_emoji_position_offset m)
         (_emoji_cache m) (_discord_emoji_cache m).
Definition set_emoji_cache (c : gmap str ref) (m : PilmojiMain) : PilmojiMain :=
  mkMain (source m) (_cache m) (_closed m) (_new_draw m)
         (_render_discord_emoji m) (_default_emoji_scale_factor m)
         (_default_emoji_position_offset m) c (_discord_emoji_cache m).
Definition set_discord_emoji_cache (c : gmap Z ref) (m : PilmojiMain)
    : PilmojiMain :=
  mkMain (source m) (_cache m) (_closed m) (_new_draw m)
         (_render_discord_emoji m) (_default_emoji_scale_factor m)
         (_default_emoji_position_offset m) (_emoji_cache m) c.

(** A call into the source. *)
Definition in_env {A} (m : M Env A) : M World A := zoom env set_env m.

(** [PilmojiMain.__init__] with an instance for [source]. *)
Definition PilmojiMain_init (source : BaseSource) (cache render_discord_emoji : bool)
    (emoji_scale_factor : Q) (emoji_position_offset : Z * Z) : PilmojiMain :=
  mkMain source cache false false render_discord_emoji emoji_scale_factor
         emoji_position_offset ∅ ∅.

(** The world right after the constructor: nothing allocated, the
    session open. *)
Definition new_world (m : PilmojiMain) (files : gmap str bytes)
    (net : str -> Response) : World :=
  mkWorld m (mkEnv [] files net [] [] false) [].

Section Renderer.
Context (ext : Externals).

(** [PilmojiMain.close] *)
Definition close : M World unit :=
  self ← gets main;
  if _closed self then raise (ValueError "Renderer has already been closed.")
  else
    _ ← (if _new_draw self then raise AttributeError else mret tt);
    _ ← match session_of (source self) with
        | Some SessionUnset => raise AttributeError     (* None.close() *)
        | Some SessionOfRenderer =>
            modify (fun w => set_env (set_session_closed true (env w)) w)
        | None => mret tt
        end;
    _ ← (if _cache self then
           _ ← for_each (map_to_list (_emoji_cache self)).*2
                        (close_stream w_heap w_set_heap);
           _ ← for_each (map_to_list (_discord_emoji_cache self)).*2
                        (close_stream w_heap w_set_heap);
           modify (fun w => set_main (set_discord_emoji_cache ∅
                                        (set_emoji_cache ∅ (main w))) w)
         else mret tt);
    modify (fun w => set_main (set_closed true (main w)) w).

(** [PilmojiMain._get_emoji] *)
Definition _get_emoji (emoji : str) : M World (option ref) :=
  self ← gets main;
  match (if _cache self then _emoji_cache self !! emoji else None) with
  | Some entry =>
      _ ← seek0 w_heap w_set_heap entry;
      mret (Some entry)
  | None =>
      stream ← in_env (get_emoji (sha256_hexdigest ext) (CACHE_DIR ext)
                                 (source self) emoji);
      match stream with
      | Some r =>
          _ ← (if _cache self then
                 modify (fun w => set_main
                   (set_emoji_cache (<[emoji := r]> (_emoji_cache (main w)))
                                    (main w)) w)
               else mret tt);
          _ ← seek0 w_heap w_set_heap r;
          mret (Some r)
      | None => mret None
      end
  end.

(** [PilmojiMain._get_discord_emoji] *)
Definition _get_discord_emoji (id : str) : M World (option ref) :=
  match builtins.int_of_str id with
  | None => raise (ValueError "invalid literal for int() with base 10")
  | Some id =>
      self ← gets main;
      match (if _cache self then _discord_emoji_cache self !! id else None) with
      | Some entry =>
          _ ← seek0 w_heap w_set_heap entry;
          mret (Some entry)
      | None =>
          stream ← in_env (get_discord_emoji (CACHE_DIR ext) (source self) id);
          match stream with
          | Some r =>
              _ ← (if _cache self then
                     modify (fun w => set_main
                       (set_discord_emoji_cache
                          (<[id := r]> (_discord_emoji_cache (main w)))
                          (main w)) w)
                   else mret tt);
              _ ← seek0 w_heap w_set_heap r;
              mret (Some r)
          | None => mret None
          end
      end
  end.

(** [PilmojiMain.__aenter__]: an HTTP source gets the renderer's session
    and the caching wrapper. *)
Definition __aenter__ : M World unit :=
  modify (fun w =>
    match source (main w) with
    | Http src =>
        set_main (set_source
          (CachedHTTPBasedSource
             (mkHTTP (class_name src) (STYLE src) SessionOfRenderer))
          (main w)) w
    | _ => w
    end).

(** [PilmojiMain.__aexit__] *)
Definition __aexit__ : M World unit := close.

End Renderer.

(** *** [PilmojiDrawer] *)

(** The arguments of [PilmojiDrawer.text]. *)
Record TextArgs : Type := mkTextArgs {
  xy : Q * Q;
  text : str;
  fill : option PIL.ColorT;
  font : option PIL.FontT;
  anchor : option str;
  spacing : Z;
  node_spacing : Z;
  align : str;
  opts : PIL.TextOpts;               (* direction, features, language *)
  stroke_width : Z;
  stroke_fill : option PIL.ColorT;
  embedded_color : bool;
  emoji_scale_factor : option Q;
  emoji_position_offset : option (Z * Z)
}.

(** The defaults of the signature. *)
Definition default_args (xy : Q * Q) (text : str) : TextArgs :=
  mkTextArgs xy text None None None 4 0 (py "left") PIL.no_opts 0 None false
             None None.

(** [s[i]] for an index in range. *)
Definition item (s : str) (i : nat) : str :=
  match s !! i with Some c => [c] | None => [] end.

Definition is_multiline (text : str) : bool := char_in 10 text.

(** The checks on [anchor]. *)
Definition check_anchor (anchor : option str) (text : str) : result str :=
  match anchor with
  | None => Ok (py "la")
  | Some a =>
      if negb (length a =? 2)%nat
      then Raise (ValueError "anchor must be a 2 character string")
      else if (match a !! 1%nat with
               | Some c => char_in c (py "tb")
               | None => false
               end && is_multiline text)%bool
      then Raise (ValueError "anchor not supported for multiline text")
      else Ok a
  end.

(** The check on [direction]. *)
Definition check_direction (direction : option str) (text : str) : result unit :=
  if (bool_decide (direction = Some (py "ttb")) && is_multiline text)%bool
  then Raise (ValueError "ttb direction is unsupported for multiline text")
  else Ok tt.

Definition lift {S A} (r : result A) : M S A :=
  match r with Ok a => ret a | Raise e => raise e end.

(** [_multiline_spacing] *)
Definition _multiline_spacing (draw : PIL.ImageDraw) (font : PIL.FontT)
    (spacing stroke_width : Z) : Q :=
  (PIL.textbbox_A_bottom draw font stroke_width
   + inject_Z stroke_width + inject_Z spacing)%Q.

(** The local [getink]. *)
Definition getink (draw : PIL.ImageDraw) (fill : option PIL.ColorT)
    : option PIL.ColorT :=
  let '(ink, fill) := PIL._getink draw fill in
  match ink with None => fill | Some _ => ink end.

(** [round(emoji_scale_factor * font.size)] *)
Definition emoji_width (emoji_scale_factor : Q) (font : PIL.FontT) : Z :=
  builtins.round (emoji_scale_factor * PIL.size font).

(** [space_to_had]: how many spaces stand for one fetched emoji. *)
Definition space_to_had (emoji_scale_factor : Q) (font : PIL.FontT)
    (emoji_position_offset : Z * Z) (node_spacing : Z)
    (space_text_lenght : Q) : result Z :=
  let width := emoji_width emoji_scale_factor font in
  let '(ox, oy) := emoji_position_offset in
  let size := builtins.round (inject_Z (width + ox + node_spacing * 2)) in
  if Qeq_bool space_text_lenght 0 then Raise ZeroDivisionError
  else Ok (builtins.round (inject_Z size / space_text_lenght)).

(** [text_line] for one line, from its nodes and what was fetched. *)
Fixpoint build_text_line (emoji_scale_factor : Q) (font : PIL.FontT)
    (emoji_position_offset : Z * Z) (node_spacing : Z) (space_text_lenght : Q)
    (streams_processed : list (helpers.Node * option ref)) (text_line : str)
    : result str :=
  match streams_processed with
  | [] => Ok text_line
  | (node, stream) :: rest =>
      let continue := build_text_line emoji_scale_factor font
                        emoji_position_offset node_spacing space_text_lenght
                        rest in
      match helpers.type node, stream with
      | helpers.text, _ | _, None => continue (text_line ++ helpers.content node)
      | _, Some _ =>
          match space_to_had emoji_scale_factor font emoji_position_offset
                             node_spacing space_text_lenght with
          | Raise e => Raise e
          | Ok n => continue (text_line ++ replicate (Z.to_nat n) 32%N)
          end
      end
  end.

(** The horizontal start of a line: the anchor column, then [align]. *)
Definition line_x (anchor align : str) (original_x width_difference : Q)
    : result Q :=
  let x := original_x in
  let x := if str_eqb (item anchor 0) (py "m") then (x - width_difference / 2)%Q
           else if str_eqb (item anchor 0) (py "r") then (x - width_difference)%Q
           else x in
  if str_eqb align (py "left") then Ok x
  else if str_eqb align (py "center") then Ok (x + width_difference / 2)%Q
  else if str_eqb align (py "right") then Ok (x + width_difference)%Q
  else Raise (ValueError "align must be left, center or right").

(** The vertical start: the anchor row. *)
Definition start_y (anchor : str) (y : Q) (line_count : nat) (line_spacing : Q) : Q :=
  let n := inject_Z (Z.of_nat line_count - 1) in
  if str_eqb (item anchor 1) (py "m") then (y - n * line_spacing / 2)%Q
  else if str_eqb (item anchor 1) (py "d") then (y - n * line_spacing)%Q
  else y.

Section Drawer.
Context (ext : Externals) (draw : PIL.ImageDraw).

(** The coroutine [process_line] of one node. *)
Definition process_line (node : helpers.Node) : M World (helpers.Node * option ref) :=
  self ← gets main;
  stream ← match helpers.type node with
           | helpers.emoji => _get_emoji ext (helpers.content node)
           | helpers.discord_emoji =>
               if _render_discord_emoji self
               then _get_discord_emoji ext (helpers.content node)
               else mret None
           | helpers.text => mret None
           end;
  mret (node, stream).

(** What the first loop keeps of a line. *)
Record LayoutLine : Type := mkLayoutLine {
  nodes_processed : list (helpers.Node * option ref);
  draw_string : str;
  pixel_width : Q
}.

(** The body of the first loop: fetch, then build and measure. *)
Definition layout_line (font : PIL.FontT) (a : TextArgs) (emoji_scale_factor : Q)
    (emoji_position_offset : Z * Z) (space_text_lenght : Q)
    (line : list helpers.Node) : M World LayoutLine :=
  streams_processed ← map_M process_line line;
  text_line ← lift (build_text_line emoji_scale_factor font
                      emoji_position_offset (node_spacing a) space_text_lenght
                      streams_processed []);
  mret (mkLayoutLine streams_processed text_line
          (PIL.textlength draw text_line font (opts a) false)).

(** [Image.open(stream)]: rewinds, reads and decodes; the size of the
    decoded image is what the drawer goes on with. *)
Definition Image_open (r : ref) : M World (bytes * (Z * Z)) :=
  _ ← seek0 w_heap w_set_heap r;
  b ← read w_heap w_set_heap r;
  match image_size ext b with
  | Some wh => mret (b, wh)
  | None => raise UnidentifiedImageError
  end.

(** The last loop of a line: move the cursor over text and missing
    assets, paste the others. *)
Fixpoint paste_nodes (font : PIL.FontT) (a : TextArgs) (emoji_scale_factor : Q)
    (emoji_position_offset : Z * Z)
    (nodes : list (helpers.Node * option ref)) (x line_y : Q) : M World unit :=
  match nodes with
  | [] => mret tt
  | (node, stream) :: rest =>
      let continue := paste_nodes font a emoji_scale_factor
                        emoji_position_offset rest in
      let as_text :=
        let width := helpers.text_width (PIL_version ext) font (opts a)
                       (helpers.content node) in
        continue (x + inject_Z (node_spacing a + width))%Q line_y in
      match helpers.type node, stream with
      | helpers.text, _ | _, None => as_text
      | _, Some r =>
          '(img, (asset_width, asset_height)) ← Image_open r;
          let width := emoji_width emoji_scale_factor font in
          if asset_width =? 0 then raise ZeroDivisionError
          else
            let size := (width,
                         builtins.round (inject_Z (Qceiling
                           (inject_Z asset_height / inject_Z asset_width
                            * inject_Z width)))) in
            let '(ox, oy) := emoji_position_offset in
            _ ← modify (add_canvas (PIL.Paste img size
                   (builtins.round (x + inject_Z ox),
                    builtins.round (line_y + inject_Z oy))));
            continue (x + inject_Z (node_spacing a + width))%Q line_y
      end
  end.

(** The second loop.  [y], [ink] and [stroke_width] live across its
    iterations. *)
Fixpoint draw_lines (font : PIL.FontT) (a : TextArgs) (anchor : str)
    (emoji_scale_factor : Q) (emoji_position_offset : Z * Z)
    (original_x max_width line_spacing : Q)
    (lines : list LayoutLine)
    (y : Q) (ink : option PIL.ColorT) (stroke_width : Z) : M World unit :=
  match lines with
  | [] => mret tt
  | l :: rest =>
      let line_y := y in
      let width_difference := (max_width - pixel_width l)%Q in
      x ← lift (line_x anchor (align a) original_x width_difference);
      _ ← (if (0 <? length (draw_string l))%nat
           then modify (add_canvas (PIL.DrawText (x, line_y) (draw_string l)
                          anchor (spacing a) (align a) stroke_width))
           else mret tt);
      let coord := (builtins.int x, builtins.int y) in
      let start := (builtins.modf_frac x, builtins.modf_frac y) in
      let '(ink', stroke_width', x', line_y') :=
        match ink with
        | None => (ink, stroke_width, x, line_y)
        | Some _ =>
            let stroke_ink :=
              if stroke_width =? 0 then None
              else match stroke_fill a with
                   | Some _ => getink draw (stroke_fill a)
                   | None => ink
                   end in
            let '(ink1, stroke_width1) :=
              match stroke_ink with
              | Some _ => (stroke_ink, 0)
              | None => (ink, stroke_width)
              end in
            let coord1 :=
              match PIL.getmask2_offset font (draw_string l) stroke_width1
                                        anchor start with
              | Some offset => (coord.1 + offset.1, coord.2 + offset.2)
              | None => coord
              end in
            (ink1, stroke_width1, inject_Z coord1.1, inject_Z coord1.2)
        end in
      _ ← paste_nodes font a emoji_scale_factor emoji_position_offset
            (nodes_processed l) x' line_y';
      draw_lines font a anchor emoji_scale_factor emoji_position_offset
                 original_x max_width line_spacing rest
                 (y + line_spacing)%Q ink' stroke_width'
  end.

(** [PilmojiDrawer.text] *)
Definition PilmojiDrawer_text (a : TextArgs) : M World unit :=
  self ← gets main;
  let emoji_scale_factor :=
    default (_default_emoji_scale_factor self) (emoji_scale_factor a) in
  let emoji_position_offset :=
    default (_default_emoji_position_offset self) (emoji_position_offset a) in
  let font := default (load_default ext) (font a) in
  anchor ← lift (check_anchor (anchor a) (text a));
  _ ← lift (check_direction (PIL.direction (opts a)) (text a));
  let '(x, y) := xy a in
  let original_x := x in
  let nodes := helpers.to_nodes (language_pack_values ext) (text a) in
  let line_spacing := _multiline_spacing draw font (spacing a) (stroke_width a) in
  let ink := getink draw (fill a) in
  let space_text_lenght :=
    PIL.textlength draw [32%N] font (opts a) (embedded_color a) in
  lines ← map_M (layout_line font a emoji_scale_factor emoji_position_offset
                             space_text_lenght) nodes;
  let max_width := foldl builtins.Qmax 0%Q (pixel_width <$> lines) in
  let y := start_y anchor y (length nodes) line_spacing in
  draw_lines font a anchor emoji_scale_factor emoji_position_offset
             original_x max_width line_spacing lines y ink (stroke_width a).

End Drawer.

End core.

(** ** Reading node lists back *)

Module reading.
Import helpers.

(** Longest first: the order of the alternatives. *)
Definition len_ge (x y : str) : Prop := (length y <= length x)%nat.

(** ["\n".join(lines)] *)
Fixpoint join_lines (lines : list str) : str :=
  match lines with
  | [] => []
  | [l] => l
  | l :: rest => l ++ 10%N :: join_lines rest
  end.

(** [tok] is a custom-emoji wire token that carries [id]:
    [<] [a]? [:] name [:] id [>]. *)
Definition wire_token (id tok : str) : Prop :=
  exists flag name : str,
    tok = 60%N :: flag ++ 58%N :: name ++ 58%N :: id ++ [62%N]
    /\ (flag = [] \/ flag = [97%N])
    /\ Forall (fun c => is_name_char c = true) name
    /\ (1 <= length name <= 32)%nat
    /\ Forall (fun c => is_digit c = true) id
    /\ (17 <= length id <= 22)%nat.

(** The contents of the nodes of a line in order, each discord node
    standing as the next of the supplied tokens. *)
Fixpoint rewrap (toks : list str) (nodes : list Node) : list str :=
  match nodes with
  | [] => []
  | n :: ns =>
      match type n, toks with
      | discord_emoji, t :: ts => t :: rewrap ts ns
      | _, _ => content n :: rewrap toks ns
      end
  end.

(** The ids of the discord nodes of a line, in order. *)
Fixpoint discord_ids (nodes : list Node) : list str :=
  match nodes with
  | [] => []
  | n :: ns =>
      match type n with
      | discord_emoji => content n :: discord_ids ns
      | _ => discord_ids ns
      end
  end.

(** Every chunk that the parser will take for a custom emoji (odd
    position, longer than 18) is a wire token around the id kept. *)
Fixpoint tokens_at_odd (i : nat) (chunks : list str) : Prop :=
  match chunks with
  | [] => True
  | c :: rest =>
      (Nat.even i = false -> (18 < length c)%nat ->
       wire_token (discord_id_of c) c)
      /\ tokens_at_odd (S i) rest
  end.

(** A document read back with the tokens supplied line by line. *)
Definition reconstruct (toks : list (list str)) (doc : list (list Node)) : str :=
  join_lines (zip_with (fun ts nodes => concat (rewrap ts nodes)) toks doc).

End reading.

(** ** The formulas as the specification words them *)

Module spec_words.

(** "count = round(substitution_width / space_width)" with
    "substitution_width = round(scale_factor * font_nominal_size
    + offset_x + 2 * node_spacing)". *)
Definition space_count (scale_factor font_nominal_size : Q)
    (offset_x node_spacing : Z) (space_width : Q) : Z :=
  builtins.round
    (inject_Z (builtins.round (scale_factor * font_nominal_size
                               + inject_Z offset_x
                               + 2 * inject_Z node_spacing))
     / space_width).

(** "hash(style-identity + emoji-key)" *)
Definition emoji_filename (hash : list N -> str) (style_identity emoji_key : str)
    : str :=
  hash (source.utf8_encode (style_identity ++ emoji_key)).

(** The anchor column, then [align]: "middle subtracts half of
    (maxWidth - lineWidth), right subtracts the full difference; then
    center adds half the difference back, right adds it fully, left is a
    no-op". *)
Definition after_anchor_column (anchor : str) (x width_difference : Q) : Q :=
  if bool_decide (anchor !! 0%nat = Some 109%N) then x - width_difference / 2
  else if bool_decide (anchor !! 0%nat = Some 114%N) then x - width_difference
  else x.

End spec_words.

(** ** What a computation leaves alone *)

Module frame.
Import runtime core.

(** [m] never touches the component [proj] of the world, whether it
    returns or raises. *)
Definition keeps {T A} (proj : World -> T) (m : M World A) : Prop :=
  forall w, proj (m w).2 = proj w.

Abbreviation keeps_canvas := (keeps canvas).
Abbreviation keeps_main := (keeps main).

(** [m] leaves the caching flag alone, and the whole renderer when
    caching is off. *)
Definition cache_safe {A} (m : M World A) : Prop :=
  forall w, _cache (main (m w).2) = _cache (main w)
            /\ (_cache (main w) = false -> main (m w).2 = main w).

(** The failures of a GET and the exceptions they surface as. *)
Definition failing (r : source.Response) : Prop :=
  match r with
  | source.HttpResponse status _ => source.ok status = false
  | _ => True
  end.

Definition transport_error (e : exn) : Prop :=
  e = ClientError \/ e = ClientConnectionError \/ e = TimeoutError.

(** A node for which the drawer asks the source. *)
Definition needs_fetch (render_discord_emoji : bool) (n : helpers.Node) : bool :=
  match helpers.type n with
  | helpers.emoji => true
  | helpers.discord_emoji => render_discord_emoji
  | helpers.text => false
  end.

(** The ids of the custom-emoji nodes of a line are numbers. *)
Definition numeric (line : list helpers.Node) : Prop :=
  forall n, n ∈ line -> helpers.type n = helpers.discord_emoji ->
            is_Some (builtins.int_of_str (helpers.content n)).

(** The line has a node to fetch. *)
Definition line_fetches (render_discord_emoji : bool) (line : list helpers.Node)
    : bool :=
  existsb (needs_fetch render_discord_emoji) line.

(** A session over an HTTP source that has been entered and not closed,
    with nothing in either cache tier, facing a network on which every
    GET fails. *)
Definition cold (src : source.HTTPBasedSource) (w : World) : Prop :=
  (source (main w) = source.Http src
   \/ source (main w) = source.CachedHTTPBasedSource src)
  /\ source._session src = source.SessionOfRenderer
  /\ is_Some (source.STYLE src)
  /\ source.session_closed (env w) = false
  /\ _emoji_cache (main w) = ∅
  /\ _discord_emoji_cache (main w) = ∅
  /\ source.disk (env w) = ∅
  /\ forall url, failing (source.network (env w) url).

(** The memory tier is in use only when caching is on. *)
Definition cache_inv (m : PilmojiMain) : Prop :=
  _cache m = false -> _emoji_cache m = ∅ /\ _discord_emoji_cache m = ∅.




End frame.

Module frame_canvas.
Import runtime core.

(** [m] only adds to the canvas, whether it returns or raises. *)
Definition grows_canvas {A} (m : M World A) : Prop :=
  forall w, exists ops, canvas (m w).2 = ops ++ canvas w.

(** The worlds a program can bring about through the renderer, its
    drawer and the streams it is handed. *)
Inductive reachable (ext : Externals) (draw : PIL.ImageDraw) : World -> Prop :=
| reach_new src cache render scale offset files net :
    reachable ext draw
      (new_world (PilmojiMain_init src cache render scale offset) files net)
| reach_enter w :
    reachable ext draw w -> reachable ext draw (__aenter__ w).2
| reach_get_emoji w emoji :
    reachable ext draw w -> reachable ext draw (_get_emoji ext emoji w).2
| reach_get_discord_emoji w id :
    reachable ext draw w -> reachable ext draw (_get_discord_emoji ext id w).2
| reach_text w a :
    reachable ext draw w ->
    reachable ext draw (PilmojiDrawer_text ext draw a w).2
| reach_read w r n :
    reachable ext draw w ->
    reachable ext draw (read_n w_heap w_set_heap r n w).2
| reach_close w :
    reachable ext draw w -> reachable ext draw (close w).2.

End frame_canvas.

(** ** What is observed of nodes, chunks and canvases *)

Module observing.
Import helpers.

(** Every chunk at an odd position (a match of the regex) satisfies [P]. *)
Fixpoint odd_chunks (P : str -> Prop) (i : nat) (chunks : list str) : Prop :=
  match chunks with
  | [] => True
  | c :: rest => (Nat.even i = false -> P c) /\ odd_chunks P (S i) rest
  end.

(** No two neighbours of the list are both text nodes. *)
Fixpoint no_adjacent_text (nodes : list Node) : Prop :=
  match nodes with
  | n1 :: ((n2 :: _) as rest) =>
      ~ (type n1 = text /\ type n2 = text) /\ no_adjacent_text rest
  | _ => True
  end.

(** The list is empty or starts with a node that is not text. *)
Definition starts_nontext (nodes : list Node) : Prop :=
  match nodes with
  | n :: _ => type n <> text
  | [] => True
  end.

(** No emoji of the table occurs in the line, and no ['<'] either. *)
Definition plain (tbl : list str) (line : str) : Prop :=
  (forall e k, e ∈ tbl -> ~ e `prefix_of` drop k line) /\ 60%N ∉ line.

(** The calls of [draw.text] recorded on a canvas, oldest first: the
    row, the string and the stroke width of each. *)
Definition drawn_texts (cv : list PIL.canvas_op) : list (Q * str * Z) :=
  omap (fun op => match op with
                  | PIL.DrawText xy s _ _ _ stroke_width =>
                      Some (xy.2, s, stroke_width)
                  | PIL.Paste _ _ _ => None
                  end) (rev cv).

(** The pastes recorded on a canvas, oldest first: the image, its size
    and where it went. *)
Definition pasted (cv : list PIL.canvas_op) : list (list N * (Z * Z) * (Z * Z)) :=
  omap (fun op => match op with
                  | PIL.Paste img size box => Some (img, size, box)
                  | PIL.DrawText _ _ _ _ _ _ => None
                  end) (rev cv).

(** One row per line, [line_spacing] apart, from [y] on. *)
Fixpoint rows_from (y line_spacing : Q) (lines : list str) : list (Q * str) :=
  match lines with
  | [] => []
  | l :: rest => (y, l) :: rows_from (y + line_spacing)%Q line_spacing rest
  end.

Definition nonempty (s : str) : bool :=
  match s with [] => false | _ :: _ => true end.

(** The width [getsize] counts for a node, and for a line. *)
Definition node_width (PIL_version : list Z) (font : PIL.FontT)
    (emoji_scale_factor : Q) (node : Node) : Z :=
  match type node with
  | text => text_width PIL_version font PIL.no_opts (content node)
  | _ => builtins.int (emoji_scale_factor * PIL.size font)
  end.

Definition line_width (PIL_version : list Z) (font : PIL.FontT)
    (emoji_scale_factor : Q) (line : list Node) : Z :=
  foldl (fun this_x node =>
           this_x + node_width PIL_version font emoji_scale_factor node) 0 line.

(** One turn of the loop of [getsize] over the lines. *)
Definition getsize_step (ver : list Z) (font : PIL.FontT) (spacing : Z) (f : Q)
    (acc : Z * Q) (line : list Node) : Z * Q :=
  (if acc.1 <? line_width ver font f line
   then line_width ver font f line else acc.1,
   (acc.2 + (inject_Z spacing + PIL.size font))%Q).

(** A Unicode scalar value: a code point that is no surrogate. *)
Definition scalar (c : N) : Prop :=
  ((c < 55296 \/ 57343 < c) /\ c < 1114112)%N.

(** What may stand in the query-free part of a URL without quoting, and
    the two marks of the quoting itself. *)
Definition url_char (c : N) : bool :=
  (is_name_char c || N.eqb c 46 || N.eqb c 45 || N.eqb c 126
   || N.eqb c 43 || N.eqb c 37)%bool.

(** [quote_plus] leaves these alone. *)
Definition unreserved (c : N) : bool :=
  (is_name_char c || N.eqb c 46 || N.eqb c 45 || N.eqb c 126)%bool.

End observing.

(** ** What a call leaves behind *)

Module outcomes.
Import runtime source core.

(** [stream.close()] on each of a list of streams. *)
Definition close_all (l : list ref) (h : Heap) : Heap :=
  foldl (fun h r => alter (fun b => mkBytesIO (getvalue b) (tell b) true) r h) h l.

(** The world a [close()] that returns leaves behind. *)
Definition closed_world (w : World) : World :=
  mkWorld
    (set_closed true
       (if _cache (main w)
        then set_discord_emoji_cache ∅ (set_emoji_cache ∅ (main w))
        else main w))
    (set_heap
       (if _cache (main w)
        then close_all (map_to_list (_discord_emoji_cache (main w))).*2
               (close_all (map_to_list (_emoji_cache (main w))).*2
                          (heap (env w)))
        else heap (env w))
       (match session_of (source (main w)) with
        | Some SessionOfRenderer => set_session_closed true (env w)
        | _ => env w
        end))
    (canvas w).

(** The stream is held by one of the two memory caches. *)
Definition cached_stream (m : PilmojiMain) (r : ref) : Prop :=
  (exists emoji, _emoji_cache m !! emoji = Some r)
  \/ (exists id, _discord_emoji_cache m !! id = Some r).

(** The contents of the nodes of a line, one after the other. *)
Definition flat (line : list helpers.Node) : str :=
  concat (map helpers.content line).

(** The layout of a line none of whose nodes is fetched. *)
Definition quiet_layout (draw : PIL.ImageDraw) (font : PIL.FontT) (a : TextArgs)
    (line : list helpers.Node) : LayoutLine :=
  mkLayoutLine (map (fun n => (n, None)) line) (flat line)
               (PIL.textlength draw (flat line) font (opts a) false).

(** The line has a node that is no text and whose asset was found. *)
Definition has_asset (ps : list (helpers.Node * option ref)) : bool :=
  existsb (fun p => match helpers.type p.1, p.2 with
                    | helpers.text, _ | _, None => false
                    | _, Some _ => true
                    end) ps.

(** The world after a first fetch of [emoji] that the CDN answered with
    [body]. *)
Definition fetched_world (ext : Externals) (src : HTTPBasedSource)
    (style emoji : str) (body : bytes) (w : World) : World :=
  mkWorld
    (if _cache (main w)
     then set_emoji_cache (<[emoji := length (heap (env w))]> (_emoji_cache (main w)))
                          (main w)
     else main w)
    (mkEnv (heap (env w) ++ [mkBytesIO body 0 false])
           (<[_emoji_cache_path (sha256_hexdigest ext) (CACHE_DIR ext) src emoji
              := body]> (disk (env w)))
           (network (env w))
           ((BASE_EMOJI_CDN_URL ++ quote_plus emoji ++ py "?style="
             ++ quote_plus style) :: requests (env w))
           (critical_log (env w)) false)
    (canvas w).

End outcomes.

(** ** Sample data *)

Module examples.

(** A small emoji table: grinning face, man, woman, and the couple
    man-ZWJ-woman, of which "man" is a proper prefix. *)
Definition grinning : str := [128512%N].
Definition man : str := [128104%N].
Definition woman : str := [128105%N].
Definition man_zwj_woman : str := [128104%N; 8205%N; 128105%N].
Definition table : list str := [grinning; man; woman; man_zwj_woman].

(** A call that centres its lines, anchored at the middle column. *)
Definition centred (text : str) : core.TextArgs :=
  core.mkTextArgs (100, 50)%Q text None None (Some (py "ma")) 4 0 (py "center")
                  PIL.no_opts 0 None false None None.


(** Two texts that differ only in what a custom-emoji token carries
    besides its id. *)
Definition token_foo : str := py "<:foo:123456789012345678>".
Definition token_bar : str := py "<a:bar:123456789012345678>".

(** Two lines, an emoji and a custom emoji. *)
Definition two_lines : str :=
  py "Hi " ++ grinning ++ 10%N :: token_foo ++ py "!".

(** A fixed-pitch font of nominal size 21 whose every character is 8
    pixels wide, and a drawing context that measures with it. *)
Definition fixed_font : PIL.FontT :=
  PIL.mkFont 21 (fun s _ => inject_Z (8 * Z.of_nat (length s)))
             (fun s => 8 * Z.of_nat (length s))
             (fun _ _ _ _ => Some (0, 0)).

Definition fixed_draw : PIL.ImageDraw :=
  PIL.mkDraw (fun s font opts _ => PIL.getlength font s opts)
             (fun font stroke_width => PIL.size font + inject_Z stroke_width)%Q
             (py "L")
             (fun fill => (Some (default 0 fill), None)).

(** A stand-in for the digest, of the right length; nothing proved
    depends on it. *)
Definition stub_digest (b : list N) : str :=
  replicate 62 48%N ++ [source.hex_digit (N.of_nat (length b) / 16 mod 16);
                        source.hex_digit (N.of_nat (length b) mod 16)].

Definition ext : core.Externals :=
  core.mkExternals table [10; 4; 0] fixed_font (fun _ => Some (72, 72))
                   stub_digest (py "/srv/.cache").

Definition png : list N := [137; 80; 78; 71]%N.

(** A network that serves every URL, and three that fail every GET. *)
Definition net_ok : str -> source.Response := fun _ => source.HttpResponse 200 png.
Definition net_404 : str -> source.Response := fun _ => source.HttpResponse 404 [].
Definition net_timeout : str -> source.Response := fun _ => source.TimedOut.
Definition net_down : str -> source.Response := fun _ => source.Fault.

(** [async with Pilmoji() as p] over a given network, nothing cached. *)
Definition entered (net : str -> source.Response) : core.World :=
  (core.__aenter__
     (core.new_world (core.PilmojiMain_init (source.Http source.Twemoji)
                        true true 1 (0, 0)) ∅ net)).2.

(** The same session after ["😀"] has been asked for once. *)
Definition warmed : core.World := (core._get_emoji ext grinning (entered net_ok)).2.

End examples.

(** * Properties *)

(** A closed decidable proposition, by evaluating its decision. *)
Ltac by_decide := apply (bool_decide_unpack _); vm_compute; exact I.

(** ** Running a computation step by step *)

Module MonadFacts.
Import runtime.

Section Steps.
Context {S A B : Type}.
Implicit Types (m : M S A) (k : A -> M S B) (s : S).

Lemma bind_Ok m k s a s' : m s = (Ok a, s') -> (m ≫= k) s = k a s'.
Proof. intros H. unfold mbind, M_bind, bind. by rewrite H. Qed.

Lemma bind_Raise m k s e s' : m s = (Raise e, s') -> (m ≫= k) s = (Raise e, s').
Proof. intros H. unfold mbind, M_bind, bind. by rewrite H. Qed.

Lemma bind_ret a k s : (mret a ≫= k) s = k a s.
Proof. done. Qed.

Lemma bind_ret' a k s : (ret a ≫= k) s = k a s.
Proof. done. Qed.

Lemma bind_raise e k s : ((raise e : M S A) ≫= k) s = (Raise e, s).
Proof. done. Qed.

Lemma bind_gets (f : S -> A) k s : (gets f ≫= k) s = k (f s) s.
Proof. done. Qed.

End Steps.

Lemma bind_modify {S B} (f : S -> S) (k : unit -> M S B) s :
  (modify f ≫= k) s = k tt (f s).
Proof. done. Qed.

End MonadFacts.

(** Run the leading steps of a computation that do not branch. *)
Ltac mstep :=
  repeat first
    [ rewrite MonadFacts.bind_gets
    | rewrite MonadFacts.bind_ret
    | rewrite MonadFacts.bind_ret'
    | rewrite MonadFacts.bind_modify
    | rewrite MonadFacts.bind_raise ];
  cbn beta.

Module TokenizerFacts.
Import helpers reading.

Lemma strip_prefix_Some e s s' :
  strip_prefix e s = Some s' <-> s = e ++ s'.
Proof.
  revert s; induction e as [|a e IH]; intros s; simpl.
  - split; congruence.
  - destruct s as [|b s]; [split; discriminate|].
    destruct (N.eqb_spec a b) as [->|Hne].
    + rewrite IH. split; congruence.
    + split; [discriminate|]. intros [= ? ?]. congruence.
Qed.

Lemma strip_prefix_None e s :
  strip_prefix e s = None <-> ~ e `prefix_of` s.
Proof.
  split.
  - intros H [k Hk]. apply strip_prefix_Some in Hk. congruence.
  - intros H. destruct (strip_prefix e s) as [s'|] eqn:E; [|done].
    apply strip_prefix_Some in E. exfalso. apply H. by exists s'.
Qed.

Lemma alternation_cons a l :
  l <> [] -> alternation (a :: l) = Alt (Lit a) (alternation l).
Proof. by destruct l. Qed.

Lemma rmatch_Lit_skip a r s k :
  ~ a `prefix_of` s -> rmatch (Alt (Lit a) r) s k = rmatch r s k.
Proof.
  intros H. apply strip_prefix_None in H. simpl. by rewrite H.
Qed.

(** The first alternative that is a prefix of the input wins. *)
Lemma alternation_first l e s rest :
  ~ (exists e', e' ∈ l /\ e' `prefix_of` s) ->
  forall l', s = e ++ rest ->
  rmatch (alternation (l ++ e :: l')) s Some = Some rest.
Proof.
  induction l as [|a l IH]; intros Hno l' ->.
  - destruct l'; simpl;
      by rewrite (proj2 (strip_prefix_Some e (e ++ rest) rest) eq_refl).
  - rewrite <- app_comm_cons, alternation_cons by (by destruct l).
    rewrite rmatch_Lit_skip.
    + apply IH; [|done]. intros (e' & Hin & Hp). apply Hno. exists e'.
      split; [by right|done].
    + intros Hp. apply Hno. exists a. split; [left|done].
Qed.

Lemma alternation_none l s :
  l <> [] ->
  ~ (exists e, e ∈ l /\ e `prefix_of` s) ->
  rmatch (alternation l) s Some = None.
Proof.
  induction l as [|a l IH]; intros Hne Hno; [done|].
  assert (Ha : strip_prefix a s = None).
  { apply strip_prefix_None. intros Hp. apply Hno. exists a. split; [left|done]. }
  destruct l as [|b l]; simpl; rewrite Ha; [done|].
  apply IH; [done|]. intros (e & Hin & Hp). apply Hno. exists e.
  split; [by right|done].
Qed.

(** A successful match of an alternation strips one of its members,
    unless there is none to choose from. *)
Lemma alternation_Some l s rest :
  rmatch (alternation l) s Some = Some rest ->
  (l = [] /\ rest = s) \/ (exists e, e ∈ l /\ s = e ++ rest).
Proof.
  induction l as [|a l IH]; simpl.
  - intros [= ->]. by left.
  - intros H. right. destruct l as [|b l].
    + simpl in H. destruct (strip_prefix a s) as [s'|] eqn:E; [|done].
      injection H as ->. apply strip_prefix_Some in E. exists a.
      split; [left|done].
    + simpl in H. destruct (strip_prefix a s) as [s'|] eqn:E.
      * injection H as ->. apply strip_prefix_Some in E. exists a.
        split; [left|done].
      * destruct (IH H) as [[? _]|(e & Hin & He)]; [done|].
        exists e. split; [by right|done].
Qed.

Lemma insert_by_len_perm x l : insert_by_len x l ≡ₚ x :: l.
Proof.
  induction l as [|y l IH]; simpl; [done|].
  destruct (length x <? length y)%nat; [|done].
  rewrite IH. apply Permutation_swap.
Qed.

Lemma sorted_by_len_desc_perm l : sorted_by_len_desc l ≡ₚ l.
Proof.
  induction l as [|x l IH]; simpl; [done|].
  by rewrite insert_by_len_perm, IH.
Qed.

Lemma insert_by_len_sorted x l :
  StronglySorted len_ge l -> StronglySorted len_ge (insert_by_len x l).
Proof.
  induction 1 as [|y l Hs IH Hall]; simpl.
  - repeat constructor.
  - destruct (Nat.ltb_spec (length x) (length y)) as [Hlt|Hge].
    + constructor; [done|].
      rewrite insert_by_len_perm. constructor; [unfold len_ge; lia|done].
    + constructor; [by constructor|].
      constructor; [done|].
      eapply Forall_impl; [exact Hall|]. unfold len_ge. intros; simpl in *; lia.
Qed.

Lemma sorted_by_len_desc_sorted l : StronglySorted len_ge (sorted_by_len_desc l).
Proof.
  induction l; simpl; [constructor|by apply insert_by_len_sorted].
Qed.

(** In a list ordered longest first, the first member that is a prefix
    of [s] is a longest one. *)
Lemma first_prefix_longest l s :
  StronglySorted len_ge l ->
  (exists e, e ∈ l /\ e `prefix_of` s) ->
  exists l1 m l2 rest,
    l = l1 ++ m :: l2 /\ s = m ++ rest
    /\ ~ (exists e, e ∈ l1 /\ e `prefix_of` s)
    /\ forall e, e ∈ l -> e `prefix_of` s -> (length e <= length m)%nat.
Proof.
  induction 1 as [|a l Hs IH Hall]; intros (e & Hin & Hp).
  - by apply elem_of_nil in Hin.
  - destruct (strip_prefix a s) as [rest|] eqn:Ea.
    + apply strip_prefix_Some in Ea. exists [], a, l, rest.
      split_and!; [done|done| |].
      * intros (e' & He' & _). by apply elem_of_nil in He'.
      * intros e' He' _. apply elem_of_cons in He' as [->|He']; [done|].
        rewrite Forall_forall in Hall. by apply Hall.
    + apply strip_prefix_None in Ea.
      apply elem_of_cons in Hin as [->|Hin]; [done|].
      destruct IH as (l1 & m & l2 & rest & -> & -> & Hno & Hmax); [by exists e|].
      exists (a :: l1), m, l2, rest. split_and!; [done|done| |].
      * intros (e' & He' & Hp'). apply elem_of_cons in He' as [->|He']; [done|].
        apply Hno. by exists e'.
      * intros e' He' Hp'. apply elem_of_cons in He' as [->|He']; [done|].
        by apply Hmax.
Qed.

Section WithTable.
Variable tbl : list str.

(** Where some emoji of the table starts the input, the regex matches a
    longest such emoji. *)
Lemma EMOJI_REGEX_match_longest s :
  (exists e, e ∈ tbl /\ e `prefix_of` s) ->
  exists m rest,
    m ∈ tbl /\ s = m ++ rest
    /\ EMOJI_REGEX_match tbl s = Some (length m)
    /\ forall e, e ∈ tbl -> e `prefix_of` s -> (length e <= length m)%nat.
Proof.
  intros (e & Hin & Hp).
  destruct (first_prefix_longest (sorted_by_len_desc tbl) s)
    as (l1 & m & l2 & rest & Hl & -> & Hno & Hmax).
  { apply sorted_by_len_desc_sorted. }
  { exists e. by rewrite sorted_by_len_desc_perm. }
  exists m, rest. split_and!.
  - rewrite <- (sorted_by_len_desc_perm tbl), Hl. set_solver.
  - done.
  - unfold EMOJI_REGEX_match, EMOJI_REGEX, _UNICODE_EMOJI_REGEX.
    cbn [rmatch]. rewrite Hl, (alternation_first l1 m (m ++ rest) rest) by done.
    f_equal. rewrite length_app. lia.
  - intros e' He'. apply Hmax. by rewrite sorted_by_len_desc_perm.
Qed.

Lemma split_from_skip s n p :
  split_from tbl s n p = split_from tbl (drop n s) 0 p.
Proof.
  revert n; induction s as [|c s IH]; intros [|n]; simpl; auto.
Qed.

(** The scanner at a match. *)
Lemma split_from_match s n p :
  EMOJI_REGEX_match tbl s = Some (S n) ->
  split_from tbl s 0 p
  = rev p :: take (S n) s :: split_from tbl (drop (S n) s) 0 [].
Proof.
  intros H. destruct s as [|c s].
  - exfalso. unfold EMOJI_REGEX_match in H.
    destruct (rmatch _ _ _); discriminate.
  - cbn [split_from]. rewrite H. by rewrite split_from_skip.
Qed.

(** Splitting loses nothing. *)
Lemma split_from_concat s n p :
  concat (split_from tbl s n p) = rev p ++ drop n s.
Proof.
  revert n p; induction s as [|c s IH]; intros n p.
  - simpl. by rewrite drop_nil, app_nil_r.
  - destruct n as [|n]; cbn [split_from].
    + destruct (EMOJI_REGEX_match tbl (c :: s)) as [[|k]|] eqn:E.
      * rewrite IH. simpl. by rewrite <- app_assoc.
      * cbn [concat]. rewrite IH. simpl.
        by rewrite take_drop.
      * rewrite IH. simpl. by rewrite <- app_assoc.
    + by rewrite IH.
Qed.

End WithTable.

(** C4.  Longest match.  Whenever the scanner tries a position of a line
    where two emoji of the table both match, one a proper prefix of the
    other, the chunk it emits is an emoji of the table at least as long
    as the longer of the two, and indeed as long as any emoji that matches
    there; scanning resumes right after it, and at the start of a line the
    node made of it is that emoji. *)
Theorem longest_emoji_wins (tbl : list str) (s pending e1 e2 : str) :
  e1 ∈ tbl -> e2 ∈ tbl ->
  e1 `prefix_of` e2 -> e1 <> e2 -> e2 `prefix_of` s ->
  exists m,
    m ∈ tbl /\ m `prefix_of` s /\ m <> e1
    /\ (length e2 <= length m)%nat
    /\ (forall e, e ∈ tbl -> e `prefix_of` s -> (length e <= length m)%nat)
    /\ split_from tbl s 0 pending
       = rev pending :: m :: split_from tbl (drop (length m) s) 0 []
    /\ ((length m <= 18)%nat ->
        _parse_line tbl s
        = mkNode emoji m
            :: parse_chunks 2 (split_from tbl (drop (length m) s) 0 [])).
Proof.
  intros H1 H2 H12 Hne H2s.
  assert (Hlt : (length e1 < length e2)%nat).
  { destruct H12 as [k ->]. rewrite length_app.
    destruct k; [by rewrite app_nil_r in Hne|simpl; lia]. }
  destruct (EMOJI_REGEX_match_longest tbl s) as (m & rest & Hm & -> & Hmatch & Hmax).
  { by exists e2. }
  assert (Hlen : (length e2 <= length m)%nat) by by apply Hmax.
  destruct m as [|c m]; [simpl in Hlen; lia|].
  assert (Hsplit : forall p, split_from tbl ((c :: m) ++ rest) 0 p
            = rev p :: (c :: m)
                :: split_from tbl (drop (length (c :: m)) ((c :: m) ++ rest)) 0 []).
  { intros p. rewrite (split_from_match tbl _ (length m) p) by done.
    by rewrite take_app_length' by done. }
  exists (c :: m). split_and!; try done.
  - by exists rest.
  - intros <-. lia.
  - intros H18. unfold _parse_line, EMOJI_REGEX_split. rewrite Hsplit.
    cbn [rev parse_chunks Nat.even].
    destruct (Nat.ltb_spec 18 (length (c :: m))) as [?|_]; [lia|done].
Qed.

(** The couple is chosen over the man it starts with. *)
Lemma longest_emoji_wins_witness :
  exists m,
    m ∈ examples.table /\ m `prefix_of` (examples.man_zwj_woman ++ py "!")
    /\ m <> examples.man
    /\ (length examples.man_zwj_woman <= length m)%nat
    /\ (forall e, e ∈ examples.table ->
                  e `prefix_of` (examples.man_zwj_woman ++ py "!") ->
                  (length e <= length m)%nat)
    /\ split_from examples.table (examples.man_zwj_woman ++ py "!") 0 []
       = rev [] :: m
           :: split_from examples.table
                (drop (length m) (examples.man_zwj_woman ++ py "!")) 0 []
    /\ ((length m <= 18)%nat ->
        _parse_line examples.table (examples.man_zwj_woman ++ py "!")
        = mkNode emoji m
            :: parse_chunks 2
                 (split_from examples.table
                    (drop (length m) (examples.man_zwj_woman ++ py "!")) 0 [])).
Proof.
  apply (longest_emoji_wins examples.table (examples.man_zwj_woman ++ py "!")
           [] examples.man examples.man_zwj_woman).
  - apply list_elem_of_In. simpl. tauto.
  - apply list_elem_of_In. simpl. tauto.
  - exists [8205%N; 128105%N]. reflexivity.
  - discriminate.
  - exists (py "!"). reflexivity.
Defined.

(** *** The custom-emoji grammar *)

Lemma rep_match_Some p lo hi s k r :
  rep_match p lo hi s k = Some r ->
  exists pre s',
    s = pre ++ s' /\ Forall (fun c => p c = true) pre
    /\ (lo <= length pre <= hi)%nat /\ k s' = Some r.
Proof.
  revert lo s; induction hi as [|hi IH]; intros lo s H.
  - destruct lo; [|done]. exists [], s. simpl in *. split_and!; auto; lia.
  - assert (Hstop : match lo with O => k s | S _ => None end = Some r ->
                    exists pre s', s = pre ++ s'
                      /\ Forall (fun c => p c = true) pre
                      /\ (lo <= length pre <= S hi)%nat /\ k s' = Some r).
    { destruct lo; [|done]. intros Hk. exists [], s.
      simpl. split_and!; auto; lia. }
    cbn [rep_match] in H. destruct s as [|c s]; [auto|].
    destruct (p c) eqn:Hc; [|auto].
    destruct (rep_match p (Nat.pred lo) hi s k) as [r'|] eqn:E; [|auto].
    injection H as ->. apply IH in E as (pre & s' & -> & Hall & Hlen & Hk).
    exists (c :: pre), s'. simpl. split_and!; auto; lia.
Qed.

Lemma rmatch_Chr_Some c s k r :
  rmatch (Chr c) s k = Some r -> exists s', s = c :: s' /\ k s' = Some r.
Proof.
  destruct s as [|b s]; simpl; [done|].
  destruct (N.eqb_spec c b) as [->|]; [|done]. eauto.
Qed.

Lemma rmatch_Seq_Chr c r2 s k r :
  rmatch (Seq (Chr c) r2) s k = Some r ->
  exists s', s = c :: s' /\ rmatch r2 s' k = Some r.
Proof. apply rmatch_Chr_Some. Qed.

Lemma rmatch_Seq_Opt_Chr c r2 s k r :
  rmatch (Seq (Opt (Chr c)) r2) s k = Some r ->
  exists flag s',
    s = flag ++ s' /\ (flag = [] \/ flag = [c]) /\ rmatch r2 s' k = Some r.
Proof.
  change (rmatch (Seq (Opt (Chr c)) r2) s k)
    with (match rmatch (Chr c) s (fun s' => rmatch r2 s' k) with
          | Some x => Some x
          | None => rmatch r2 s k
          end).
  destruct (rmatch (Chr c) s _) as [x|] eqn:E.
  - intros [= ->]. apply rmatch_Chr_Some in E as (s' & -> & E).
    exists [c], s'. auto.
  - intros H. exists [], s. auto.
Qed.

Lemma rmatch_Seq_Rep p lo hi r2 s k r :
  rmatch (Seq (Rep p lo hi) r2) s k = Some r ->
  exists pre s',
    s = pre ++ s' /\ Forall (fun c => p c = true) pre
    /\ (lo <= length pre <= hi)%nat /\ rmatch r2 s' k = Some r.
Proof. apply rep_match_Some. Qed.

Lemma discord_match_token s rest :
  rmatch _DISCORD_EMOJI_REGEX s Some = Some rest ->
  exists id tok, wire_token id tok /\ s = tok ++ rest.
Proof.
  unfold _DISCORD_EMOJI_REGEX. intros H.
  apply rmatch_Seq_Chr in H as (s0 & -> & H).
  apply rmatch_Seq_Opt_Chr in H as (flag & s1 & -> & Hflag & H).
  apply rmatch_Seq_Chr in H as (s2 & -> & H).
  apply rmatch_Seq_Rep in H as (name & s3 & -> & Hname & Hnlen & H).
  apply rmatch_Seq_Chr in H as (s4 & -> & H).
  apply rmatch_Seq_Rep in H as (id & s5 & -> & Hid & Hidlen & H).
  apply rmatch_Chr_Some in H as (s6 & -> & [= ->]).
  exists id, (60%N :: flag ++ 58%N :: name ++ 58%N :: id ++ [62%N]).
  split.
  - exists flag, name. split_and!; auto; lia.
  - by repeat (simpl; rewrite <- ?app_assoc; f_equal).
Qed.

(** *** The id kept of a token *)

Lemma after_last_colon_plain y acc :
  Forall (fun c => c <> 58%N) y -> after_last_colon y acc = rev acc ++ y.
Proof.
  revert acc; induction y as [|c y IH]; intros acc Hy; simpl.
  - by rewrite app_nil_r.
  - inversion Hy as [|? ? Hc Hy']; subst.
    destruct (N.eqb_spec c 58); [done|].
    rewrite IH by done. simpl. by rewrite <- app_assoc.
Qed.

Lemma after_last_colon_reset x y acc :
  after_last_colon (x ++ 58%N :: y) acc = after_last_colon y [].
Proof.
  revert acc; induction x as [|c x IH]; intros acc; simpl; [done|].
  destruct (N.eqb c 58); apply IH.
Qed.

Lemma wire_token_id id tok : wire_token id tok -> discord_id_of tok = id.
Proof.
  intros (flag & name & -> & _ & _ & _ & Hid & _).
  unfold discord_id_of.
  replace (60%N :: flag ++ 58%N :: name ++ 58%N :: id ++ [62%N])
    with ((60%N :: flag ++ 58%N :: name) ++ 58%N :: id ++ [62%N])
    by (simpl; by rewrite <- app_assoc).
  rewrite after_last_colon_reset, after_last_colon_plain.
  - simpl. apply removelast_last.
  - apply Forall_app. split.
    + eapply Forall_impl; [exact Hid|]. intros c Hc ->. done.
    + by repeat constructor.
Qed.

(** *** From chunks to nodes and back *)

Lemma tokens_at_odd_SS i chunks :
  tokens_at_odd (S (S i)) chunks <-> tokens_at_odd i chunks.
Proof.
  revert i; induction chunks as [|c chunks IH]; intros i; [done|].
  cbn [tokens_at_odd]. rewrite (IH (S i)). by cbn [Nat.even].
Qed.

Section Bounded.
Variable tbl : list str.
Hypothesis tbl_short : Forall (fun e => (length e <= 18)%nat) tbl.

(** A match longer than 18 comes from the custom-emoji grammar. *)
Lemma long_match_is_token s n :
  EMOJI_REGEX_match tbl s = Some n -> (18 < n)%nat ->
  wire_token (discord_id_of (take n s)) (take n s).
Proof.
  unfold EMOJI_REGEX_match, EMOJI_REGEX. cbn [rmatch].
  destruct (rmatch (_UNICODE_EMOJI_REGEX tbl) s Some) as [rest|] eqn:E.
  - intros [= <-] Hn. exfalso.
    apply alternation_Some in E as [[_ ->]|(e & Hin & ->)]; [lia|].
    rewrite sorted_by_len_desc_perm in Hin.
    rewrite Forall_forall in tbl_short. apply tbl_short in Hin.
    rewrite length_app in Hn. lia.
  - destruct (rmatch _DISCORD_EMOJI_REGEX s Some) as [rest|] eqn:D; [|done].
    intros [= <-] _. apply discord_match_token in D as (id & tok & Htok & ->).
    rewrite length_app, Nat.add_sub, take_app_length.
    by rewrite (wire_token_id id tok).
Qed.

Lemma split_from_tokens s n p : tokens_at_odd 0 (split_from tbl s n p).
Proof.
  revert n p; induction s as [|c s IH]; intros n p.
  - simpl. split; [discriminate|done].
  - destruct n as [|n]; cbn [split_from]; [|apply IH].
    destruct (EMOJI_REGEX_match tbl (c :: s)) as [[|k]|] eqn:E; try apply IH.
    cbn [tokens_at_odd]. split_and!.
    + done.
    + intros _ Hlen. apply long_match_is_token; [done|].
      rewrite length_take in Hlen. lia.
    + apply tokens_at_odd_SS, IH.
Qed.

End Bounded.

Lemma rewrap_not_discord toks n ns :
  type n <> discord_emoji -> rewrap toks (n :: ns) = content n :: rewrap toks ns.
Proof. intros H. simpl. destruct (type n), toks; done. Qed.

Lemma parse_chunks_rewrap i chunks :
  tokens_at_odd i chunks ->
  exists toks,
    Forall2 wire_token (discord_ids (parse_chunks i chunks)) toks
    /\ concat (rewrap toks (parse_chunks i chunks)) = concat chunks.
Proof.
  revert i; induction chunks as [|c chunks IH]; intros i H.
  - exists []. split; [constructor|done].
  - destruct H as [Hc Hrest].
    destruct (IH _ Hrest) as (toks & Hall & Hcat).
    destruct c as [|a c]; [by exists toks|].
    cbn [parse_chunks]. destruct (Nat.even i) eqn:Hi.
    + exists toks. split; [done|].
      rewrite rewrap_not_discord by done. simpl. by rewrite Hcat.
    + destruct (Nat.ltb_spec 18 (length (a :: c))) as [Hlen|Hlen].
      * exists ((a :: c) :: toks). split.
        -- simpl. constructor; [by apply Hc|done].
        -- simpl. by rewrite Hcat.
      * exists toks. split; [done|].
        rewrite rewrap_not_discord by done. simpl. by rewrite Hcat.
Qed.

(** One line: its nodes, the custom emoji given their tokens back, spell
    the line. *)
Lemma parse_line_rewrap tbl line :
  Forall (fun e => (length e <= 18)%nat) tbl ->
  exists toks,
    Forall2 wire_token (discord_ids (_parse_line tbl line)) toks
    /\ concat (rewrap toks (_parse_line tbl line)) = line.
Proof.
  intros Hb. unfold _parse_line, EMOJI_REGEX_split.
  destruct (parse_chunks_rewrap 0 (split_from tbl line 0 []))
    as (toks & Hall & Hcat); [by apply split_from_tokens|].
  exists toks. split; [done|]. by rewrite Hcat, split_from_concat.
Qed.

(** *** Lines *)

Lemma splitlines_from_nonempty s cur :
  s <> [] \/ cur <> [] -> splitlines_from s cur <> [].
Proof.
  revert cur; induction s as [|c s IH]; intros cur H; simpl.
  - destruct H as [H|H]; [done|]. by destruct cur.
  - destruct (N.eqb c 13); [destruct s as [|d s]; [done|by destruct (N.eqb d 10)]|].
    destruct (is_linebreak c); [done|]. apply IH. by right.
Qed.

Lemma join_lines_cons l rest :
  rest <> [] -> join_lines (l :: rest) = l ++ 10%N :: join_lines rest.
Proof. by destruct rest. Qed.

Lemma splitlines_from_join s cur :
  Forall (fun c => is_linebreak c = true -> c = 10%N) s ->
  last s <> Some 10%N ->
  join_lines (splitlines_from s cur) = rev cur ++ s.
Proof.
  revert cur; induction s as [|c s IH]; intros cur Hs Hlast.
  - simpl. destruct cur; [done|]. by rewrite app_nil_r.
  - inversion Hs as [|? ? Hc Hs']; subst.
    assert (Hlast' : last s <> Some 10%N).
    { intros E. apply Hlast. rewrite last_cons. by rewrite E. }
    cbn [splitlines_from].
    destruct (N.eqb_spec c 13) as [->|Hne]; [by specialize (Hc eq_refl)|].
    destruct (is_linebreak c) eqn:Eb.
    + rewrite (Hc eq_refl) in *.
      assert (s <> []) by (intros ->; by apply Hlast).
      rewrite join_lines_cons by (apply splitlines_from_nonempty; by left).
      by rewrite IH.
    + rewrite IH by done. simpl. by rewrite <- app_assoc.
Qed.

Lemma lines_rewrap tbl (lines : list str) :
  Forall (fun e => (length e <= 18)%nat) tbl ->
  exists toks : list (list str),
    Forall2 (fun nodes ts => Forall2 wire_token (discord_ids nodes) ts)
            (map (_parse_line tbl) lines) toks
    /\ zip_with (fun ts nodes => concat (rewrap ts nodes)) toks
                (map (_parse_line tbl) lines) = lines.
Proof.
  intros Hb. induction lines as [|l lines (toks & Hall & Hzip)].
  - exists []. split; [constructor|done].
  - destruct (parse_line_rewrap tbl l Hb) as (ts & Hts & Hl).
    exists (ts :: toks). cbn [map]. split; [by constructor|].
    cbn [zip_with]. by rewrite Hl, Hzip.
Qed.

(** C2 (amended).  Tokenization keeps everything but what a custom-emoji
    token carries besides its id.  For a table whose emoji have at most 18
    code points and a text whose line breaks are all "\n" and which does
    not end with one: there are wire tokens, one around the id of each
    DiscordEmoji node, such that the node contents of each line in order,
    with the DiscordEmoji nodes re-wrapped into those tokens, and the
    lines joined by "\n", give the text back. *)
Theorem to_nodes_lossless_up_to_tokens (tbl : list str) (t : str) :
  Forall (fun e => (length e <= 18)%nat) tbl ->
  Forall (fun c => is_linebreak c = true -> c = 10%N) t ->
  last t <> Some 10%N ->
  exists toks : list (list str),
    Forall2 (fun nodes ts => Forall2 wire_token (discord_ids nodes) ts)
            (to_nodes tbl t) toks
    /\ reconstruct toks (to_nodes tbl t) = t.
Proof.
  intros Hb Hbr Hlast. unfold to_nodes, reconstruct.
  destruct (lines_rewrap tbl (splitlines t) Hb) as (toks & Hall & Hzip).
  exists toks. split; [done|].
  rewrite Hzip. unfold splitlines. by rewrite splitlines_from_join.
Qed.

Lemma to_nodes_lossless_up_to_tokens_witness :
  exists toks : list (list str),
    Forall2 (fun nodes ts => Forall2 wire_token (discord_ids nodes) ts)
            (to_nodes examples.table examples.two_lines) toks
    /\ reconstruct toks (to_nodes examples.table examples.two_lines)
       = examples.two_lines.
Proof.
  apply (to_nodes_lossless_up_to_tokens examples.table examples.two_lines).
  - by_decide.
  - by_decide.
  - by_decide.
Defined.

(** C2, as stated, fails: two texts that differ in the name and the
    animated flag of a custom emoji have the same nodes, so no reading of
    the nodes gives both texts back. *)
Lemma to_nodes_forgets_token_names :
  ~ exists read : list (list Node) -> str,
      read (to_nodes examples.table examples.token_foo) = examples.token_foo
      /\ read (to_nodes examples.table examples.token_bar) = examples.token_bar.
Proof.
  intros (read & Hfoo & Hbar).
  assert (E : to_nodes examples.table examples.token_foo
              = to_nodes examples.table examples.token_bar) by reflexivity.
  rewrite E, Hbar in Hfoo. discriminate.
Qed.

(** C10.  Measuring the empty text gives width 0 and height [-spacing],
    whatever the font and the scale; with the default spacing of 4 the
    height is negative. *)
Theorem getsize_empty_text (tbl : list str) (ver : list Z) (font : PIL.FontT)
    (spacing : Z) (scale : Q) :
  getsize tbl ver [] font spacing scale = (0, (0 - inject_Z spacing)%Q)
  /\ (0 - inject_Z spacing == inject_Z (- spacing))%Q
  /\ ((getsize tbl ver [] font 4 scale).2 < 0)%Q.
Proof.
  split_and!.
  - reflexivity.
  - unfold Qeq. simpl. lia.
  - reflexivity.
Qed.

(** *** The ids of the custom-emoji nodes are numbers *)

Lemma int_of_str_digits (s : str) :
  Forall (fun c => is_digit c = true) s -> s <> [] ->
  is_Some (builtins.int_of_str s).
Proof.
  intros Hs Hne. unfold builtins.int_of_str. destruct s as [|c0 s0]; [done|].
  generalize (c0 :: s0) Hs. clear. intros s Hs. generalize 0.
  induction Hs as [|c s Hc Hs IH]; intros n; cbn [foldl]; [by eexists|].
  unfold is_digit, in_range in Hc. rewrite Hc. apply IH.
Qed.

Lemma wire_token_numeric id tok :
  wire_token id tok -> is_Some (builtins.int_of_str id).
Proof.
  intros (flag & name & _ & _ & _ & _ & Hid & Hlen).
  apply int_of_str_digits; [done|]. intros ->. simpl in Hlen. lia.
Qed.

Lemma discord_ids_elem n nodes :
  n ∈ nodes -> type n = discord_emoji -> content n ∈ discord_ids nodes.
Proof.
  induction nodes as [|m nodes IH]; intros Hin Hty.
  - by apply elem_of_nil in Hin.
  - apply elem_of_cons in Hin as [<-|Hin]; cbn [discord_ids].
    + rewrite Hty. left.
    + destruct (type m); [by apply IH..|right; by apply IH].
Qed.

Lemma parse_line_numeric tbl line n :
  Forall (fun e => (length e <= 18)%nat) tbl ->
  n ∈ _parse_line tbl line -> type n = discord_emoji ->
  is_Some (builtins.int_of_str (content n)).
Proof.
  intros Hb Hin Hty.
  destruct (parse_line_rewrap tbl line Hb) as (toks & Hall & _).
  pose proof (discord_ids_elem n _ Hin Hty) as Hid.
  apply list_elem_of_lookup in Hid as [i Hi].
  destruct (Forall2_lookup_l _ _ _ _ _ Hall Hi) as (tok & _ & Htok).
  by eapply wire_token_numeric.
Qed.

Lemma to_nodes_numeric tbl t line n :
  Forall (fun e => (length e <= 18)%nat) tbl ->
  line ∈ to_nodes tbl t -> n ∈ line -> type n = discord_emoji ->
  is_Some (builtins.int_of_str (content n)).
Proof.
  intros Hb Hline Hin Hty. unfold to_nodes in Hline.
  apply list_elem_of_In, in_map_iff in Hline as (l & <- & _).
  by eapply parse_line_numeric.
Qed.

End TokenizerFacts.

(** ** How the canvas fares under the monad's operations *)

Module CanvasFacts.
Import runtime core frame frame_canvas.

Section Keeps.
Context {T : Type} (proj : World -> T).

Lemma keeps_ret {A} (a : A) : keeps proj (mret a).
Proof. by intros w. Qed.

Lemma keeps_raise {A} e : keeps proj (raise e : M World A).
Proof. by intros w. Qed.

Lemma keeps_gets {A} (f : World -> A) : keeps proj (gets f).
Proof. by intros w. Qed.

Lemma keeps_lift {A} (r : result A) : keeps proj (lift r).
Proof. by destruct r. Qed.

Lemma keeps_bind {A B} (m : M World A) (k : A -> M World B) :
  keeps proj m -> (forall a, keeps proj (k a)) -> keeps proj (m ≫= k).
Proof.
  intros Hm Hk w. unfold mbind, M_bind, bind. specialize (Hm w).
  destruct (m w) as [[a|e] w']; simpl in *; [|done].
  by rewrite Hk.
Qed.

Lemma keeps_modify (f : World -> World) :
  (forall w, proj (f w) = proj w) -> keeps proj (modify f).
Proof. intros H w. apply H. Qed.

Lemma keeps_in_env {A} (m : M source.Env A) :
  (forall e w, proj (set_env e w) = proj w) -> keeps proj (in_env m).
Proof. intros H w. unfold in_env, zoom. destruct (m (env w)). apply H. Qed.

Lemma keeps_with_stream {A} r (f : BytesIO -> result A * BytesIO) :
  (forall h w, proj (w_set_heap h w) = proj w) ->
  keeps proj (with_stream w_heap w_set_heap r f).
Proof.
  intros H w. unfold with_stream. destruct (w_heap w !! r) as [b|]; [|done].
  destruct (closed b); [done|]. destruct (f b). apply H.
Qed.

Lemma keeps_map_M {A B} (f : A -> M World B) l :
  (forall a, keeps proj (f a)) -> keeps proj (map_M f l).
Proof.
  intros Hf. induction l as [|a l IH]; simpl; [by intros w|].
  apply (keeps_bind (f a)); [done|]. intros b.
  apply (keeps_bind (map_M f l)); [done|]. intros bs. by intros w.
Qed.

End Keeps.

Lemma keeps_grows {A} (m : M World A) : keeps_canvas m -> grows_canvas m.
Proof. intros H w. exists []. apply H. Qed.

Lemma grows_bind {A B} (m : M World A) (k : A -> M World B) :
  grows_canvas m -> (forall a, grows_canvas (k a)) -> grows_canvas (m ≫= k).
Proof.
  intros Hm Hk w. unfold mbind, M_bind, bind. destruct (Hm w) as [ops Hops].
  destruct (m w) as [[a|e] w']; simpl in *; [|by exists ops].
  destruct (Hk a w') as [ops' Hops']. exists (ops' ++ ops).
  by rewrite Hops', Hops, app_assoc.
Qed.

Lemma grows_add_canvas op : grows_canvas (modify (add_canvas op)).
Proof. intros w. by exists [op]. Qed.

End CanvasFacts.

(** ** Layout: substitution runs and line offsets *)

Module LayoutFacts.
Import runtime core frame frame_canvas CanvasFacts.

Lemma round_inject_Z z : builtins.round (inject_Z z) = z.
Proof.
  unfold builtins.round. rewrite Qfloor_Z.
  assert (H : (inject_Z z - inject_Z z ?= 1 # 2)%Q = Lt).
  { apply Qlt_alt. unfold Qminus. rewrite Qplus_opp_r. reflexivity. }
  by rewrite H.
Qed.

(** C5 (amended).  In the draw string of a line, a non-text node whose
    asset was fetched is replaced by a run of spaces, and their number is
    round((round(s * f) + ox + 2 * ns) / w): the product of scale factor
    and font size is rounded on its own, before the offset and the node
    spacing are added.  ([w], the measured width of one space, is not
    zero.)  A non-text node without an asset is not replaced: its content
    goes into the draw string. *)
Theorem fetched_emoji_becomes_spaces (s : Q) (font : PIL.FontT)
    (ox oy ns : Z) (w : Q) (node : helpers.Node) (r : ref)
    (rest : list (helpers.Node * option ref)) (acc : str) :
  helpers.type node <> helpers.text ->
  ~ (w == 0)%Q ->
  build_text_line s font (ox, oy) ns w ((node, Some r) :: rest) acc
  = build_text_line s font (ox, oy) ns w rest
      (acc ++ replicate
         (Z.to_nat (builtins.round
            (inject_Z (builtins.round (s * PIL.size font) + ox + 2 * ns) / w)))
         32%N)
  /\ build_text_line s font (ox, oy) ns w ((node, None) :: rest) acc
     = build_text_line s font (ox, oy) ns w rest (acc ++ helpers.content node).
Proof.
  intros Hty Hw. split.
  - cbn [build_text_line]. unfold space_to_had, emoji_width.
    rewrite round_inject_Z.
    assert (E : Qeq_bool w 0 = false).
    { destruct (Qeq_bool w 0) eqn:E; [|done]. by apply Qeq_bool_eq in E. }
    rewrite E, (Z.mul_comm ns 2).
    by destruct (helpers.type node).
  - cbn [build_text_line]. by destruct (helpers.type node).
Qed.

Lemma fetched_emoji_becomes_spaces_witness :
  build_text_line 1 examples.fixed_font (0, 0) 0 8
    [(helpers.mkNode helpers.emoji examples.grinning, Some 0%nat)] (py "Hi ")
  = Ok (py "Hi " ++ py "   ").
Proof.
  destruct (fetched_emoji_becomes_spaces 1 examples.fixed_font 0 0 0 8
              (helpers.mkNode helpers.emoji examples.grinning) 0%nat []
              (py "Hi ")) as [H _].
  - discriminate.
  - discriminate.
  - rewrite H. reflexivity.
Defined.

(** C5, as stated, fails: with scale 1/2, font size 21, offset 1, no node
    spacing and a space 8 pixels wide, the code reserves round(10.5) + 1 =
    11 pixels, hence one space, where the stated formula gives round(11.5)
    = 12 pixels, hence two. *)
Lemma space_count_rounds_product_first :
  space_to_had (1 # 2) examples.fixed_font (1, 0) 0 8 = Ok 1
  /\ spec_words.space_count (1 # 2) (PIL.size examples.fixed_font) 1 0 8 = 2
  /\ build_text_line (1 # 2) examples.fixed_font (1, 0) 0 8
       [(helpers.mkNode helpers.emoji examples.grinning, Some 0%nat)] []
     = Ok [32%N].
Proof. split_and!; reflexivity. Qed.

(** *** The canvas only grows while a line is drawn *)

Lemma keeps_Image_open {T} (proj : World -> T) ext r :
  (forall h w, proj (w_set_heap h w) = proj w) ->
  keeps proj (Image_open ext r).
Proof.
  intros H. unfold Image_open.
  apply keeps_bind; [by apply keeps_with_stream|]. intros _.
  apply keeps_bind; [by apply keeps_with_stream|]. intros b.
  destruct (image_size ext b); [apply keeps_ret|apply keeps_raise].
Qed.

Lemma grows_paste_nodes ext font a sc off nodes x y :
  grows_canvas (paste_nodes ext font a sc off nodes x y).
Proof.
  revert x y; induction nodes as [|[node stream] nodes IH]; intros x y.
  - apply keeps_grows, keeps_ret.
  - cbn [paste_nodes].
    assert (Hpaste : forall r, grows_canvas
      ('(img, (asset_width, asset_height)) ← Image_open ext r;
       let width := emoji_width sc font in
       if asset_width =? 0 then raise ZeroDivisionError
       else
         let size := (width,
                      builtins.round (inject_Z (Qceiling
                        (inject_Z asset_height / inject_Z asset_width
                         * inject_Z width)))) in
         let '(ox, oy) := off in
         _ ← modify (add_canvas (PIL.Paste img size
                (builtins.round (x + inject_Z ox),
                 builtins.round (y + inject_Z oy))));
         paste_nodes ext font a sc off nodes
           (x + inject_Z (node_spacing a + width))%Q y)).
    { intros r. apply grows_bind; [by apply keeps_grows, keeps_Image_open|].
      intros [img [aw ah]]. cbn zeta. destruct (aw =? 0).
      - apply keeps_grows, keeps_raise.
      - destruct off as [ox oy].
        apply grows_bind; [apply grows_add_canvas|]. intros _. apply IH. }
    destruct (helpers.type node), stream; try apply IH; apply Hpaste.
Qed.

Lemma grows_draw_lines ext draw font a anchor sc off x0 maxw ls lines y ink sw :
  grows_canvas (draw_lines ext draw font a anchor sc off x0 maxw ls lines
                           y ink sw).
Proof.
  revert y ink sw; induction lines as [|l lines IH]; intros y ink sw.
  - apply keeps_grows, keeps_ret.
  - cbn [draw_lines]. apply grows_bind; [apply keeps_grows, keeps_lift|].
    intros x. apply grows_bind.
    { destruct (0 <? length (draw_string l))%nat;
        [apply grows_add_canvas|apply keeps_grows, keeps_ret]. }
    intros _.
    destruct (match ink with Some _ => _ | None => _ end) as [[[ink' sw'] x'] y'].
    apply grows_bind; [apply grows_paste_nodes|]. intros _. apply IH.
Qed.

Lemma anchor_column_agrees anchor x wd :
  (if str_eqb (item anchor 0) (py "m") then (x - wd / 2)%Q
   else if str_eqb (item anchor 0) (py "r") then (x - wd)%Q else x)
  = spec_words.after_anchor_column anchor x wd.
Proof.
  unfold spec_words.after_anchor_column, item, str_eqb.
  change (py "m") with [109%N]. change (py "r") with [114%N].
  destruct (anchor !! 0%nat) as [c|]; [|done].
  repeat case_bool_decide; simplify_eq; done.
Qed.

(** C6.  Every line is drawn at the horizontal offset obtained from the
    original x by the anchor column ("m" subtracts half of maxWidth -
    lineWidth, "r" subtracts all of it) and then by [align] ("center" adds
    half of the difference back, "right" adds all of it, "left" adds
    nothing): that offset is what [line_x] returns and where the draw call
    of the line lands on the canvas. *)
Theorem line_drawn_at_anchor_then_align (ext : Externals) (draw : PIL.ImageDraw)
    (font : PIL.FontT) (a : TextArgs) (anchor : str) (sc : Q) (off : Z * Z)
    (x0 maxw ls : Q) (l : LayoutLine) (rest : list LayoutLine) (y : Q)
    (ink : option PIL.ColorT) (sw : Z) (w : World) (x : Q) :
  draw_string l <> [] ->
  (align a = py "left"
   /\ x = spec_words.after_anchor_column anchor x0 (maxw - pixel_width l))
  \/ (align a = py "center"
      /\ x = (spec_words.after_anchor_column anchor x0 (maxw - pixel_width l)
              + (maxw - pixel_width l) / 2)%Q)
  \/ (align a = py "right"
      /\ x = (spec_words.after_anchor_column anchor x0 (maxw - pixel_width l)
              + (maxw - pixel_width l))%Q) ->
  line_x anchor (align a) x0 (maxw - pixel_width l) = Ok x
  /\ In (PIL.DrawText (x, y) (draw_string l) anchor (spacing a) (align a) sw)
        (canvas (draw_lines ext draw font a anchor sc off x0 maxw ls
                            (l :: rest) y ink sw w).2).
Proof.
  intros Hne Halign.
  assert (Hx : line_x anchor (align a) x0 (maxw - pixel_width l) = Ok x).
  { unfold line_x. rewrite anchor_column_agrees.
    destruct Halign as [[-> ->]|[[-> ->]|[-> ->]]]; reflexivity. }
  split; [done|].
  cbn [draw_lines]. unfold mbind at 1, M_bind, bind. rewrite Hx. simpl lift.
  unfold ret at 1. cbn iota beta.
  destruct (draw_string l) as [|c ds] eqn:Eds; [done|].
  change (0 <? length (c :: ds))%nat with true. cbn iota.
  unfold mbind at 1, M_bind, bind, modify at 1. cbn iota beta.
  destruct (match ink with Some _ => _ | None => _ end) as [[[ink' sw'] x'] y'].
  match goal with
  | |- In _ (canvas (?m ?w0).2) =>
      assert (Hg : grows_canvas m)
        by (apply grows_bind; [apply grows_paste_nodes|];
            intros _; apply grows_draw_lines);
      destruct (Hg w0) as [ops ->]
  end.
  apply in_or_app. right. simpl. by left.
Qed.

Lemma line_drawn_at_anchor_then_align_witness :
  line_x (py "ma") (py "center") 100 (40 - 16) = Ok (100 - (40 - 16) / 2 + (40 - 16) / 2)%Q
  /\ In (PIL.DrawText ((100 - (40 - 16) / 2 + (40 - 16) / 2)%Q, 50%Q) (py "ab")
                      (py "ma") 4 (py "center") 0)
        (canvas (draw_lines examples.ext examples.fixed_draw examples.fixed_font
                   (examples.centred (py "ab")) (py "ma") 1 (0, 0) 100 40 25
                   [mkLayoutLine [] (py "ab") 16] 50 None 0
                   (examples.entered examples.net_ok)).2).
Proof.
  apply (line_drawn_at_anchor_then_align examples.ext examples.fixed_draw
           examples.fixed_font (examples.centred (py "ab")) (py "ma") 1 (0, 0)
           100 40 25 (mkLayoutLine [] (py "ab") 16) [] 50 None 0
           (examples.entered examples.net_ok)).
  - discriminate.
  - right. left. split; reflexivity.
Defined.

End LayoutFacts.

(** ** The memory tier and the session's end *)

Module CacheFacts.
Import runtime source core frame MonadFacts.

Lemma seek0_hit (w : World) entry b :
  heap (env w) !! entry = Some b -> closed b = false ->
  seek0 w_heap w_set_heap entry w
  = (Ok tt, w_set_heap (<[entry := mkBytesIO (getvalue b) 0 (closed b)]>
                          (heap (env w))) w).
Proof.
  intros Hb Hc. unfold seek0, with_stream, w_heap. by rewrite Hb, Hc.
Qed.

(** C7 (amended).  On a memory hit the getter hands out the cached stream
    object itself, rewound to position 0, and changes nothing else: every
    caller of the same key receives the same object, so callers share its
    read position, which each hit resets to the start. *)
Theorem memory_hit_returns_cached_object (ext : Externals) (w : World)
    (entry : ref) (b : BytesIO) :
  _cache (main w) = true ->
  heap (env w) !! entry = Some b ->
  closed b = false ->
  let w' := w_set_heap (<[entry := mkBytesIO (getvalue b) 0 (closed b)]>
                          (heap (env w))) w in
  (forall emoji, _emoji_cache (main w) !! emoji = Some entry ->
     _get_emoji ext emoji w = (Ok (Some entry), w')
     /\ _get_emoji ext emoji w' = (Ok (Some entry), w'))
  /\ (forall id n, builtins.int_of_str id = Some n ->
        _discord_emoji_cache (main w) !! n = Some entry ->
        _get_discord_emoji ext id w = (Ok (Some entry), w')
        /\ _get_discord_emoji ext id w' = (Ok (Some entry), w')).
Proof.
  intros Hcache Hb Hc w'.
  assert (Hb' : heap (env w') !! entry
                = Some (mkBytesIO (getvalue b) 0 (closed b))).
  { simpl. apply list_lookup_insert_eq. by eapply lookup_lt_Some. }
  assert (Hw' : w_set_heap (<[entry := mkBytesIO (getvalue b) 0 (closed b)]>
                              (heap (env w'))) w' = w').
  { unfold w', w_set_heap, set_env, source.set_heap. simpl.
    by rewrite list_insert_insert_eq. }
  split.
  - intros emoji He. split.
    + unfold _get_emoji, mbind, M_bind, bind, gets. cbn iota beta.
      rewrite Hcache, He. by rewrite (seek0_hit w entry b).
    + unfold _get_emoji, mbind, M_bind, bind, gets. cbn iota beta.
      change (main w') with (main w). rewrite Hcache, He.
      rewrite (seek0_hit w' entry _ Hb' Hc). cbn [getvalue closed].
      by rewrite Hw'.
  - intros id n Hn He. split.
    + unfold _get_discord_emoji. rewrite Hn.
      unfold mbind, M_bind, bind, gets. cbn iota beta.
      rewrite Hcache, He. by rewrite (seek0_hit w entry b).
    + unfold _get_discord_emoji. rewrite Hn.
      unfold mbind, M_bind, bind, gets. cbn iota beta.
      change (main w') with (main w). rewrite Hcache, He.
      rewrite (seek0_hit w' entry _ Hb' Hc). cbn [getvalue closed].
      by rewrite Hw'.
Qed.

Lemma memory_hit_returns_cached_object_witness :
  (_get_emoji examples.ext examples.grinning examples.warmed).1 = Ok (Some 0%nat).
Proof.
  destruct (memory_hit_returns_cached_object examples.ext examples.warmed 0%nat
              (mkBytesIO examples.png 0 false)) as [H _].
  - reflexivity.
  - reflexivity.
  - reflexivity.
  - destruct (H examples.grinning) as [-> _]; reflexivity.
Defined.

(** C7, as stated, fails: a first caller gets the cached stream and reads
    two bytes of it; a second caller of the same key gets the very same
    stream, which puts the first caller's read position back to 0, and
    when the second caller reads three bytes the first caller's position
    is 3. *)
Lemma memory_hit_shares_read_position :
  let '(r1, w1) := _get_emoji examples.ext examples.grinning examples.warmed in
  let '(_, w2) := read_n w_heap w_set_heap 0 2 w1 in
  let '(r2, w3) := _get_emoji examples.ext examples.grinning w2 in
  let '(_, w4) := read_n w_heap w_set_heap 0 3 w3 in
  r1 = Ok (Some 0%nat) /\ r2 = Ok (Some 0%nat)
  /\ tell <$> w_heap w2 !! 0%nat = Some 2%nat
  /\ tell <$> w_heap w3 !! 0%nat = Some 0%nat
  /\ tell <$> w_heap w4 !! 0%nat = Some 3%nat.
Proof. vm_compute. repeat split. Qed.

(** *** [close] *)

Lemma for_each_close_stream l (w : World) :
  exists h, for_each l (close_stream w_heap w_set_heap) w
            = (Ok tt, w_set_heap h w).
Proof.
  revert w; induction l as [|r l IH]; intros w.
  - exists (heap (env w)). by destruct w as [m [] cv].
  - cbn [for_each]. unfold bind, close_stream at 1, modify.
    destruct (IH (w_set_heap (alter (fun b => mkBytesIO (getvalue b) (tell b) true)
                                    r (w_heap w)) w)) as [h Hh].
    exists h. by rewrite Hh.
Qed.

(** What [close] does, by cases. *)
Lemma close_outcome (w : World) :
  (exists e, close w = (Raise e, w))
  \/ (exists w', close w = (Ok tt, w')
        /\ _closed (main w') = true
        /\ _cache (main w') = _cache (main w)
        /\ disk (env w') = disk (env w)
        /\ (if _cache (main w)
            then _emoji_cache (main w') = ∅ /\ _discord_emoji_cache (main w') = ∅
            else _emoji_cache (main w') = _emoji_cache (main w)
                 /\ _discord_emoji_cache (main w') = _discord_emoji_cache (main w))).
Proof.
  unfold close. mstep.
  destruct (_closed (main w)) eqn:Hcl; [left; by eexists|].
  destruct (_new_draw (main w)) eqn:Hnd; mstep; [left; by eexists|].
  assert (Hrest : forall w0 : World,
    main w0 = main w -> disk (env w0) = disk (env w) ->
    exists w',
      (_ ← (if _cache (main w)
            then
              _ ← for_each (map_to_list (_emoji_cache (main w))).*2
                           (close_stream w_heap w_set_heap);
              _ ← for_each (map_to_list (_discord_emoji_cache (main w))).*2
                           (close_stream w_heap w_set_heap);
              modify (fun w => set_main (set_discord_emoji_cache ∅
                                           (set_emoji_cache ∅ (main w))) w)
            else mret tt);
       modify (fun w => set_main (set_closed true (main w)) w)) w0 = (Ok tt, w')
      /\ _closed (main w') = true
      /\ _cache (main w') = _cache (main w)
      /\ disk (env w') = disk (env w)
      /\ (if _cache (main w)
          then _emoji_cache (main w') = ∅ /\ _discord_emoji_cache (main w') = ∅
          else _emoji_cache (main w') = _emoji_cache (main w)
               /\ _discord_emoji_cache (main w') = _discord_emoji_cache (main w))).
  { intros w0 Hm Hd. destruct (_cache (main w)) eqn:Hc.
    - destruct (for_each_close_stream (map_to_list (_emoji_cache (main w))).*2 w0)
        as [h1 H1].
      destruct (for_each_close_stream
                  (map_to_list (_discord_emoji_cache (main w))).*2
                  (w_set_heap h1 w0)) as [h2 H2].
      eexists. split.
      + erewrite bind_Ok; [|erewrite bind_Ok by exact H1;
                             erewrite bind_Ok by exact H2; reflexivity].
        reflexivity.
      + simpl. rewrite Hm, Hc. by split_and!.
    - mstep. eexists. split; [reflexivity|]. simpl. by rewrite Hm, Hc. }
  destruct (session_of (source (main w))) as [[|]|] eqn:Hs; mstep.
  - left. by eexists.
  - right. by apply Hrest.
  - right. by apply Hrest.
Qed.

(** C8.  A second [close()] always raises: after a first one that
    succeeded the renderer is marked closed and the second raises
    ValueError; a first one that raised left everything as it was and the
    second raises again.  A first [close()] that succeeds leaves the files
    of the durable tier as they were and both memory caches empty.  (The
    caches are emptied when caching is on; with caching off nothing ever
    fills them, which is what [cache_inv] records: it holds of every
    reachable world.) *)
Theorem close_twice_raises_and_clears (w : World) :
  is_Raise (close (close w).2).1 = true
  /\ (forall w', close w = (Ok tt, w') ->
        close w' = (Raise (ValueError "Renderer has already been closed."), w')
        /\ disk (env w') = disk (env w)
        /\ (cache_inv (main w) ->
            _emoji_cache (main w') = ∅ /\ _discord_emoji_cache (main w') = ∅)).
Proof.
  assert (Hclosed : forall w1 : World, _closed (main w1) = true ->
            close w1 = (Raise (ValueError "Renderer has already been closed."),
                        w1)).
  { intros w1 Hcl. unfold close. mstep. by rewrite Hcl. }
  destruct (close_outcome w)
    as [[e He]|(w1 & Hw1 & Hcl & Hflag & Hdisk & Hcaches)].
  - rewrite He. cbn [snd]. rewrite He. split; [done|]. intros w' [=].
  - rewrite Hw1. cbn [snd]. rewrite (Hclosed w1 Hcl). split; [done|].
    intros w' [= <-]. split_and!; [by apply Hclosed|done|].
    intros Hinv. destruct (_cache (main w)) eqn:Hc; [done|].
    destruct Hcaches as [-> ->]. by apply Hinv.
Qed.

Lemma close_twice_raises_and_clears_witness :
  close (close examples.warmed).2
  = (Raise (ValueError "Renderer has already been closed."),
     (close examples.warmed).2)
  /\ disk (env (close examples.warmed).2) = disk (env examples.warmed)
  /\ (cache_inv (main examples.warmed) ->
      _emoji_cache (main (close examples.warmed).2) = ∅
      /\ _discord_emoji_cache (main (close examples.warmed).2) = ∅).
Proof.
  apply (close_twice_raises_and_clears examples.warmed).
  vm_compute. reflexivity.
Defined.

(** The invariant holds of every new renderer. *)
Lemma cache_inv_init src cache render scale offset :
  cache_inv (PilmojiMain_init src cache render scale offset).
Proof. by intros _. Qed.

End CacheFacts.

(** ** The names of the cached files *)

Module SourceFacts.
Import runtime source.

Lemma digits_of_read fuel (n : N) acc (step := fun (acc : option Z) (c : N) =>
    match acc with
    | Some n => if (N.leb 48 c && N.leb c 57)%bool
                then Some (10 * n + Z.of_N (c - 48)) else None
    | None => None
    end) :
  (n < 2 ^ N.of_nat fuel)%N ->
  foldl step (Some 0) (builtins.digits_of fuel n acc)
  = foldl step (Some (Z.of_N n)) acc.
Proof.
  revert n acc; induction fuel as [|fuel IH]; intros n acc Hn.
  - simpl in *. by replace n with 0%N by lia.
  - cbn [builtins.digits_of].
    assert (Hd : step (Some (Z.of_N (n / 10)))
                      (48 + n mod 10)%N = Some (Z.of_N n)).
    { assert (Hdm : n = (10 * (n / 10) + n mod 10)%N) by (apply N.div_mod; lia).
      assert (Hd : (n mod 10 < 10)%N) by (apply N.mod_lt; lia).
      revert Hdm Hd. generalize (n mod 10)%N (n / 10)%N. intros d q -> Hd.
      unfold step.
      replace (48 <=? 48 + d)%N with true by (symmetry; apply N.leb_le; lia).
      replace (48 + d <=? 57)%N with true by (symmetry; apply N.leb_le; lia).
      cbn [andb]. f_equal. lia. }
    destruct (N.ltb_spec n 10) as [Hlt|Hge].
    + cbn [foldl]. rewrite <- Hd.
      by rewrite (N.div_small n 10).
    + rewrite IH.
      * cbn [foldl]. by rewrite Hd.
      * rewrite Nat2N.inj_succ, N.pow_succ_r' in Hn.
        apply N.Div0.div_lt_upper_bound. lia.
Qed.

Lemma digits_of_nonempty fuel n acc : builtins.digits_of (S fuel) n acc <> [].
Proof.
  revert n acc; induction fuel as [|fuel IH]; intros n acc.
  - simpl. by destruct (N.ltb n 10).
  - cbn [builtins.digits_of]. destruct (N.ltb n 10); [done|apply IH].
Qed.

(** The decimal string of an id reads back as the id. *)
Lemma int_of_str_of_int (n : Z) :
  0 <= n -> builtins.int_of_str (builtins.str_of_int n) = Some n.
Proof.
  intros Hn. unfold builtins.str_of_int.
  destruct (Z.ltb_spec n 0) as [?|_]; [lia|].
  unfold builtins.int_of_str.
  destruct (builtins.digits_of _ _ _) eqn:E.
  { by apply digits_of_nonempty in E. }
  rewrite <- E, digits_of_read.
  - simpl. f_equal. lia.
  - rewrite Nat2N.inj_succ, N2Nat.id.
    destruct (N.eq_dec (Z.to_N (Z.abs n)) 0%N) as [->|Hpos]; [done|].
    apply N.log2_spec. lia.
Qed.

(** C9 (amended).  The file name of a unicode emoji in the durable tier
    is the style identity (the class name of the wrapped source) in clear,
    then "_", then the SHA-256 hex digest (64 characters) of the UTF-8
    encoding of the emoji key alone, then ".png": the hash covers the
    emoji key, not the pair.  Two (style, key) pairs get the same name
    exactly when the class names are equal and the digests of the keys
    are equal.  The file name of a custom emoji is "discord_" followed by
    the decimal id, which reads back as the id, and ".png".  Both names
    are joined to the cache directory. *)
Theorem cache_filenames (sha : bytes -> str) (dir : str) :
  (forall b, length (sha b) = 64%nat) ->
  (forall src e,
     emoji_cache_filename sha src e
     = class_name src ++ py "_" ++ sha (utf8_encode e) ++ py ".png"
     /\ _emoji_cache_path sha dir src e
        = os_path_join dir (emoji_cache_filename sha src e))
  /\ (forall s1 e1 s2 e2,
        emoji_cache_filename sha s1 e1 = emoji_cache_filename sha s2 e2
        <-> class_name s1 = class_name s2
            /\ sha (utf8_encode e1) = sha (utf8_encode e2))
  /\ (forall id,
        discord_cache_filename id
        = py "discord_" ++ builtins.str_of_int id ++ py ".png"
        /\ _discord_cache_path dir id
           = os_path_join dir (discord_cache_filename id)
        /\ (0 <= id ->
            builtins.int_of_str (builtins.str_of_int id) = Some id)).
Proof.
  intros Hlen. split_and!.
  - done.
  - intros s1 e1 s2 e2. unfold emoji_cache_filename. split.
    + intros E.
      assert (Hl : length (class_name s1) = length (class_name s2)).
      { apply (f_equal length) in E. rewrite !length_app, !Hlen in E. lia. }
      apply app_inj_1 in E as [Hc E]; [|done]. split; [done|].
      apply (inj (app (py "_"))) in E. by apply app_inv_tail in E.
    + by intros [-> ->].
  - intros id. split_and!; [done|done|apply int_of_str_of_int].
Qed.

Lemma cache_filenames_witness :
  emoji_cache_filename examples.stub_digest TwitterEmojiSource examples.grinning
  = class_name TwitterEmojiSource ++ py "_"
    ++ examples.stub_digest (utf8_encode examples.grinning) ++ py ".png".
Proof.
  destruct (cache_filenames examples.stub_digest (py "/srv/.cache")) as [H _].
  - intros b. reflexivity.
  - apply H.
Defined.

(** C9, as stated, fails: whatever function with 64-character digests
    stands for the hash, the file name of "😀" under the Twitter style is
    not the hash of style identity and emoji key; the style identity is
    there in clear. *)
Lemma emoji_filename_is_no_digest_of_the_pair :
  ~ exists sha : bytes -> str,
      (forall b, length (sha b) = 64%nat)
      /\ emoji_cache_filename sha TwitterEmojiSource examples.grinning
         = spec_words.emoji_filename sha (class_name TwitterEmojiSource)
                                     examples.grinning.
Proof.
  intros (sha & Hlen & E). apply (f_equal length) in E.
  unfold emoji_cache_filename, spec_words.emoji_filename in E.
  rewrite !length_app, !Hlen in E. simpl in E. lia.
Qed.

End SourceFacts.

(** ** The draw call: validation and failing fetches *)

Module DrawFacts.
Import runtime source core frame frame_canvas MonadFacts CanvasFacts.

Lemma keeps_seek0 r : keeps_canvas (seek0 w_heap w_set_heap r).
Proof. by apply keeps_with_stream. Qed.

Lemma keeps_get_emoji ext emoji : keeps_canvas (_get_emoji ext emoji).
Proof.
  unfold _get_emoji. apply keeps_bind; [apply keeps_gets|]. intros self.
  destruct (if _cache self then _ else _) as [entry|].
  - apply keeps_bind; [apply keeps_seek0|]. intros _. apply keeps_ret.
  - apply keeps_bind; [by apply keeps_in_env|]. intros [r|]; [|apply keeps_ret].
    apply keeps_bind.
    { destruct (_cache self);
        [apply keeps_modify; intros w; reflexivity|apply keeps_ret]. }
    intros _. apply keeps_bind; [apply keeps_seek0|]. intros _. apply keeps_ret.
Qed.

Lemma keeps_get_discord_emoji ext id : keeps_canvas (_get_discord_emoji ext id).
Proof.
  unfold _get_discord_emoji.
  destruct (builtins.int_of_str id) as [n|]; [|apply keeps_raise].
  apply keeps_bind; [apply keeps_gets|]. intros self.
  destruct (if _cache self then _ else _) as [entry|].
  - apply keeps_bind; [apply keeps_seek0|]. intros _. apply keeps_ret.
  - apply keeps_bind; [by apply keeps_in_env|]. intros [r|]; [|apply keeps_ret].
    apply keeps_bind.
    { destruct (_cache self);
        [apply keeps_modify; intros w; reflexivity|apply keeps_ret]. }
    intros _. apply keeps_bind; [apply keeps_seek0|]. intros _. apply keeps_ret.
Qed.

Lemma keeps_process_line ext node : keeps_canvas (process_line ext node).
Proof.
  unfold process_line. apply keeps_bind; [apply keeps_gets|]. intros self.
  apply keeps_bind; [|intros; apply keeps_ret].
  destruct (helpers.type node).
  - apply keeps_ret.
  - apply keeps_get_emoji.
  - destruct (_render_discord_emoji self);
      [apply keeps_get_discord_emoji|apply keeps_ret].
Qed.

(** Fetching, building and measuring a line draws nothing. *)
Lemma keeps_layout_line ext draw font a sc off sp line :
  keeps_canvas (layout_line ext draw font a sc off sp line).
Proof.
  unfold layout_line.
  apply keeps_bind; [apply keeps_map_M, keeps_process_line|]. intros sps.
  apply keeps_bind; [apply keeps_lift|]. intros tl. apply keeps_ret.
Qed.








(** *** A failing GET surfaces as an exception, at every layer *)

Lemma request_fails src url (e : Env) :
  _session src = SessionOfRenderer -> session_closed e = false ->
  failing (network e url) ->
  exists exn, transport_error exn
    /\ request src url e = (Raise exn, add_request url e).
Proof.
  intros Hs Hc Hf. unfold request. rewrite Hs. mstep. rewrite Hc. mstep.
  change (network (add_request url e) url) with (network e url).
  unfold transport_error.
  destruct (network e url) as [status body| |]; simpl in Hf.
  - rewrite Hf. eauto.
  - eauto.
  - eauto.
Qed.

Lemma try_request_fails src url (e : Env) :
  _session src = SessionOfRenderer -> session_closed e = false ->
  failing (network e url) ->
  exists exn e', transport_error exn
    /\ try_except (r ← request src url; mret (Some r)) is_ClientError
         (fun exn => _ ← modify (add_critical url); raise exn) e
       = (Raise exn, e').
Proof.
  intros Hs Hc Hf.
  destruct (request_fails src url e Hs Hc Hf) as (exn & Hexn & Hreq).
  unfold try_except. erewrite bind_Raise by exact Hreq.
  destruct (is_ClientError exn); eauto.
Qed.

Lemma cached_fetch_fails path (fetch : M Env (option ref)) (e e' : Env) exn :
  disk e !! path = None -> fetch e = (Raise exn, e') ->
  cached_fetch path fetch e = (Raise exn, e').
Proof.
  intros Hd Hf. unfold cached_fetch. mstep. rewrite Hd.
  by erewrite bind_Raise by exact Hf.
Qed.

Section Cold.
Context (ext : Externals) (src : HTTPBasedSource) (w : World).
Hypothesis Hcold : cold src w.

Lemma get_emoji_cold emoji :
  exists exn e', transport_error exn
    /\ get_emoji (sha256_hexdigest ext) (CACHE_DIR ext) (source (main w)) emoji
         (env w) = (Raise exn, e').
Proof.
  destruct Hcold as (Hsrc & Hs & [style Hst] & Hc & _ & _ & Hd & Hnet).
  assert (Hcdn : exists exn e', transport_error exn
            /\ EmojiCDNSource_get_emoji src emoji (env w) = (Raise exn, e')).
  { unfold EmojiCDNSource_get_emoji. rewrite Hst.
    by apply try_request_fails. }
  destruct Hcdn as (exn & e' & Hexn & Hcdn).
  exists exn, e'. split; [done|].
  destruct Hsrc as [-> | ->]; cbn [get_emoji]; [done|].
  apply cached_fetch_fails; [|done]. by rewrite Hd.
Qed.

Lemma get_discord_emoji_cold id :
  exists exn e', transport_error exn
    /\ get_discord_emoji (CACHE_DIR ext) (source (main w)) id (env w)
       = (Raise exn, e').
Proof.
  destruct Hcold as (Hsrc & Hs & _ & Hc & _ & _ & Hd & Hnet).
  assert (Hcdn : exists exn e', transport_error exn
            /\ DiscordEmojiSourceMixin_get_discord_emoji src id (env w)
               = (Raise exn, e')).
  { unfold DiscordEmojiSourceMixin_get_discord_emoji.
    by apply try_request_fails. }
  destruct Hcdn as (exn & e' & Hexn & Hcdn).
  exists exn, e'. split; [done|].
  destruct Hsrc as [-> | ->]; cbn [get_discord_emoji]; [done|].
  apply cached_fetch_fails; [|done]. by rewrite Hd.
Qed.

Lemma _get_emoji_cold emoji :
  exists exn w', transport_error exn
    /\ _get_emoji ext emoji w = (Raise exn, w').
Proof.
  destruct (get_emoji_cold emoji) as (exn & e' & Hexn & Hget).
  exists exn, (set_env e' w). split; [done|].
  unfold _get_emoji. mstep.
  destruct Hcold as (_ & _ & _ & _ & Hm & _).
  assert ((if _cache (main w) then _emoji_cache (main w) !! emoji else None)
          = None) as ->.
  { rewrite Hm. by destruct (_cache (main w)). }
  apply bind_Raise. unfold in_env, zoom. by rewrite Hget.
Qed.

Lemma _get_discord_emoji_cold id :
  is_Some (builtins.int_of_str id) ->
  exists exn w', transport_error exn
    /\ _get_discord_emoji ext id w = (Raise exn, w').
Proof.
  intros [n Hn].
  destruct (get_discord_emoji_cold n) as (exn & e' & Hexn & Hget).
  exists exn, (set_env e' w). split; [done|].
  unfold _get_discord_emoji. rewrite Hn. mstep.
  destruct Hcold as (_ & _ & _ & _ & _ & Hm & _).
  assert ((if _cache (main w) then _discord_emoji_cache (main w) !! n else None)
          = None) as ->.
  { rewrite Hm. by destruct (_cache (main w)). }
  apply bind_Raise. unfold in_env, zoom. by rewrite Hget.
Qed.

(** One node: either nothing is asked of the source and nothing
    changes, or the request fails and its exception comes out. *)
Lemma process_line_cold node :
  (helpers.type node = helpers.discord_emoji ->
   is_Some (builtins.int_of_str (helpers.content node))) ->
  if needs_fetch (_render_discord_emoji (main w)) node
  then exists exn w', transport_error exn
         /\ process_line ext node w = (Raise exn, w')
  else process_line ext node w = (Ok (node, None), w).
Proof.
  intros Hnum. unfold needs_fetch, process_line. mstep.
  destruct (helpers.type node) eqn:Hty.
  - by mstep.
  - destruct (_get_emoji_cold (helpers.content node)) as (exn & w' & Hexn & H).
    exists exn, w'. split; [done|]. by apply bind_Raise.
  - destruct (_render_discord_emoji (main w)); [|by mstep].
    destruct (_get_discord_emoji_cold (helpers.content node)) as (exn & w' & Hexn & H);
      [by apply Hnum|].
    exists exn, w'. split; [done|]. by apply bind_Raise.
Qed.

End Cold.

Lemma build_text_line_no_asset sc font off ns sp (line : list helpers.Node) acc :
  build_text_line sc font off ns sp (map (fun n => (n, None)) line) acc
  = Ok (acc ++ concat (map helpers.content line)).
Proof.
  revert acc; induction line as [|n line IH]; intros acc; cbn [map build_text_line].
  - by rewrite app_nil_r.
  - assert (E : build_text_line sc font off ns sp (map (fun n => (n, None)) line)
                  (acc ++ helpers.content n)
                = Ok (acc ++ concat (map helpers.content (n :: line)))).
    { rewrite IH. simpl. by rewrite app_assoc. }
    by destruct (helpers.type n).
Qed.

Section ColdDraw.
Context (ext : Externals) (draw : PIL.ImageDraw) (src : HTTPBasedSource)
        (w : World).
Hypothesis Hcold : cold src w.

(** The gather of one line: the first node to fetch aborts it. *)
Lemma gather_cold line :
  numeric line ->
  if line_fetches (_render_discord_emoji (main w)) line
  then exists exn w', transport_error exn
         /\ map_M (process_line ext) line w = (Raise exn, w')
  else map_M (process_line ext) line w
       = (Ok (map (fun n => (n, None)) line), w).
Proof.
  induction line as [|n line IH]; intros Hnum; [done|].
  cbn [map_M]. unfold line_fetches. cbn [existsb].
  pose proof (process_line_cold ext src w Hcold n) as Hn.
  destruct (needs_fetch (_render_discord_emoji (main w)) n).
  - destruct Hn as (exn & w' & Hexn & Hn).
    { intros Hty. apply Hnum; [left|done]. }
    exists exn, w'. split; [done|]. unfold bind. by rewrite Hn.
  - cbn [orb].
    assert (Hn' : process_line ext n w = (Ok (n, None), w)).
    { apply Hn. intros Hty. apply Hnum; [left|done]. }
    assert (Hrest : numeric line).
    { intros m Hm. apply Hnum. by right. }
    specialize (IH Hrest). fold (line_fetches (_render_discord_emoji (main w)) line). destruct (line_fetches (_render_discord_emoji (main w)) line).
    + destruct IH as (exn & w' & Hexn & IH). exists exn, w'.
      split; [done|]. unfold bind. rewrite Hn'. cbn beta iota. by rewrite IH.
    + unfold bind. rewrite Hn'. cbn beta iota. by rewrite IH.
Qed.

Lemma layout_line_cold font a sc off sp line :
  numeric line ->
  if line_fetches (_render_discord_emoji (main w)) line
  then exists exn w', transport_error exn
         /\ layout_line ext draw font a sc off sp line w = (Raise exn, w')
  else exists l, layout_line ext draw font a sc off sp line w = (Ok l, w).
Proof.
  intros Hnum. pose proof (gather_cold line Hnum) as Hg.
  unfold layout_line. destruct (line_fetches (_render_discord_emoji (main w)) line).
  - destruct Hg as (exn & w' & Hexn & Hg). exists exn, w'.
    split; [done|]. by apply bind_Raise.
  - erewrite bind_Ok by exact Hg. rewrite build_text_line_no_asset.
    cbn [lift]. mstep. by eexists.
Qed.

Lemma layout_lines_cold font a sc off sp (lines : list (list helpers.Node)) :
  Forall numeric lines ->
  existsb (line_fetches (_render_discord_emoji (main w))) lines = true ->
  exists exn w', transport_error exn
    /\ map_M (layout_line ext draw font a sc off sp) lines w = (Raise exn, w').
Proof.
  induction 1 as [|line lines Hnum Hrest IH]; [done|].
  cbn [existsb map_M]. intros Hex.
  pose proof (layout_line_cold font a sc off sp line Hnum) as Hl.
  destruct (line_fetches (_render_discord_emoji (main w)) line).
  - destruct Hl as (exn & w' & Hexn & Hl). exists exn, w'.
    split; [done|]. unfold bind. by rewrite Hl.
  - destruct Hl as (l & Hl). destruct (IH Hex) as (exn & w' & Hexn & IH').
    exists exn, w'. split; [done|]. unfold bind. rewrite Hl.
    cbn beta iota. by rewrite IH'.
Qed.

End ColdDraw.

(** C1 (amended).  A failed fetch is not downgraded to a missing asset:
    the source logs the transport error and raises it again, neither the
    cache wrapper, nor the renderer's getter, nor the draw call catches
    it, so the draw call raises it, before anything is drawn.  Here: on
    an entered session over an HTTP source with nothing cached, when every
    GET fails (non-success status, timeout or transport fault), a call
    that passes the checks on anchor and direction and whose text has at
    least one node to fetch raises ClientError, ClientConnectionError or
    TimeoutError and leaves the canvas as it was. *)
Theorem fetch_failure_aborts_draw (ext : Externals) (draw : PIL.ImageDraw)
    (src : HTTPBasedSource) (a : TextArgs) (w : World) :
  cold src w ->
  Forall (fun e => (length e <= 18)%nat) (language_pack_values ext) ->
  is_Raise (check_anchor (anchor a) (text a)) = false ->
  is_Raise (check_direction (PIL.direction (opts a)) (text a)) = false ->
  (exists line n,
      line ∈ helpers.to_nodes (language_pack_values ext) (text a)
      /\ n ∈ line
      /\ needs_fetch (_render_discord_emoji (main w)) n = true) ->
  exists exn w',
    PilmojiDrawer_text ext draw a w = (Raise exn, w')
    /\ transport_error exn
    /\ canvas w' = canvas w.
Proof.
  intros Hcold Hb Ha Hd (line & n & Hline & Hn & Hfetch).
  unfold PilmojiDrawer_text. mstep.
  destruct (check_anchor (anchor a) (text a)) as [anc|]; [|done].
  destruct (check_direction _ (text a)) as [[]|]; [|done].
  cbn [lift]. mstep. destruct (xy a) as [x y].
  match goal with
  | |- context [map_M (layout_line ext draw ?font a ?sc ?off ?sp) ?nodes ≫= _] =>
      destruct (layout_lines_cold ext draw src w Hcold font a sc off sp nodes)
        as (exn & w' & Hexn & Hrun);
      [| |pose proof (keeps_map_M canvas (layout_line ext draw font a sc off sp) nodes
                        (keeps_layout_line ext draw font a sc off sp) w) as Hk]
  end.
  - apply Forall_forall. intros l Hl m Hm Hty.
    by eapply TokenizerFacts.to_nodes_numeric.
  - apply existsb_exists. exists line. split; [by apply list_elem_of_In|].
    apply existsb_exists. exists n. split; [by apply list_elem_of_In|done].
  - rewrite Hrun in Hk. exists exn, w'. split_and!; [|done|done].
    by apply bind_Raise.
Qed.

Lemma fetch_failure_aborts_draw_witness :
  exists exn w',
    PilmojiDrawer_text examples.ext examples.fixed_draw
      (default_args (0, 0)%Q (py "Hi " ++ examples.grinning))
      (examples.entered examples.net_404) = (Raise exn, w')
    /\ transport_error exn
    /\ canvas w' = canvas (examples.entered examples.net_404).
Proof.
  apply (fetch_failure_aborts_draw examples.ext examples.fixed_draw
           (mkHTTP (py "TwitterEmojiSource") (Some (py "twitter"))
                   SessionOfRenderer)).
  - unfold cold. split_and!; try reflexivity; [right; reflexivity|by eexists].
  - by_decide.
  - reflexivity.
  - reflexivity.
  - exists [helpers.mkNode helpers.text (py "Hi ");
            helpers.mkNode helpers.emoji examples.grinning],
           (helpers.mkNode helpers.emoji examples.grinning).
    split_and!; [|set_solver|reflexivity].
    apply list_elem_of_In. left. reflexivity.
Defined.

(** C1, as stated, fails: with a network that answers every GET with
    status 404, that times every GET out, or that is down, drawing
    "Hi 😀" raises (ClientError, TimeoutError, ClientConnectionError) and
    draws nothing. *)
Lemma draw_raises_when_network_errors :
  PilmojiDrawer_text examples.ext examples.fixed_draw
    (default_args (0, 0)%Q (py "Hi " ++ examples.grinning))
    (examples.entered examples.net_404)
  = (Raise ClientError,
     set_env (add_critical (py "https://emojicdn.elk.sh/%F0%9F%98%80?style=twitter")
                (add_request (py "https://emojicdn.elk.sh/%F0%9F%98%80?style=twitter")
                   (env (examples.entered examples.net_404))))
             (examples.entered examples.net_404))
  /\ (PilmojiDrawer_text examples.ext examples.fixed_draw
        (default_args (0, 0)%Q (py "Hi " ++ examples.grinning))
        (examples.entered examples.net_timeout)).1 = Raise TimeoutError
  /\ (PilmojiDrawer_text examples.ext examples.fixed_draw
        (default_args (0, 0)%Q (py "Hi " ++ examples.grinning))
        (examples.entered examples.net_down)).1 = Raise ClientConnectionError
  /\ canvas (PilmojiDrawer_text examples.ext examples.fixed_draw
               (default_args (0, 0)%Q (py "Hi " ++ examples.grinning))
               (examples.entered examples.net_down)).2 = [].
Proof. split_and!; reflexivity. Qed.

End DrawFacts.

(** ** The memory tier is used only when caching is on *)

Module SessionFacts.
Import runtime source core frame frame_canvas MonadFacts CanvasFacts.

Lemma cache_safe_keeps {A} (m : M World A) : keeps_main m -> cache_safe m.
Proof. intros H w. by rewrite H. Qed.

Lemma cache_safe_bind {A B} (m : M World A) (k : A -> M World B) :
  cache_safe m -> (forall a, cache_safe (k a)) -> cache_safe (m ≫= k).
Proof.
  intros Hm Hk w. unfold mbind, M_bind, bind. destruct (Hm w) as [Hf Hmain].
  destruct (m w) as [[a|e] w1]; simpl in *; [|done].
  destruct (Hk a w1) as [Hf' Hmain']. split; [congruence|].
  intros Hc. rewrite Hmain' by congruence. by apply Hmain.
Qed.

Lemma cache_safe_map_M {A B} (f : A -> M World B) l :
  (forall a, cache_safe (f a)) -> cache_safe (map_M f l).
Proof.
  intros Hf. induction l as [|a l IH]; simpl; [by intros w|].
  apply (cache_safe_bind (f a)); [done|]. intros b.
  apply (cache_safe_bind (map_M f l)); [done|]. intros bs. by intros w.
Qed.

Lemma cache_safe_inv {A} (m : M World A) w :
  cache_safe m -> cache_inv (main w) -> cache_inv (main (m w).2).
Proof.
  intros Hs Hinv Hc. destruct (Hs w) as [Hf Hm].
  rewrite Hf in Hc. rewrite (Hm Hc). by apply Hinv.
Qed.

Lemma keeps_main_seek0 r : keeps_main (seek0 w_heap w_set_heap r).
Proof. by apply keeps_with_stream. Qed.

(** The getters write to the renderer only under [if self._cache]. *)
Lemma cache_safe_get_emoji ext emoji : cache_safe (_get_emoji ext emoji).
Proof.
  intros w. split.
  - apply (keeps_bind (fun w => _cache (main w))); [apply keeps_gets|].
    intros self. destruct (if _cache self then _ else _) as [entry|].
    + apply keeps_bind; [by apply keeps_with_stream|]. intros _. apply keeps_ret.
    + apply keeps_bind; [by apply keeps_in_env|]. intros [r|]; [|apply keeps_ret].
      apply keeps_bind.
      { destruct (_cache self); [by apply keeps_modify|apply keeps_ret]. }
      intros _. apply keeps_bind; [by apply keeps_with_stream|]. intros _.
      apply keeps_ret.
  - intros Hc. unfold _get_emoji. rewrite bind_gets. cbn beta. rewrite Hc.
    apply (keeps_bind main); [by apply keeps_in_env|].
    intros [r|]; [|apply keeps_ret].
    apply keeps_bind; [apply keeps_ret|]. intros _.
    apply keeps_bind; [apply keeps_main_seek0|]. intros _. apply keeps_ret.
Qed.

Lemma cache_safe_get_discord_emoji ext id :
  cache_safe (_get_discord_emoji ext id).
Proof.
  unfold _get_discord_emoji.
  destruct (builtins.int_of_str id) as [n|]; [|by intros w].
  intros w. split.
  - apply (keeps_bind (fun w => _cache (main w))); [apply keeps_gets|].
    intros self. destruct (if _cache self then _ else _) as [entry|].
    + apply keeps_bind; [by apply keeps_with_stream|]. intros _. apply keeps_ret.
    + apply keeps_bind; [by apply keeps_in_env|]. intros [r|]; [|apply keeps_ret].
      apply keeps_bind.
      { destruct (_cache self); [by apply keeps_modify|apply keeps_ret]. }
      intros _. apply keeps_bind; [by apply keeps_with_stream|]. intros _.
      apply keeps_ret.
  - intros Hc. rewrite bind_gets. cbn beta. rewrite Hc.
    apply (keeps_bind main); [by apply keeps_in_env|].
    intros [r|]; [|apply keeps_ret].
    apply keeps_bind; [apply keeps_ret|]. intros _.
    apply keeps_bind; [apply keeps_main_seek0|]. intros _. apply keeps_ret.
Qed.

Lemma cache_safe_process_line ext node : cache_safe (process_line ext node).
Proof.
  unfold process_line.
  apply cache_safe_bind; [apply cache_safe_keeps, keeps_gets|]. intros self.
  apply cache_safe_bind; [|intros; apply cache_safe_keeps, keeps_ret].
  destruct (helpers.type node).
  - apply cache_safe_keeps, keeps_ret.
  - apply cache_safe_get_emoji.
  - destruct (_render_discord_emoji self);
      [apply cache_safe_get_discord_emoji|apply cache_safe_keeps, keeps_ret].
Qed.

Lemma cache_safe_layout_line ext draw font a sc off sp line :
  cache_safe (layout_line ext draw font a sc off sp line).
Proof.
  unfold layout_line.
  apply cache_safe_bind; [apply cache_safe_map_M, cache_safe_process_line|].
  intros sps. apply cache_safe_keeps.
  apply keeps_bind; [apply keeps_lift|]. intros tl. apply keeps_ret.
Qed.

(** Drawing a line touches the canvas and the streams, not the
    renderer. *)
Lemma keeps_main_paste_nodes ext font a sc off nodes x y :
  keeps_main (paste_nodes ext font a sc off nodes x y).
Proof.
  revert x y; induction nodes as [|[node stream] nodes IH]; intros x y.
  - apply keeps_ret.
  - cbn [paste_nodes].
    assert (Hpaste : forall r, keeps_main
      ('(img, (asset_width, asset_height)) ← Image_open ext r;
       let width := emoji_width sc font in
       if asset_width =? 0 then raise ZeroDivisionError
       else
         let size := (width,
                      builtins.round (inject_Z (Qceiling
                        (inject_Z asset_height / inject_Z asset_width
                         * inject_Z width)))) in
         let '(ox, oy) := off in
         _ ← modify (add_canvas (PIL.Paste img size
                (builtins.round (x + inject_Z ox),
                 builtins.round (y + inject_Z oy))));
         paste_nodes ext font a sc off nodes
           (x + inject_Z (node_spacing a + width))%Q y)).
    { intros r. apply keeps_bind; [by apply LayoutFacts.keeps_Image_open|].
      intros [img [aw ah]]. cbn zeta. destruct (aw =? 0).
      - apply keeps_raise.
      - destruct off as [ox oy].
        apply keeps_bind; [by apply keeps_modify|]. intros _. apply IH. }
    destruct (helpers.type node), stream; try apply IH; apply Hpaste.
Qed.

Lemma keeps_main_draw_lines ext draw font a anchor sc off x0 maxw ls lines
    y ink sw :
  keeps_main (draw_lines ext draw font a anchor sc off x0 maxw ls lines
                         y ink sw).
Proof.
  revert y ink sw; induction lines as [|l lines IH]; intros y ink sw.
  - apply keeps_ret.
  - cbn [draw_lines]. apply keeps_bind; [apply keeps_lift|].
    intros x. apply keeps_bind.
    { destruct (0 <? length (draw_string l))%nat;
        [by apply keeps_modify|apply keeps_ret]. }
    intros _.
    destruct (match ink with Some _ => _ | None => _ end) as [[[ink' sw'] x'] y'].
    apply keeps_bind; [apply keeps_main_paste_nodes|]. intros _. apply IH.
Qed.

Lemma cache_safe_text ext draw a : cache_safe (PilmojiDrawer_text ext draw a).
Proof.
  unfold PilmojiDrawer_text.
  apply cache_safe_bind; [apply cache_safe_keeps, keeps_gets|]. intros self.
  apply cache_safe_bind; [apply cache_safe_keeps, keeps_lift|]. intros anchor.
  apply cache_safe_bind; [apply cache_safe_keeps, keeps_lift|]. intros _.
  destruct (xy a) as [x y].
  apply cache_safe_bind; [apply cache_safe_map_M; intros line;
                          apply cache_safe_layout_line|].
  intros lines. apply cache_safe_keeps, keeps_main_draw_lines.
Qed.

Lemma close_cache_inv w : cache_inv (main w) -> cache_inv (main (close w).2).
Proof.
  intros Hinv.
  destruct (CacheFacts.close_outcome w)
    as [[e ->]|(w' & -> & _ & Hflag & _ & Hcaches)]; [done|].
  cbn [snd]. intros Hc. rewrite Hflag in Hc. rewrite Hc in Hcaches.
  destruct Hcaches as [-> ->]. by apply Hinv.
Qed.

Lemma aenter_cache_inv w : cache_inv (main w) -> cache_inv (main (__aenter__ w).2).
Proof.
  intros Hinv. unfold __aenter__, modify. cbn [snd].
  by destruct (source (main w)).
Qed.

(** Whatever a program does with the renderer, the memory caches stay
    empty when caching is off. *)
Lemma reachable_cache_inv ext draw w : reachable ext draw w -> cache_inv (main w).
Proof.
  induction 1 as [src cache render scale offset files net
                 |w _ IH|w emoji _ IH|w id _ IH|w a _ IH|w r n _ IH|w _ IH].
  - apply CacheFacts.cache_inv_init.
  - by apply aenter_cache_inv.
  - by apply cache_safe_inv; [apply cache_safe_get_emoji|].
  - by apply cache_safe_inv; [apply cache_safe_get_discord_emoji|].
  - by apply cache_safe_inv; [apply cache_safe_text|].
  - apply cache_safe_inv; [|done].
    apply cache_safe_keeps. by apply keeps_with_stream.
  - by apply close_cache_inv.
Qed.

End SessionFacts.

(** * Further properties of the tokenizer *)

Module TokenizerExtras.
Import helpers reading observing TokenizerFacts.

(** *** Chunks *)

Lemma odd_chunks_SS P i chunks :
  odd_chunks P (S (S i)) chunks <-> odd_chunks P i chunks.
Proof.
  revert i; induction chunks as [|c chunks IH]; intros i; [done|].
  cbn [odd_chunks]. rewrite (IH (S i)). by cbn [Nat.even].
Qed.

Lemma odd_chunks_impl (P Q : str -> Prop) i chunks :
  (forall c, P c -> Q c) -> odd_chunks P i chunks -> odd_chunks Q i chunks.
Proof.
  intros HPQ. revert i; induction chunks as [|c chunks IH]; intros i; [done|].
  intros [Hc Hrest]. split; [auto|by apply IH].
Qed.

(** What the scanner emits as a match is a match at that position. *)
Lemma split_from_odd_chunks tbl (P : str -> Prop) :
  (forall s n, EMOJI_REGEX_match tbl s = Some (S n) -> P (take (S n) s)) ->
  forall s n p, odd_chunks P 0 (split_from tbl s n p).
Proof.
  intros HP s. induction s as [|c s IH]; intros n p.
  - simpl. by split.
  - destruct n as [|n]; cbn [split_from]; [|apply IH].
    destruct (EMOJI_REGEX_match tbl (c :: s)) as [[|k]|] eqn:E; try apply IH.
    cbn [odd_chunks]. split_and!; [done| |].
    + intros _. by apply HP.
    + apply odd_chunks_SS, IH.
Qed.

(** A match is an emoji of the table or a custom-emoji wire token. *)
Lemma match_classified tbl s n :
  EMOJI_REGEX_match tbl s = Some (S n) ->
  take (S n) s ∈ tbl \/ exists id, wire_token id (take (S n) s).
Proof.
  unfold EMOJI_REGEX_match, EMOJI_REGEX. cbn [rmatch].
  destruct (rmatch (_UNICODE_EMOJI_REGEX tbl) s Some) as [rest|] eqn:E.
  - intros [= Hn]. left.
    apply alternation_Some in E as [[_ ->]|(e & Hin & ->)]; [lia|].
    rewrite sorted_by_len_desc_perm in Hin.
    rewrite length_app in Hn.
    replace (S n) with (length e) by lia. by rewrite take_app_length.
  - destruct (rmatch _DISCORD_EMOJI_REGEX s Some) as [rest|] eqn:D; [|done].
    intros [= Hn]. right.
    apply discord_match_token in D as (id & tok & Htok & ->).
    rewrite length_app in Hn. exists id.
    replace (S n) with (length tok) by lia. by rewrite take_app_length.
Qed.

Lemma wire_token_length id tok : wire_token id tok -> (22 <= length tok)%nat.
Proof.
  intros (flag & name & -> & _ & _ & Hn & _ & Hi).
  cbn [length]. rewrite !length_app. cbn [length]. rewrite !length_app.
  cbn [length]. rewrite !length_app. simpl. lia.
Qed.

(** *** Nodes *)

Lemma even_S i : Nat.even (S i) = negb (Nat.even i).
Proof. by rewrite Nat.even_succ, <- Nat.negb_even. Qed.

Lemma match_nonempty tbl s n :
  EMOJI_REGEX_match tbl s = Some (S n) -> take (S n) s <> [].
Proof.
  destruct s as [|c s]; [|done]. unfold EMOJI_REGEX_match.
  destruct (rmatch _ _ _); discriminate.
Qed.

Lemma no_adjacent_text_cons n ns :
  (type n <> text \/ starts_nontext ns) -> no_adjacent_text ns ->
  no_adjacent_text (n :: ns).
Proof.
  intros H Hns. destruct ns as [|n2 ns]; [done|].
  split; [|done]. intros [H1 H2]. destruct H as [H|H]; [done|]. by apply H.
Qed.

Lemma parse_chunks_starts_nontext i chunks :
  Nat.even i = false -> odd_chunks (fun c => c <> []) i chunks ->
  starts_nontext (parse_chunks i chunks).
Proof.
  intros Hi. destruct chunks as [|c chunks]; [done|]. intros [Hc _].
  specialize (Hc Hi). cbn [parse_chunks]. destruct c as [|a c]; [done|].
  rewrite Hi. by destruct (18 <? length (a :: c))%nat.
Qed.

Lemma parse_chunks_no_adjacent i chunks :
  odd_chunks (fun c => c <> []) i chunks ->
  no_adjacent_text (parse_chunks i chunks).
Proof.
  revert i; induction chunks as [|c chunks IH]; intros i H; [done|].
  destruct H as [Hc Hrest]. cbn [parse_chunks].
  destruct c as [|a c]; [by apply IH|].
  destruct (Nat.even i) eqn:Hi.
  - apply no_adjacent_text_cons; [|by apply IH]. right.
    apply parse_chunks_starts_nontext; [|done]. by rewrite even_S, Hi.
  - destruct (18 <? length (a :: c))%nat;
      (apply no_adjacent_text_cons; [by left|by apply IH]).
Qed.

(** X4. [_parse_line] never yields two text nodes in a row: each run of
    plain text between two tokens is one node. *)
Theorem text_nodes_never_adjacent (tbl : list str) (line : str) :
  no_adjacent_text (_parse_line tbl line).
Proof.
  apply parse_chunks_no_adjacent, split_from_odd_chunks, match_nonempty.
Qed.

Lemma parse_chunks_sound tbl i chunks n :
  odd_chunks (fun c => c <> [] /\ (c ∈ tbl \/ exists id, wire_token id c))
             i chunks ->
  n ∈ parse_chunks i chunks ->
  match type n with
  | text => content n <> []
  | emoji => content n ∈ tbl /\ content n <> []
  | discord_emoji =>
      Forall (fun e => (length e <= 18)%nat) tbl ->
      Forall (fun c => is_digit c = true) (content n)
      /\ (17 <= length (content n) <= 22)%nat
  end.
Proof.
  revert i; induction chunks as [|c chunks IH]; intros i H Hn.
  - by apply elem_of_nil in Hn.
  - destruct H as [Hc Hrest]. cbn [parse_chunks] in Hn.
    destruct c as [|a c]; [by eapply IH|].
    destruct (Nat.even i) eqn:Hi.
    + apply elem_of_cons in Hn as [->|Hn]; [done|by eapply IH].
    + destruct (Hc eq_refl) as [Hne Hcls].
      destruct (Nat.ltb_spec 18 (length (a :: c))) as [Hlen|Hlen].
      * apply elem_of_cons in Hn as [->|Hn]; [|by eapply IH].
        cbn [type content]. intros Hb.
        destruct Hcls as [Hin|[id Htok]].
        { rewrite Forall_forall in Hb. apply Hb in Hin. lia. }
        rewrite (wire_token_id _ _ Htok).
        destruct Htok as (flag & name & _ & _ & _ & _ & Hid & Hidlen). done.
      * apply elem_of_cons in Hn as [->|Hn]; [|by eapply IH].
        cbn [type content]. split; [|done].
        destruct Hcls as [Hin|[id Htok]]; [done|].
        apply wire_token_length in Htok. lia.
Qed.

(** X3. What a node of [_parse_line] holds: a text node is not empty; an
    emoji node holds an emoji of the table; a custom-emoji node holds,
    when no emoji of the table is longer than 18 code points, a run of
    17 to 22 decimal digits. *)
Theorem parse_line_nodes_sound (tbl : list str) (line : str) (n : Node) :
  n ∈ _parse_line tbl line ->
  match type n with
  | text => content n <> []
  | emoji => content n ∈ tbl /\ content n <> []
  | discord_emoji =>
      Forall (fun e => (length e <= 18)%nat) tbl ->
      Forall (fun c => is_digit c = true) (content n)
      /\ (17 <= length (content n) <= 22)%nat
  end.
Proof.
  apply parse_chunks_sound, split_from_odd_chunks. intros s k Hm.
  split; [by eapply match_nonempty|by apply match_classified].
Qed.

Lemma parse_line_nodes_sound_witness :
  examples.grinning ∈ examples.table /\ examples.grinning <> [].
Proof.
  apply (parse_line_nodes_sound examples.table
           (py "Hi " ++ examples.grinning ++ examples.token_foo)
           (mkNode emoji examples.grinning)).
  apply list_elem_of_In. vm_compute. tauto.
Defined.

(** *** Lines and the characters of nodes *)

Lemma splitlines_from_no_breaks n s cur :
  (length s <= n)%nat ->
  Forall (fun c => is_linebreak c = false) cur ->
  Forall (Forall (fun c => is_linebreak c = false)) (splitlines_from s cur).
Proof.
  revert s cur; induction n as [|n IH]; intros s cur Hlen Hcur.
  - destruct s; [|simpl in Hlen; lia]. simpl.
    destruct cur; [constructor|]. repeat constructor. by apply Forall_rev.
  - destruct s as [|c s].
    { simpl. destruct cur; [constructor|]. repeat constructor.
      by apply Forall_rev. }
    simpl in Hlen. cbn [splitlines_from].
    assert (Hrev : Forall (fun c => is_linebreak c = false) (rev cur))
      by by apply Forall_rev.
    destruct (N.eqb c 13).
    + destruct s as [|d s]; [by repeat constructor|].
      simpl in Hlen.
      destruct (N.eqb d 10); constructor; try done; apply IH;
        simpl; try lia; constructor.
    + destruct (is_linebreak c) eqn:Ec.
      * constructor; [done|]. apply IH; [lia|constructor].
      * apply IH; [lia|]. by constructor.
Qed.

Lemma elem_of_rev_list {A} (l : list A) x : x ∈ rev l <-> x ∈ l.
Proof. rewrite !list_elem_of_In. symmetry. apply in_rev. Qed.

Lemma after_last_colon_chars s acc c :
  c ∈ after_last_colon s acc -> c ∈ s \/ c ∈ acc.
Proof.
  revert acc; induction s as [|b s IH]; intros acc; simpl.
  - rewrite elem_of_rev_list. by right.
  - destruct (N.eqb b 58); intros H; apply IH in H as [H|H].
    + left. by right.
    + by apply elem_of_nil in H.
    + left. by right.
    + apply elem_of_cons in H as [->|H]; [left; left|by right].
Qed.

Lemma removelast_chars (l : str) c : c ∈ removelast l -> c ∈ l.
Proof.
  induction l as [|a l IH]; [done|]. simpl.
  destruct l as [|b l]; [intros H; by apply elem_of_nil in H|].
  intros H. apply elem_of_cons in H as [->|H]; [left|right; by apply IH].
Qed.

Lemma discord_id_of_chars chunk c : c ∈ discord_id_of chunk -> c ∈ chunk.
Proof.
  unfold discord_id_of. intros H. apply removelast_chars in H.
  apply after_last_colon_chars in H as [H|H]; [done|by apply elem_of_nil in H].
Qed.

Lemma parse_chunks_chars i chunks n c :
  n ∈ parse_chunks i chunks -> c ∈ content n -> c ∈ concat chunks.
Proof.
  revert i; induction chunks as [|chunk chunks IH]; intros i Hn Hc.
  - by apply elem_of_nil in Hn.
  - cbn [parse_chunks] in Hn. cbn [concat]. apply elem_of_app.
    destruct chunk as [|a chunk]; [right; by eapply IH|].
    destruct (Nat.even i).
    + apply elem_of_cons in Hn as [->|Hn]; [by left|right; by eapply IH].
    + destruct (18 <? length (a :: chunk))%nat;
        (apply elem_of_cons in Hn as [->|Hn]; [left|right; by eapply IH]);
        [by apply discord_id_of_chars|done].
Qed.

(** X5. No node of [to_nodes] holds a line boundary of
    [str.splitlines]: the boundaries are all consumed by the split into
    lines. *)
Theorem nodes_hold_no_line_break (tbl : list str) (t : str) :
  Forall (Forall (fun n => Forall (fun c => is_linebreak c = false)
                                  (content n)))
         (to_nodes tbl t).
Proof.
  unfold to_nodes.
  pose proof (splitlines_from_no_breaks (length t) t [] (le_n _) (List.Forall_nil _))
    as Hlines.
  fold (splitlines t) in Hlines.
  induction Hlines as [|line lines Hline _ IH]; cbn [map]; constructor; [|done].
  apply Forall_forall. intros n Hn. apply Forall_forall. intros c Hc.
  rewrite Forall_forall in Hline. apply Hline.
  pose proof (parse_chunks_chars _ _ _ _ Hn Hc) as H.
  unfold EMOJI_REGEX_split in H.
  by rewrite split_from_concat in H.
Qed.

(** *** Plain lines *)

Lemma no_match_plain tbl s :
  (forall e, e ∈ tbl -> ~ e `prefix_of` s) -> head s <> Some 60%N ->
  EMOJI_REGEX_match tbl s = None \/ EMOJI_REGEX_match tbl s = Some 0%nat.
Proof.
  intros Hno Hlt. unfold EMOJI_REGEX_match, EMOJI_REGEX. cbn [rmatch].
  destruct (rmatch (_UNICODE_EMOJI_REGEX tbl) s Some) as [rest|] eqn:E.
  - apply alternation_Some in E as [[_ ->]|(e & Hin & ->)].
    + right. f_equal. lia.
    + exfalso. rewrite sorted_by_len_desc_perm in Hin.
      apply (Hno e Hin). by exists rest.
  - left. destruct (rmatch _DISCORD_EMOJI_REGEX s Some) as [rest|] eqn:D; [|done].
    exfalso. unfold _DISCORD_EMOJI_REGEX in D.
    apply rmatch_Seq_Chr in D as (s' & -> & _). by apply Hlt.
Qed.

Lemma split_from_no_match tbl s p :
  (forall k, EMOJI_REGEX_match tbl (drop k s) = None
             \/ EMOJI_REGEX_match tbl (drop k s) = Some 0%nat) ->
  split_from tbl s 0 p = [rev p ++ s].
Proof.
  revert p; induction s as [|c s IH]; intros p H.
  - simpl. by rewrite app_nil_r.
  - cbn [split_from].
    assert (Hrest : split_from tbl s 0 (c :: p) = [rev p ++ c :: s]).
    { rewrite IH; [simpl; by rewrite <- app_assoc|].
      intros k. apply (H (S k)). }
    pose proof (H 0%nat) as H0. cbn [drop] in H0.
    by destruct H0 as [-> | ->].
Qed.

Lemma parse_line_plain (tbl : list str) (line : str) :
  plain tbl line ->
  _parse_line tbl line
  = match line with [] => [] | _ :: _ => [mkNode text line] end.
Proof.
  intros [Hno Hlt]. unfold _parse_line, EMOJI_REGEX_split.
  rewrite split_from_no_match; [by destruct line|].
  intros k. apply no_match_plain; [intros e He; by apply Hno|].
  intros Hh. apply Hlt.
  rewrite head_lookup, lookup_drop, Nat.add_0_r in Hh.
  by apply (list_elem_of_lookup_2 _ k).
Qed.

(** X1. A line in which no emoji of the table occurs and that has no
    ['<'] is one text node holding the line, and no node when it is
    empty. *)
Theorem plain_line_is_one_text_node (tbl : list str) (line : str) :
  plain tbl line ->
  _parse_line tbl line
  = match line with [] => [] | _ :: _ => [mkNode text line] end.
Proof.
  apply parse_line_plain.
Qed.

Lemma plain_intro (tbl : list str) (line : str) :
  Forall (fun e => Forall (fun k => ~ e `prefix_of` drop k line)
                          (seq 0 (S (length line)))) tbl ->
  60%N ∉ line -> plain tbl line.
Proof.
  intros H Hlt. split; [|done]. intros e k He.
  rewrite Forall_forall in H. specialize (H e He). rewrite Forall_forall in H.
  destruct (decide (k <= length line)%nat) as [Hk|Hk].
  - apply H. apply elem_of_seq. lia.
  - rewrite drop_ge by lia. rewrite <- (drop_all line). apply H.
    apply elem_of_seq. lia.
Qed.

Lemma plain_line_is_one_text_node_witness :
  _parse_line examples.table (py "Hi, all!") = [mkNode text (py "Hi, all!")].
Proof.
  apply (plain_line_is_one_text_node examples.table (py "Hi, all!")).
  apply plain_intro; by_decide.
Defined.

(** *** A custom-emoji token in its context *)

Lemma parse_chunks_SS i chunks :
  parse_chunks (S (S i)) chunks = parse_chunks i chunks.
Proof.
  revert i; induction chunks as [|c chunks IH]; intros i; [done|].
  cbn [parse_chunks]. rewrite (IH (S i)). by cbn [Nat.even].
Qed.

(** The greedy repetition takes a whole run that ends where the class
    ends. *)
Lemma rep_match_greedy p lo hi pre s k r :
  Forall (fun c => p c = true) pre -> (lo <= length pre <= hi)%nat ->
  match s with c :: _ => p c = false | [] => True end ->
  k s = Some r ->
  rep_match p lo hi (pre ++ s) k = Some r.
Proof.
  intros Hall. revert lo hi. induction Hall as [|c pre Hc Hall IH];
    intros lo hi Hlen Hs Hk.
  - simpl in Hlen. assert (lo = 0%nat) as -> by lia. simpl.
    destruct hi; [done|]. cbn [rep_match]. destruct s as [|c s]; [done|].
    by rewrite Hs.
  - simpl in Hlen. destruct hi as [|hi]; [lia|]. cbn [rep_match app].
    rewrite Hc. rewrite (IH (Nat.pred lo) hi); auto. lia.
Qed.

Lemma discord_match_complete id tok post :
  wire_token id tok ->
  rmatch _DISCORD_EMOJI_REGEX (tok ++ post) Some = Some post.
Proof.
  intros (flag & name & -> & Hflag & Hname & Hnlen & Hid & Hilen).
  unfold _DISCORD_EMOJI_REGEX.
  assert (Hbody : rmatch (Seq (Chr 58) (Seq (Rep is_name_char 1 32)
                     (Seq (Chr 58) (Seq (Rep is_digit 17 22) (Chr 62)))))
                    (58%N :: name ++ 58%N :: id ++ 62%N :: post) Some
                  = Some post).
  { cbn [rmatch N.eqb Pos.eqb].
    apply rep_match_greedy; [done|done|done|].
    cbn [N.eqb Pos.eqb].
    apply rep_match_greedy; [done|done|done|]. done. }
  destruct Hflag as [-> | ->]; simpl app; rewrite <- ?app_assoc; simpl app;
    rewrite <- ?app_assoc; simpl app.
  - change (rmatch (Seq (Chr 60) ?r) (60%N :: ?s) ?k) with (rmatch r s k).
    cbn [rmatch N.eqb Pos.eqb] in *. exact Hbody.
  - cbn [rmatch N.eqb Pos.eqb] in *. by rewrite Hbody.
Qed.

Lemma wire_token_match tbl id tok post :
  wire_token id tok -> tbl <> [] ->
  (forall e, e ∈ tbl -> ~ e `prefix_of` tok ++ post) ->
  EMOJI_REGEX_match tbl (tok ++ post) = Some (length tok).
Proof.
  intros Htok Hne Hno. unfold EMOJI_REGEX_match, EMOJI_REGEX. cbn [rmatch].
  unfold _UNICODE_EMOJI_REGEX. rewrite alternation_none.
  - rewrite (discord_match_complete id) by done.
    f_equal. rewrite length_app. lia.
  - intros E. apply Hne. apply Permutation_nil_r.
    by rewrite <- E, sorted_by_len_desc_perm.
  - intros (e & He & Hp). rewrite sorted_by_len_desc_perm in He. by apply (Hno e).
Qed.

Lemma split_from_plain_prefix tbl pre s p :
  (forall k, (k < length pre)%nat ->
     EMOJI_REGEX_match tbl (drop k (pre ++ s)) = None
     \/ EMOJI_REGEX_match tbl (drop k (pre ++ s)) = Some 0%nat) ->
  split_from tbl (pre ++ s) 0 p = split_from tbl s 0 (rev pre ++ p).
Proof.
  revert p; induction pre as [|c pre IH]; intros p H; [done|].
  cbn [app split_from].
  assert (Hrest : split_from tbl (pre ++ s) 0 (c :: p)
                  = split_from tbl s 0 (rev (c :: pre) ++ p)).
  { rewrite IH; [simpl; by rewrite <- app_assoc|].
    intros k Hk. apply (H (S k)). simpl. lia. }
  pose proof (H 0%nat ltac:(simpl; lia)) as H0. cbn [drop app] in H0.
  by destruct H0 as [-> | ->].
Qed.

Lemma parse_line_token (tbl : list str) (pre tok post id : str) :
  wire_token id tok -> tbl <> [] -> 60%N ∉ pre ->
  (forall e k, e ∈ tbl -> (k <= length pre)%nat ->
               ~ e `prefix_of` drop k (pre ++ tok ++ post)) ->
  _parse_line tbl (pre ++ tok ++ post)
  = match pre with [] => [] | _ :: _ => [mkNode text pre] end
    ++ mkNode discord_emoji id :: _parse_line tbl post.
Proof.
  intros Htok Hne Hlt Hno. unfold _parse_line, EMOJI_REGEX_split.
  rewrite split_from_plain_prefix.
  - pose proof (wire_token_length _ _ Htok) as Hlen.
    destruct (length tok) as [|n] eqn:En; [lia|].
    rewrite (split_from_match tbl _ n).
    + rewrite <- En, take_app_length, drop_app_length. rewrite app_nil_r, rev_involutive.
      assert (Hd : parse_chunks 1 (tok :: split_from tbl post 0 [])
                   = mkNode discord_emoji id :: parse_chunks 0 (split_from tbl post 0 [])).
      { destruct tok as [|c tok]; [simpl in En; lia|].
        cbn [parse_chunks Nat.even]. rewrite En.
        destruct (Nat.ltb_spec 18 (S n)) as [_|?]; [|lia].
        by rewrite (wire_token_id id), parse_chunks_SS. }
      destruct pre;
        [change (parse_chunks 0 ([] :: ?l)) with (parse_chunks 1 l)
        |change (parse_chunks 0 ((?c :: ?p) :: ?l))
           with (mkNode text (c :: p) :: parse_chunks 1 l)];
        by rewrite Hd.
    + rewrite <- En. apply (wire_token_match tbl id); [done|done|].
      intros e He. specialize (Hno e (length pre) He (le_n _)).
      by rewrite drop_app_length in Hno.
  - intros k Hk. apply no_match_plain.
    + intros e He. apply Hno; [done|lia].
    + rewrite head_lookup, lookup_drop, Nat.add_0_r, lookup_app_l by done.
      intros Hh. apply Hlt. by apply (list_elem_of_lookup_2 _ k).
Qed.

(** X2. A well-formed custom-emoji token after plain text: the text
    before it is one text node (none when empty), the token is one
    custom-emoji node holding its id, whatever its name and animation
    flag, and what follows is parsed as a line of its own. *)
Theorem token_after_plain_text (tbl : list str) (pre tok post id : str) :
  wire_token id tok -> tbl <> [] -> 60%N ∉ pre ->
  (forall e k, e ∈ tbl -> (k <= length pre)%nat ->
               ~ e `prefix_of` drop k (pre ++ tok ++ post)) ->
  _parse_line tbl (pre ++ tok ++ post)
  = match pre with [] => [] | _ :: _ => [mkNode text pre] end
    ++ mkNode discord_emoji id :: _parse_line tbl post.
Proof.
  apply parse_line_token.
Qed.

Lemma no_prefix_intro (tbl : list str) (s : str) (n : nat) :
  Forall (fun e => Forall (fun k => ~ e `prefix_of` drop k s) (seq 0 (S n))) tbl ->
  forall e k, e ∈ tbl -> (k <= n)%nat -> ~ e `prefix_of` drop k s.
Proof.
  intros H e k He Hk. rewrite Forall_forall in H. specialize (H e He).
  rewrite Forall_forall in H. apply H. apply elem_of_seq. lia.
Qed.

Lemma token_after_plain_text_witness :
  _parse_line examples.table (py "Hi " ++ examples.token_foo ++ py "!")
  = [mkNode text (py "Hi ")]
    ++ mkNode discord_emoji (py "123456789012345678")
    :: _parse_line examples.table (py "!").
Proof.
  apply (token_after_plain_text examples.table (py "Hi ") examples.token_foo
           (py "!") (py "123456789012345678")).
  - exists [], (py "foo"). split_and!; [reflexivity|by left|by_decide| | |by_decide| |];
      vm_compute; lia.
  - done.
  - by_decide.
  - apply no_prefix_intro. by_decide.
Defined.

End TokenizerExtras.

(** * Further properties: lines and the multiline checks *)

Module LineExtras.
Import helpers runtime core.

Lemma no_break_not_cr c : is_linebreak c = false -> N.eqb c 13 = false.
Proof.
  unfold is_linebreak, in_range. intros H. destruct (N.eqb_spec c 13) as [->|]; done.
Qed.

Lemma splitlines_from_app_plain l s cur :
  Forall (fun c => is_linebreak c = false) l ->
  splitlines_from (l ++ s) cur = splitlines_from s (rev l ++ cur).
Proof.
  intros Hl. revert cur. induction Hl as [|c l Hc Hl IH]; intros cur; [done|].
  cbn [app splitlines_from]. rewrite (no_break_not_cr c Hc), Hc, IH.
  cbn [rev]. by rewrite <- app_assoc.
Qed.

Lemma splitlines_from_plain l :
  Forall (fun c => is_linebreak c = false) l -> l <> [] ->
  splitlines_from l [] = [l].
Proof.
  intros Hl Hne. rewrite <- (app_nil_r l) at 1.
  rewrite splitlines_from_app_plain by done. cbn [splitlines_from].
  rewrite app_nil_r. destruct (rev l) eqn:E.
  - apply (f_equal (@rev N)) in E. rewrite rev_involutive in E. done.
  - by rewrite <- E, rev_involutive.
Qed.

Lemma no_break_no_lf (l : str) :
  Forall (fun c => is_linebreak c = false) l -> 10%N ∉ l.
Proof.
  intros Hl Hin. rewrite Forall_forall in Hl. by specialize (Hl _ Hin).
Qed.

(** X25. A carriage return breaks the line but escapes the multiline
    checks.  The checks on [anchor] and [direction] look for a line feed
    only, while the text is cut at every boundary of [str.splitlines]: a
    text of two runs joined by a carriage return passes both checks with
    any two-character anchor and any direction, and is laid out as two
    lines. *)
Theorem carriage_return_escapes_multiline_checks (l1 l2 anchor : str)
    (direction : option str) :
  Forall (fun c => is_linebreak c = false) l1 ->
  Forall (fun c => is_linebreak c = false) l2 ->
  l2 <> [] -> length anchor = 2%nat ->
  splitlines (l1 ++ 13%N :: l2) = [l1; l2]
  /\ check_anchor (Some anchor) (l1 ++ 13%N :: l2) = Ok anchor
  /\ check_direction direction (l1 ++ 13%N :: l2) = Ok tt.
Proof.
  intros H1 H2 Hne Hlen.
  assert (Hlf : is_multiline (l1 ++ 13%N :: l2) = false).
  { unfold is_multiline, char_in. apply bool_decide_eq_false_2.
    intros [Hin|Hin]%elem_of_app.
    - by apply (no_break_no_lf l1).
    - apply elem_of_cons in Hin as [?|Hin]; [done|]. by apply (no_break_no_lf l2). }
  split_and!.
  - unfold splitlines. rewrite splitlines_from_app_plain by done.
    rewrite app_nil_r. cbn [splitlines_from N.eqb Pos.eqb].
    assert (Hrest : splitlines_from l2 [] = [l2])
      by (by apply splitlines_from_plain).
    rewrite rev_involutive. destruct l2 as [|d l2]; [done|].
    inversion H2 as [|? ? Hd _]; subst.
    assert (N.eqb d 10 = false) as ->.
    { destruct (N.eqb_spec d 10) as [->|]; done. }
    by rewrite Hrest.
  - unfold check_anchor. rewrite Hlen. cbn [Nat.eqb negb]. by rewrite Hlf, andb_false_r.
  - unfold check_direction. by rewrite Hlf, andb_false_r.
Qed.

Lemma carriage_return_escapes_multiline_checks_witness :
  splitlines (py "Hi" ++ 13%N :: py "all") = [py "Hi"; py "all"]
  /\ check_anchor (Some (py "lb")) (py "Hi" ++ 13%N :: py "all") = Ok (py "lb")
  /\ check_direction (Some (py "ttb")) (py "Hi" ++ 13%N :: py "all") = Ok tt.
Proof.
  apply (carriage_return_escapes_multiline_checks (py "Hi") (py "all") (py "lb")
           (Some (py "ttb"))); [by_decide|by_decide|done|done].
Defined.

End LineExtras.

(** * Further properties: the ids of custom emoji *)

Module IdExtras.
Import helpers reading runtime source TokenizerFacts.

Lemma int_of_str_bound (s : str) (n : Z) :
  Forall (fun c => is_digit c = true) s -> 0 <= n ->
  exists z,
    foldl (fun acc c =>
             match acc with
             | Some n =>
                 if (N.leb 48 c && N.leb c 57)%bool
                 then Some (10 * n + Z.of_N (c - 48))
                 else None
             | None => None
             end) (Some n) s = Some z
    /\ n * 10 ^ Z.of_nat (length s) <= z < (n + 1) * 10 ^ Z.of_nat (length s).
Proof.
  intros Hs. revert n. induction Hs as [|c s Hc Hs IH]; intros n Hn.
  - exists n. cbn. split; [done|lia].
  - cbn [foldl]. pose proof Hc as Hc'. unfold is_digit, in_range in Hc'.
    rewrite Hc'.
    apply andb_true_iff in Hc' as [H1%N.leb_le H2%N.leb_le].
    destruct (IH (10 * n + Z.of_N (c - 48))) as (z & Hz & Hb); [lia|].
    exists z. split; [done|].
    cbn [length]. rewrite Nat2Z.inj_succ, Z.pow_succ_r by lia.
    assert (0 < 10 ^ Z.of_nat (length s)) by (apply Z.pow_pos_nonneg; lia).
    assert (0 <= Z.of_N (c - 48) <= 9) by lia.
    nia.
Qed.

(** X20. The id of a custom-emoji node is a number.  When no emoji of
    the table is longer than 18 code points, the content of every
    custom-emoji node of [to_nodes] reads as a non-negative integer below
    10^22: the [int(id)] of [_get_discord_emoji] never fails on a node the
    drawer hands to it. *)
Theorem discord_node_id_is_a_number (tbl : list str) (t : str)
    (line : list Node) (n : Node) :
  Forall (fun e => (length e <= 18)%nat) tbl ->
  line ∈ to_nodes tbl t -> n ∈ line -> type n = discord_emoji ->
  exists z, builtins.int_of_str (content n) = Some z /\ 0 <= z < 10 ^ 22.
Proof.
  intros Hb Hline Hin Hty. unfold to_nodes in Hline.
  apply list_elem_of_In, in_map_iff in Hline as (l & <- & _).
  destruct (parse_line_rewrap tbl l Hb) as (toks & Hall & _).
  pose proof (discord_ids_elem n _ Hin Hty) as Hid.
  apply list_elem_of_lookup in Hid as [i Hi].
  destruct (Forall2_lookup_l _ _ _ _ _ Hall Hi) as (tok & _ & Htok).
  destruct Htok as (flag & name & _ & _ & _ & _ & Hdig & Hlen).
  destruct (int_of_str_bound (content n) 0 Hdig) as (z & Hz & Hbound); [done|].
  exists z. split.
  - unfold builtins.int_of_str. destruct (content n); [simpl in Hlen; lia|done].
  - split; [lia|].
    assert (10 ^ Z.of_nat (length (content n)) <= 10 ^ 22)
      by (apply Z.pow_le_mono_r; lia).
    lia.
Qed.

Lemma discord_node_id_is_a_number_witness :
  exists z, builtins.int_of_str (py "123456789012345678") = Some z
            /\ 0 <= z < 10 ^ 22.
Proof.
  apply (discord_node_id_is_a_number examples.table examples.two_lines
           [mkNode discord_emoji (py "123456789012345678"); mkNode text (py "!")]
           (mkNode discord_emoji (py "123456789012345678"))).
  - by_decide.
  - apply list_elem_of_In. vm_compute. tauto.
  - left.
  - reflexivity.
Defined.

Lemma str_of_int_inj (a b : Z) :
  0 <= a -> 0 <= b -> builtins.str_of_int a = builtins.str_of_int b -> a = b.
Proof.
  intros Ha Hb E. apply (f_equal builtins.int_of_str) in E.
  rewrite !SourceFacts.int_of_str_of_int in E by done. by injection E.
Qed.

Lemma os_path_join_inj (a b1 b2 : str) :
  head b1 <> Some 47%N -> head b2 <> Some 47%N ->
  os_path_join a b1 = os_path_join a b2 -> b1 = b2.
Proof.
  intros H1 H2. unfold os_path_join.
  rewrite !bool_decide_eq_false_2 by done.
  destruct (last a) as [c|]; [|done].
  destruct (N.eqb c 47); intros E; apply app_inv_head in E; congruence.
Qed.

(** X21. Custom emoji are told apart by the number of their id.  For
    ids that are not negative, two of them have the same URL, the same
    file name and the same path in the cache directory exactly when they
    are the same number. *)
Theorem discord_assets_are_keyed_by_id (dir : str) (id1 id2 : Z) :
  0 <= id1 -> 0 <= id2 ->
  (BASE_DISCORD_EMOJI_URL ++ builtins.str_of_int id1 ++ py ".png"
   = BASE_DISCORD_EMOJI_URL ++ builtins.str_of_int id2 ++ py ".png"
   <-> id1 = id2)
  /\ (discord_cache_filename id1 = discord_cache_filename id2 <-> id1 = id2)
  /\ (_discord_cache_path dir id1 = _discord_cache_path dir id2 <-> id1 = id2).
Proof.
  intros H1 H2.
  assert (Hname : discord_cache_filename id1 = discord_cache_filename id2
                  -> id1 = id2).
  { unfold discord_cache_filename. intros E.
    apply app_inv_head, app_inv_tail in E. by apply str_of_int_inj. }
  split_and!; (split; [|by intros ->]).
  - intros E. apply app_inv_head, app_inv_tail in E. by apply str_of_int_inj.
  - done.
  - unfold _discord_cache_path. intros E. apply Hname.
    apply os_path_join_inj in E; done.
Qed.

Lemma discord_assets_are_keyed_by_id_witness :
  _discord_cache_path (py "/srv/.cache") 123456789012345678
  = _discord_cache_path (py "/srv/.cache") 123456789012345679
  <-> 123456789012345678 = 123456789012345679.
Proof.
  apply (discord_assets_are_keyed_by_id (py "/srv/.cache") 123456789012345678
           123456789012345679); lia.
Defined.

End IdExtras.

(** * Further properties: URLs and cache keys *)

Module UrlExtras.
Import helpers runtime source observing.

Lemma utf8_char_bytes c :
  (c < 1114112)%N -> Forall (fun b => (b < 256)%N) (utf8_char c).
Proof.
  intros Hc. unfold utf8_char.
  destruct (N.ltb_spec c 128); [repeat constructor; lia|].
  destruct (N.ltb_spec c 2048).
  { repeat constructor.
    - assert (c / 64 < 32)%N by (apply N.Div0.div_lt_upper_bound; lia). lia.
    - assert (c mod 64 < 64)%N by (apply N.mod_lt; lia). lia. }
  destruct (N.ltb_spec c 65536).
  { repeat constructor.
    - assert (c / 4096 < 16)%N by (apply N.Div0.div_lt_upper_bound; lia). lia.
    - assert ((c / 64) mod 64 < 64)%N by (apply N.mod_lt; lia). lia.
    - assert (c mod 64 < 64)%N by (apply N.mod_lt; lia). lia. }
  repeat constructor.
  - assert (c / 262144 < 16)%N by (apply N.Div0.div_lt_upper_bound; lia). lia.
  - assert ((c / 4096) mod 64 < 64)%N by (apply N.mod_lt; lia). lia.
  - assert ((c / 64) mod 64 < 64)%N by (apply N.mod_lt; lia). lia.
  - assert (c mod 64 < 64)%N by (apply N.mod_lt; lia). lia.
Qed.

Lemma hex_digit_url n : (n < 16)%N -> is_name_char (hex_digit n) = true.
Proof.
  intros Hn. unfold hex_digit, is_name_char, in_range.
  destruct (N.ltb_spec n 10).
  - assert (H1 : N.leb 48 (48 + n) = true) by (apply N.leb_le; lia).
    assert (H2 : N.leb (48 + n) 57 = true) by (apply N.leb_le; lia).
    rewrite H1, H2. cbn. by rewrite !orb_true_r.
  - assert (H1 : N.leb 65 (55 + n) = true) by (apply N.leb_le; lia).
    assert (H2 : N.leb (55 + n) 90 = true) by (apply N.leb_le; lia).
    rewrite H1, H2. cbn. by rewrite !orb_true_r.
Qed.

Lemma quote_plus_byte_url b :
  (b < 256)%N -> Forall (fun c => url_char c = true) (quote_plus_byte b).
Proof.
  intros Hb. unfold quote_plus_byte.
  destruct (_ || _ || _ || _)%bool eqn:Hsafe.
  - repeat constructor. unfold url_char. rewrite Hsafe. done.
  - destruct (N.eqb b 32); repeat constructor.
    + unfold url_char. rewrite hex_digit_url; [done|].
      apply N.Div0.div_lt_upper_bound; lia.
    + unfold url_char. rewrite hex_digit_url; [done|].
      apply N.mod_lt; lia.
Qed.

Lemma unreserved_ascii c : unreserved c = true -> (c < 128)%N.
Proof.
  unfold unreserved, is_name_char, in_range. intros H.
  repeat (apply orb_true_iff in H as [H|H]);
    try (apply andb_true_iff in H as [_ H%N.leb_le]; lia);
    apply N.eqb_eq in H; lia.
Qed.

(** X22. What [quote_plus] puts into a URL.  Of a string of code points
    that Python can encode, it yields only ASCII letters, digits and
    [_ . - ~], the [+] that stands for a space and the [%] of an escape,
    whose two digits are upper-case hexadecimal; and a string of
    letters, digits and [_ . - ~], such as the style names of the
    sources, comes out as it went in. *)
Theorem quote_plus_is_url_safe (s : str) :
  (Forall scalar s -> Forall (fun c => url_char c = true) (quote_plus s))
  /\ (Forall (fun c => unreserved c = true) s -> quote_plus s = s).
Proof.
  split.
  - intros Hs. unfold quote_plus, utf8_encode.
    induction Hs as [|c s Hc Hs IH]; [constructor|].
    cbn [map concat]. rewrite map_app, concat_app. apply Forall_app. split; [|done].
    destruct Hc as [_ Hc]. pose proof (utf8_char_bytes c Hc) as Hb.
    induction Hb as [|b bs Hb _ IHb]; [constructor|].
    cbn [map concat]. apply Forall_app. split; [by apply quote_plus_byte_url|done].
  - intros Hs. unfold quote_plus, utf8_encode.
    induction Hs as [|c s Hc Hs IH]; [done|].
    cbn [map concat]. rewrite map_app, concat_app, IH.
    pose proof (unreserved_ascii c Hc) as Hlt.
    unfold utf8_char. rewrite (proj2 (N.ltb_lt c 128) Hlt).
    cbn [map concat app]. unfold quote_plus_byte.
    unfold unreserved in Hc. by rewrite Hc.
Qed.

Lemma quote_plus_is_url_safe_witness :
  Forall (fun c => url_char c = true) (quote_plus examples.man_zwj_woman)
  /\ quote_plus (py "twitter") = py "twitter".
Proof.
  destruct (quote_plus_is_url_safe examples.man_zwj_woman) as [H1 _].
  destruct (quote_plus_is_url_safe (py "twitter")) as [_ H2].
  split; [apply H1|apply H2].
  - repeat constructor; vm_compute; tauto.
  - by_decide.
Defined.

(** *** Reading a URL back *)

Ltac div_lia := zify; Z.to_euclidean_division_equations; lia.

Lemma concat_map_prefix_inj {A B} (f : A -> list B) (P : A -> Prop) :
  (forall a1 a2 r1 r2, P a1 -> P a2 -> f a1 ++ r1 = f a2 ++ r2 ->
                       a1 = a2 /\ r1 = r2) ->
  (forall a, P a -> f a <> []) ->
  forall l1 l2, Forall P l1 -> Forall P l2 ->
    concat (map f l1) = concat (map f l2) -> l1 = l2.
Proof.
  intros Hinj Hne l1 l2 H1. revert l2.
  induction H1 as [|a1 l1 Ha1 H1 IH]; intros l2 H2 E.
  - destruct H2 as [|a2 l2 Ha2 H2]; [done|]. cbn [map concat] in E.
    symmetry in E. apply app_eq_nil in E as [E _]. by apply Hne in E.
  - destruct H2 as [|a2 l2 Ha2 H2]; cbn [map concat] in E.
    + apply app_eq_nil in E as [E _]. by apply Hne in E.
    + apply Hinj in E as [-> E]; [|done|done]. f_equal. by apply IH.
Qed.

Lemma utf8_char_inj c1 c2 r1 r2 :
  (c1 < 1114112)%N -> (c2 < 1114112)%N ->
  utf8_char c1 ++ r1 = utf8_char c2 ++ r2 -> c1 = c2 /\ r1 = r2.
Proof.
  intros H1 H2. unfold utf8_char.
  destruct (N.ltb_spec c1 128); [|destruct (N.ltb_spec c1 2048);
    [|destruct (N.ltb_spec c1 65536)]];
  (destruct (N.ltb_spec c2 128); [|destruct (N.ltb_spec c2 2048);
    [|destruct (N.ltb_spec c2 65536)]]);
  cbn [app]; intros E; injection E; intros; subst;
  first [exfalso; div_lia | split; [div_lia|done] ].
Qed.

Lemma utf8_encode_inj (s1 s2 : str) :
  Forall scalar s1 -> Forall scalar s2 ->
  utf8_encode s1 = utf8_encode s2 -> s1 = s2.
Proof.
  intros H1 H2. unfold utf8_encode.
  apply (concat_map_prefix_inj utf8_char (fun c => (c < 1114112)%N)).
  - apply utf8_char_inj.
  - intros c _. unfold utf8_char.
    by destruct (N.ltb c 128), (N.ltb c 2048), (N.ltb c 65536).
  - eapply Forall_impl; [exact H1|]. by intros c [_ ?].
  - eapply Forall_impl; [exact H2|]. by intros c [_ ?].
Qed.

Lemma utf8_encode_bytes (s : str) :
  Forall scalar s -> Forall (fun b => (b < 256)%N) (utf8_encode s).
Proof.
  intros Hs. unfold utf8_encode. induction Hs as [|c s Hc Hs IH]; [constructor|].
  cbn [map concat]. apply Forall_app. split; [|done].
  apply utf8_char_bytes. by destruct Hc.
Qed.

Lemma hex_digit_inj n m :
  (n < 16)%N -> (m < 16)%N -> hex_digit n = hex_digit m -> n = m.
Proof.
  unfold hex_digit. intros Hn Hm.
  destruct (N.ltb_spec n 10), (N.ltb_spec m 10); lia.
Qed.

Lemma quote_plus_byte_inj b1 b2 r1 r2 :
  (b1 < 256)%N -> (b2 < 256)%N ->
  quote_plus_byte b1 ++ r1 = quote_plus_byte b2 ++ r2 -> b1 = b2 /\ r1 = r2.
Proof.
  intros H1 H2. unfold quote_plus_byte.
  fold (unreserved b1). fold (unreserved b2).
  assert (U43 : unreserved 43 = false) by reflexivity.
  assert (U37 : unreserved 37 = false) by reflexivity.
  destruct (unreserved b1) eqn:E1, (unreserved b2) eqn:E2;
    try destruct (N.eqb_spec b1 32); try destruct (N.eqb_spec b2 32);
    cbn [app]; intros E; injection E; intros; subst;
    try congruence; try done.
  assert (b1 / 16 = b2 / 16)%N
    by (apply hex_digit_inj; [apply N.Div0.div_lt_upper_bound; lia..|done]).
  assert (b1 mod 16 = b2 mod 16)%N
    by (apply hex_digit_inj; [apply N.mod_lt; lia..|done]).
  split; [|done].
  rewrite (N.div_mod b1 16), (N.div_mod b2 16) by lia. congruence.
Qed.

Lemma quote_plus_inj (s1 s2 : str) :
  Forall scalar s1 -> Forall scalar s2 -> quote_plus s1 = quote_plus s2 -> s1 = s2.
Proof.
  intros H1 H2 E. apply utf8_encode_inj; [done|done|].
  revert E. unfold quote_plus.
  apply (concat_map_prefix_inj quote_plus_byte (fun b => (b < 256)%N)).
  - apply quote_plus_byte_inj.
  - intros b _. unfold quote_plus_byte.
    by destruct (_ || _ || _ || _)%bool, (N.eqb b 32).
  - by apply utf8_encode_bytes.
  - by apply utf8_encode_bytes.
Qed.

(** X23. The request and the cache key of an emoji tell emoji apart.
    For strings of code points that Python can encode, two emoji have
    the same URL under a style exactly when they are the same string, and
    the same UTF-8 bytes, which is what the cache file name hashes,
    exactly when they are the same string. *)
Theorem emoji_requests_tell_emoji_apart (style e1 e2 : str) :
  Forall scalar e1 -> Forall scalar e2 ->
  (BASE_EMOJI_CDN_URL ++ quote_plus e1 ++ py "?style=" ++ quote_plus style
   = BASE_EMOJI_CDN_URL ++ quote_plus e2 ++ py "?style=" ++ quote_plus style
   <-> e1 = e2)
  /\ (utf8_encode e1 = utf8_encode e2 <-> e1 = e2).
Proof.
  intros H1 H2. split; (split; [|by intros ->]).
  - intros E. apply app_inv_head in E. rewrite !app_assoc in E.
    apply app_inv_tail in E. apply app_inv_tail in E. by apply quote_plus_inj.
  - by apply utf8_encode_inj.
Qed.

Lemma emoji_requests_tell_emoji_apart_witness :
  utf8_encode examples.man = utf8_encode examples.woman
  <-> examples.man = examples.woman.
Proof.
  apply (emoji_requests_tell_emoji_apart (py "twitter") examples.man
           examples.woman);
    repeat constructor; vm_compute; tauto.
Defined.

End UrlExtras.

(** * Further properties: the durable tier *)

Module SourceExtras.
Import runtime source core frame MonadFacts.

Lemma request_ok src url status body (e : Env) :
  _session src = SessionOfRenderer -> session_closed e = false ->
  network e url = HttpResponse status body -> ok status = true ->
  request src url e
  = (Ok (length (heap e)),
     set_heap (heap e ++ [mkBytesIO body 0 false]) (add_request url e)).
Proof.
  intros Hs Hc Hn Hok. unfold request. rewrite Hs. mstep. rewrite Hc. mstep.
  change (network (add_request url e) url) with (network e url).
  by rewrite Hn, Hok.
Qed.

Lemma try_request_ok src url status body (e : Env) :
  _session src = SessionOfRenderer -> session_closed e = false ->
  network e url = HttpResponse status body -> ok status = true ->
  try_except (r ← request src url; mret (Some r)) is_ClientError
    (fun exn => _ ← modify (add_critical url); raise exn) e
  = (Ok (Some (length (heap e))),
     set_heap (heap e ++ [mkBytesIO body 0 false]) (add_request url e)).
Proof.
  intros Hs Hc Hn Hok. unfold try_except.
  erewrite bind_Ok by (by eapply request_ok). by mstep.
Qed.

(** The wrapper on a miss that the wrapped source answers. *)
Lemma cached_fetch_fills path (fetch : M Env (option ref)) body (e e1 : Env) :
  disk e !! path = None ->
  fetch e = (Ok (Some (length (heap e))), e1) ->
  heap e1 = heap e ++ [mkBytesIO body 0 false] ->
  cached_fetch path fetch e
  = (Ok (Some (length (heap e))),
     set_disk (<[path := body]> (disk e1)) e1).
Proof.
  intros Hd Hf Hh. unfold cached_fetch. mstep. rewrite Hd.
  erewrite bind_Ok by exact Hf.
  assert (Hl : heap e1 !! length (heap e) = Some (mkBytesIO body 0 false)).
  { rewrite Hh. by apply list_lookup_middle. }
  assert (Hread : read heap set_heap (length (heap e)) e1
                  = (Ok body,
                     set_heap (<[length (heap e) := mkBytesIO body (length body) false]>
                                 (heap e1)) e1)).
  { unfold read, with_stream. rewrite Hl. by cbn. }
  cbn iota. erewrite bind_Ok by exact Hread. mstep.
  unfold seek0, with_stream, mbind, M_bind, bind.
  cbn [heap set_disk set_heap disk].
  rewrite list_lookup_insert_eq by (rewrite Hh, length_app; simpl; lia).
  cbn [closed getvalue]. rewrite list_insert_insert_eq.
  rewrite list_insert_id by done. destruct e1. reflexivity.
Qed.

Lemma cached_fetch_hit path (fetch : M Env (option ref)) b (e : Env) :
  disk e !! path = Some b ->
  cached_fetch path fetch e
  = (Ok (Some (length (heap e))), set_heap (heap e ++ [mkBytesIO b 0 false]) e).
Proof. intros Hd. unfold cached_fetch. mstep. by rewrite Hd. Qed.

(** X8. A miss that the CDN answers.  With the session set and open, no
    file for the key and a response below 400, the caching wrapper sends
    one GET, stores the body under the key's path, and returns a new
    stream over the body, rewound to position 0 after it was read to its
    end for the write. *)
Theorem cache_miss_writes_through (sha : bytes -> str) (dir : str)
    (src : HTTPBasedSource) (e : Env) :
  _session src = SessionOfRenderer -> session_closed e = false ->
  (forall emoji style status body,
     STYLE src = Some style ->
     disk e !! _emoji_cache_path sha dir src emoji = None ->
     network e (BASE_EMOJI_CDN_URL ++ quote_plus emoji ++ py "?style="
                ++ quote_plus style) = HttpResponse status body ->
     ok status = true ->
     CachedHTTPBasedSource_get_emoji sha dir src emoji e
     = (Ok (Some (length (heap e))),
        mkEnv (heap e ++ [mkBytesIO body 0 false])
              (<[_emoji_cache_path sha dir src emoji := body]> (disk e))
              (network e)
              ((BASE_EMOJI_CDN_URL ++ quote_plus emoji ++ py "?style="
                ++ quote_plus style) :: requests e)
              (critical_log e) false))
  /\ (forall id status body,
        disk e !! _discord_cache_path dir id = None ->
        network e (BASE_DISCORD_EMOJI_URL ++ builtins.str_of_int id ++ py ".png")
        = HttpResponse status body ->
        ok status = true ->
        CachedHTTPBasedSource_get_discord_emoji dir src id e
        = (Ok (Some (length (heap e))),
           mkEnv (heap e ++ [mkBytesIO body 0 false])
                 (<[_discord_cache_path dir id := body]> (disk e))
                 (network e)
                 ((BASE_DISCORD_EMOJI_URL ++ builtins.str_of_int id ++ py ".png")
                  :: requests e)
                 (critical_log e) false)).
Proof.
  intros Hs Hc. split.
  - intros emoji style status body Hst Hd Hn Hok.
    unfold CachedHTTPBasedSource_get_emoji.
    pose proof (try_request_ok src _ status body e Hs Hc Hn Hok) as Hf.
    erewrite (cached_fetch_fills _ _ body e _ Hd);
      [|unfold EmojiCDNSource_get_emoji; rewrite Hst; exact Hf|reflexivity].
    unfold set_disk, set_heap, add_request. cbn. by rewrite Hc.
  - intros id status body Hd Hn Hok.
    unfold CachedHTTPBasedSource_get_discord_emoji.
    pose proof (try_request_ok src _ status body e Hs Hc Hn Hok) as Hf.
    erewrite (cached_fetch_fills _ _ body e _ Hd);
      [|unfold DiscordEmojiSourceMixin_get_discord_emoji; exact Hf|reflexivity].
    unfold set_disk, set_heap, add_request. cbn. by rewrite Hc.
Qed.

Lemma cache_miss_writes_through_witness :
  CachedHTTPBasedSource_get_emoji examples.stub_digest (py "/srv/.cache")
    (mkHTTP (py "TwitterEmojiSource") (Some (py "twitter")) SessionOfRenderer)
    examples.grinning (env (examples.entered examples.net_ok))
  = (Ok (Some 0%nat),
     mkEnv [mkBytesIO examples.png 0 false]
           {[ py "/srv/.cache/TwitterEmojiSource_"
              ++ examples.stub_digest (utf8_encode examples.grinning)
              ++ py ".png" := examples.png ]}
           examples.net_ok
           [py "https://emojicdn.elk.sh/%F0%9F%98%80?style=twitter"] [] false).
Proof.
  destruct (cache_miss_writes_through examples.stub_digest (py "/srv/.cache")
              (mkHTTP (py "TwitterEmojiSource") (Some (py "twitter"))
                      SessionOfRenderer)
              (env (examples.entered examples.net_ok))) as [H _].
  - reflexivity.
  - reflexivity.
  - apply (H examples.grinning (py "twitter") 200 examples.png); reflexivity.
Defined.

(** X9. A file of the durable tier is served without the network: when
    the path of the key exists, the wrapper returns a new stream over
    the file's bytes at position 0 and does nothing else, whatever the
    wrapped source is: no session is needed, none is used, no GET is
    sent, nothing is logged, and two calls give two streams. *)
Theorem cached_file_is_served_offline (sha : bytes -> str) (dir : str)
    (src : HTTPBasedSource) (e : Env) :
  (forall emoji b,
     disk e !! _emoji_cache_path sha dir src emoji = Some b ->
     CachedHTTPBasedSource_get_emoji sha dir src emoji e
     = (Ok (Some (length (heap e))),
        set_heap (heap e ++ [mkBytesIO b 0 false]) e)
     /\ CachedHTTPBasedSource_get_emoji sha dir src emoji
          (set_heap (heap e ++ [mkBytesIO b 0 false]) e)
        = (Ok (Some (S (length (heap e)))),
           set_heap (heap e ++ [mkBytesIO b 0 false; mkBytesIO b 0 false]) e))
  /\ (forall id b,
        disk e !! _discord_cache_path dir id = Some b ->
        CachedHTTPBasedSource_get_discord_emoji dir src id e
        = (Ok (Some (length (heap e))),
           set_heap (heap e ++ [mkBytesIO b 0 false]) e)
        /\ CachedHTTPBasedSource_get_discord_emoji dir src id
             (set_heap (heap e ++ [mkBytesIO b 0 false]) e)
           = (Ok (Some (S (length (heap e)))),
              set_heap (heap e ++ [mkBytesIO b 0 false; mkBytesIO b 0 false]) e)).
Proof.
  assert (Hsecond : forall path fetch b, disk e !! path = Some b ->
    cached_fetch path fetch (set_heap (heap e ++ [mkBytesIO b 0 false]) e)
    = (Ok (Some (S (length (heap e)))),
       set_heap (heap e ++ [mkBytesIO b 0 false; mkBytesIO b 0 false]) e)).
  { intros path fetch b Hd. rewrite (cached_fetch_hit _ _ b) by done.
    cbn [heap set_heap]. rewrite length_app, <- app_assoc. cbn [length app].
    by rewrite Nat.add_1_r. }
  split.
  - intros emoji b Hd. split; [by apply cached_fetch_hit|by apply Hsecond].
  - intros id b Hd. split; [by apply cached_fetch_hit|by apply Hsecond].
Qed.

(** X10. A miss that the network fails.  With the session set and open
    and no file for the key, the wrapper sends one GET and raises what
    the wrapped source raises; it writes no file and allocates no stream.
    A status of 400 or more and a transport fault are logged as critical
    before they are raised again; a timeout is not a [ClientError] and
    passes unlogged. *)
Theorem cache_miss_failure_writes_nothing (sha : bytes -> str) (dir : str)
    (src : HTTPBasedSource) (style : str) (emoji : str) (e : Env) :
  _session src = SessionOfRenderer -> session_closed e = false ->
  STYLE src = Some style ->
  disk e !! _emoji_cache_path sha dir src emoji = None ->
  failing (network e (BASE_EMOJI_CDN_URL ++ quote_plus emoji ++ py "?style="
                      ++ quote_plus style)) ->
  let url := BASE_EMOJI_CDN_URL ++ quote_plus emoji ++ py "?style="
             ++ quote_plus style in
  CachedHTTPBasedSource_get_emoji sha dir src emoji e
  = match network e url with
    | HttpResponse _ _ => (Raise ClientError, add_critical url (add_request url e))
    | Fault => (Raise ClientConnectionError, add_critical url (add_request url e))
    | TimedOut => (Raise TimeoutError, add_request url e)
    end.
Proof.
  intros Hs Hc Hst Hd Hf url. unfold CachedHTTPBasedSource_get_emoji.
  fold url in Hf.
  assert (Hreq : EmojiCDNSource_get_emoji src emoji e
                 = match network e url with
                   | HttpResponse _ _ =>
                       (Raise ClientError, add_critical url (add_request url e))
                   | Fault =>
                       (Raise ClientConnectionError,
                        add_critical url (add_request url e))
                   | TimedOut => (Raise TimeoutError, add_request url e)
                   end).
  { unfold EmojiCDNSource_get_emoji. rewrite Hst. fold url.
    unfold try_except, request. rewrite Hs. unfold mbind, M_bind, bind, gets, modify.
    rewrite Hc. cbn [add_request network].
    destruct (network e url) as [status body| |]; cbn in Hf |- *;
      [by rewrite Hf|done|done]. }
  destruct (network e url) as [status body| |];
    by apply DrawFacts.cached_fetch_fails.
Qed.

Lemma cache_miss_failure_writes_nothing_witness :
  CachedHTTPBasedSource_get_emoji examples.stub_digest (py "/srv/.cache")
    (mkHTTP (py "TwitterEmojiSource") (Some (py "twitter")) SessionOfRenderer)
    examples.grinning (env (examples.entered examples.net_timeout))
  = (Raise TimeoutError,
     add_request (py "https://emojicdn.elk.sh/%F0%9F%98%80?style=twitter")
                 (env (examples.entered examples.net_timeout))).
Proof.
  apply (cache_miss_failure_writes_nothing examples.stub_digest (py "/srv/.cache")
           (mkHTTP (py "TwitterEmojiSource") (Some (py "twitter"))
                   SessionOfRenderer)
           (py "twitter") examples.grinning
           (env (examples.entered examples.net_timeout)));
    reflexivity || exact I.
Defined.

End SourceExtras.

(** * Further properties: the life of a renderer *)

Module SessionExtras.
Import runtime source core frame frame_canvas outcomes MonadFacts.

Lemma for_each_close_all l (w : World) :
  for_each l (close_stream w_heap w_set_heap) w
  = (Ok tt, w_set_heap (close_all l (w_heap w)) w).
Proof.
  revert w; induction l as [|r l IH]; intros w.
  - cbn. by destruct w as [m [] cv].
  - cbn [for_each]. unfold bind, close_stream at 1, modify.
    rewrite IH. by destruct w as [m [] cv].
Qed.

Lemma close_all_lookup l h r :
  close_all l h !! r
  = if bool_decide (r ∈ l)
    then (fun b => mkBytesIO (getvalue b) (tell b) true) <$> h !! r
    else h !! r.
Proof.
  revert h; induction l as [|r' l IH]; intros h; [done|].
  change (close_all (r' :: l) h)
    with (close_all l (alter (fun b => mkBytesIO (getvalue b) (tell b) true) r' h)).
  rewrite IH.
  destruct (decide (r = r')) as [->|Hne].
  - rewrite (bool_decide_eq_true_2 (r' ∈ r' :: l)) by left.
    rewrite list_lookup_alter_eq.
    destruct (bool_decide (r' ∈ l)); destruct (h !! r'); done.
  - rewrite list_lookup_alter_ne by done.
    destruct (decide (r ∈ l)) as [Hin|Hin].
    + rewrite !bool_decide_eq_true_2; [done|by right|done].
    + rewrite !bool_decide_eq_false_2; [done| |done].
      intros [?|?]%elem_of_cons; done.
Qed.

Lemma close_Ok (w : World) :
  _closed (main w) = false -> _new_draw (main w) = false ->
  session_of (source (main w)) <> Some SessionUnset ->
  close w = (Ok tt, closed_world w).
Proof.
  intros Hcl Hnd Hs. unfold close. mstep. rewrite Hcl, Hnd. mstep.
  assert (Hrest : forall w0 : World,
    main w0 = main w ->
    (_ ← (if _cache (main w)
          then
            _ ← for_each (map_to_list (_emoji_cache (main w))).*2
                         (close_stream w_heap w_set_heap);
            _ ← for_each (map_to_list (_discord_emoji_cache (main w))).*2
                         (close_stream w_heap w_set_heap);
            modify (fun w => set_main (set_discord_emoji_cache ∅
                                         (set_emoji_cache ∅ (main w))) w)
          else mret tt);
     modify (fun w => set_main (set_closed true (main w)) w)) w0
    = (Ok tt,
       mkWorld
         (set_closed true
            (if _cache (main w)
             then set_discord_emoji_cache ∅ (set_emoji_cache ∅ (main w))
             else main w))
         (set_heap
            (if _cache (main w)
             then close_all (map_to_list (_discord_emoji_cache (main w))).*2
                    (close_all (map_to_list (_emoji_cache (main w))).*2
                               (heap (env w0)))
             else heap (env w0))
            (env w0))
         (canvas w0))).
  { intros w0 Hm. destruct (_cache (main w)) eqn:Hc.
    - erewrite bind_Ok; [|erewrite bind_Ok by apply for_each_close_all;
                           erewrite bind_Ok by apply for_each_close_all;
                           reflexivity].
      mstep. unfold modify. cbn. rewrite Hm. reflexivity.
    - mstep. unfold modify. cbn. rewrite Hm.
      destruct w0 as [m0 [] cv0]. reflexivity. }
  unfold closed_world.
  destruct (session_of (source (main w))) as [[|]|] eqn:Hse; mstep;
    [done|by rewrite Hrest|by rewrite Hrest].
Qed.

Lemma close_run (w w' : World) :
  close w = (Ok tt, w') ->
  _closed (main w) = false
  /\ session_of (source (main w)) <> Some SessionUnset
  /\ w' = closed_world w.
Proof.
  intros H.
  assert (Hcl : _closed (main w) = false).
  { revert H. unfold close. mstep. by destruct (_closed (main w)). }
  assert (Hnd : _new_draw (main w) = false).
  { revert H. unfold close. mstep. rewrite Hcl.
    by destruct (_new_draw (main w)). }
  assert (Hs : session_of (source (main w)) <> Some SessionUnset).
  { revert H. unfold close. mstep. rewrite Hcl, Hnd. mstep.
    by destruct (session_of (source (main w))) as [[|]|]. }
  rewrite close_Ok in H by done. by injection H as <-.
Qed.

Lemma cached_fetch_hit_env path (fetch : M Env (option ref)) b (e : Env) :
  disk e !! path = Some b ->
  cached_fetch path fetch e
  = (Ok (Some (length (heap e))), set_heap (heap e ++ [mkBytesIO b 0 false]) e).
Proof. intros Hd. unfold cached_fetch. mstep. by rewrite Hd. Qed.

Lemma elem_of_values `{Countable K} (m : gmap K ref) r :
  r ∈ (map_to_list m).*2 <-> exists k, m !! k = Some r.
Proof.
  rewrite list_elem_of_fmap. split.
  - intros ([k r'] & -> & Hin). exists k. by apply elem_of_map_to_list.
  - intros [k Hk]. exists (k, r). split; [done|]. by apply elem_of_map_to_list.
Qed.

Lemma closed_world_heap (w : World) r :
  _cache (main w) = true ->
  heap (env (closed_world w)) !! r
  = if bool_decide (r ∈ (map_to_list (_emoji_cache (main w))).*2
                    \/ r ∈ (map_to_list (_discord_emoji_cache (main w))).*2)
    then (fun b => mkBytesIO (getvalue b) (tell b) true) <$> heap (env w) !! r
    else heap (env w) !! r.
Proof.
  intros Hc. unfold closed_world. rewrite Hc. cbn [env heap set_heap].
  rewrite !close_all_lookup.
  destruct (decide (r ∈ (map_to_list (_emoji_cache (main w))).*2)) as [H1|H1];
    destruct (decide (r ∈ (map_to_list (_discord_emoji_cache (main w))).*2))
      as [H2|H2].
  - rewrite !bool_decide_eq_true_2 by tauto.
    by destruct (heap (env w) !! r).
  - rewrite (bool_decide_eq_true_2 _ H1), (bool_decide_eq_false_2 _ H2).
    by rewrite bool_decide_eq_true_2 by tauto.
  - rewrite (bool_decide_eq_false_2 _ H1), (bool_decide_eq_true_2 _ H2).
    by rewrite bool_decide_eq_true_2 by tauto.
  - rewrite (bool_decide_eq_false_2 _ H1), (bool_decide_eq_false_2 _ H2).
    by rewrite bool_decide_eq_false_2 by tauto.
Qed.

(** X11. A [close()] that returns closes, when caching is on, exactly
    the streams the two memory caches hold: each keeps its bytes and its
    position and is closed, so that a caller who still holds one gets a
    ValueError from its next [seek]; every other stream is left as it
    was.  With caching off no stream is closed. *)
Theorem close_closes_the_cached_streams (w w' : World) :
  close w = (Ok tt, w') ->
  (_cache (main w) = true ->
   (forall r b, cached_stream (main w) r -> heap (env w) !! r = Some b ->
      heap (env w') !! r = Some (mkBytesIO (getvalue b) (tell b) true)
      /\ seek0 w_heap w_set_heap r w'
         = (Raise (ValueError "I/O operation on closed file."), w'))
   /\ (forall r, ~ cached_stream (main w) r ->
         heap (env w') !! r = heap (env w) !! r))
  /\ (_cache (main w) = false -> heap (env w') = heap (env w)).
Proof.
  intros (_ & _ & ->)%close_run. split.
  - intros Hc. split.
    + intros r b Hr Hb.
      assert (Hl : heap (env (closed_world w)) !! r
                   = Some (mkBytesIO (getvalue b) (tell b) true)).
      { rewrite closed_world_heap by done. rewrite bool_decide_eq_true_2.
        - by rewrite Hb.
        - destruct Hr as [Hr|Hr]; [left|right]; by apply elem_of_values. }
      split; [done|]. unfold seek0, with_stream, w_heap. by rewrite Hl.
    + intros r Hr. rewrite closed_world_heap by done.
      rewrite bool_decide_eq_false_2; [done|].
      intros [Hin|Hin]; apply elem_of_values in Hin; apply Hr; [by left|by right].
  - intros Hc. unfold closed_world. rewrite Hc. by destruct (session_of _) as [[]|].
Qed.

Lemma close_closes_the_cached_streams_witness :
  heap (env (close examples.warmed).2) !! 0%nat
  = Some (mkBytesIO examples.png 0 true)
  /\ seek0 w_heap w_set_heap 0%nat (close examples.warmed).2
     = (Raise (ValueError "I/O operation on closed file."),
        (close examples.warmed).2).
Proof.
  destruct (close_closes_the_cached_streams examples.warmed
              (close examples.warmed).2) as [H _]; [reflexivity|].
  destruct (H eq_refl) as [Hin _].
  apply (Hin 0%nat (mkBytesIO examples.png 0 false)); [|reflexivity].
  left. exists examples.grinning. reflexivity.
Defined.

Lemma request_without_session src url (e : Env) :
  _session src = SessionUnset -> request src url e = (Raise AssertionError, e).
Proof. intros Hs. unfold request. by rewrite Hs. Qed.

Lemma get_emoji_without_session sha dir src emoji (e : Env) :
  _session src = SessionUnset -> is_Some (STYLE src) ->
  disk e !! _emoji_cache_path sha dir src emoji = None ->
  get_emoji sha dir (CachedHTTPBasedSource src) emoji e
  = (Raise AssertionError, e).
Proof.
  intros Hs [style Hst] Hd. cbn [get_emoji].
  apply DrawFacts.cached_fetch_fails; [done|].
  unfold EmojiCDNSource_get_emoji. rewrite Hst. unfold try_except.
  erewrite bind_Raise by (by apply request_without_session). done.
Qed.

Lemma get_discord_emoji_without_session dir src id (e : Env) :
  _session src = SessionUnset ->
  disk e !! _discord_cache_path dir id = None ->
  get_discord_emoji dir (CachedHTTPBasedSource src) id e
  = (Raise AssertionError, e).
Proof.
  intros Hs Hd. cbn [get_discord_emoji].
  apply DrawFacts.cached_fetch_fails; [done|].
  unfold DiscordEmojiSourceMixin_get_discord_emoji, try_except.
  erewrite bind_Raise by (by apply request_without_session). done.
Qed.

(** X12. A renderer built over a source that is already wrapped in
    [CachedHTTPBasedSource] never gets a session: [__aenter__] looks for
    an [HTTPBasedSource], which the wrapper is not, and changes nothing.
    From then on every key that has no file raises AssertionError before
    anything is sent, and [close()], which finds a [_session] attribute
    that is [None], raises AttributeError and leaves the renderer open:
    so does the exit of [async with]. *)
Theorem prewrapped_source_gets_no_session (ext : Externals)
    (src : HTTPBasedSource) (cache render : bool) (scale : Q) (offset : Z * Z)
    (files : gmap str bytes) (net : str -> Response) :
  _session src = SessionUnset ->
  let w := new_world (PilmojiMain_init (CachedHTTPBasedSource src) cache render
                                       scale offset) files net in
  __aenter__ w = (Ok tt, w)
  /\ __aexit__ w = (Raise AttributeError, w)
  /\ (forall emoji,
        is_Some (STYLE src) ->
        files !! _emoji_cache_path (sha256_hexdigest ext) (CACHE_DIR ext) src emoji
        = None ->
        _get_emoji ext emoji w = (Raise AssertionError, w))
  /\ (forall id n,
        builtins.int_of_str id = Some n ->
        files !! _discord_cache_path (CACHE_DIR ext) n = None ->
        _get_discord_emoji ext id w = (Raise AssertionError, w)).
Proof.
  intros Hs w. split_and!.
  - done.
  - unfold __aexit__, close. mstep. cbn. by rewrite Hs.
  - intros emoji Hst Hd. unfold _get_emoji. mstep.
    assert ((if _cache (main w) then _emoji_cache (main w) !! emoji else None)
            = None) as -> by (cbn; by destruct cache).
    apply bind_Raise. unfold in_env, zoom.
    change (source (main w)) with (CachedHTTPBasedSource src).
    by rewrite get_emoji_without_session.
  - intros id n Hn Hd. unfold _get_discord_emoji. rewrite Hn. mstep.
    assert ((if _cache (main w) then _discord_emoji_cache (main w) !! n else None)
            = None) as -> by (cbn; by destruct cache).
    apply bind_Raise. unfold in_env, zoom.
    change (source (main w)) with (CachedHTTPBasedSource src).
    by rewrite get_discord_emoji_without_session.
Qed.

Lemma prewrapped_source_gets_no_session_witness :
  let w := new_world (PilmojiMain_init (CachedHTTPBasedSource Twemoji) true true
                                       1 (0, 0)) ∅ examples.net_ok in
  __aexit__ (__aenter__ w).2 = (Raise AttributeError, w)
  /\ _get_emoji examples.ext examples.grinning (__aenter__ w).2
     = (Raise AssertionError, w).
Proof.
  destruct (prewrapped_source_gets_no_session examples.ext Twemoji true true 1
              (0, 0) ∅ examples.net_ok) as (He & Hx & Hg & _); [reflexivity|].
  split; [exact Hx|]. apply Hg; [by eexists|reflexivity].
Defined.

(** X13. The renderer over an HTTP source can be closed only after it
    was entered.  As constructed, the source has no session and
    [close()] raises AttributeError, leaving everything as it was;
    [__aenter__] hands the session to the source and wraps the source in
    the caching wrapper, and a [close()] after it returns, with the
    session closed and the renderer marked closed. *)
Theorem close_needs_an_entered_session (src : HTTPBasedSource)
    (cache render : bool) (scale : Q) (offset : Z * Z)
    (files : gmap str bytes) (net : str -> Response) :
  _session src = SessionUnset ->
  let w := new_world (PilmojiMain_init (Http src) cache render scale offset)
                     files net in
  close w = (Raise AttributeError, w)
  /\ source (main (__aenter__ w).2)
     = CachedHTTPBasedSource (mkHTTP (class_name src) (STYLE src) SessionOfRenderer)
  /\ exists w',
       close (__aenter__ w).2 = (Ok tt, w')
       /\ _closed (main w') = true
       /\ session_closed (env w') = true
       /\ disk (env w') = files.
Proof.
  intros Hs w. split_and!.
  - unfold close. mstep. cbn. by rewrite Hs.
  - done.
  - exists (closed_world (__aenter__ w).2). split; [|split_and!].
    + by apply close_Ok.
    + done.
    + done.
    + by destruct cache.
Qed.

Lemma close_needs_an_entered_session_witness :
  close (new_world (PilmojiMain_init (Http Twemoji) true true 1 (0, 0)) ∅
                   examples.net_ok)
  = (Raise AttributeError,
     new_world (PilmojiMain_init (Http Twemoji) true true 1 (0, 0)) ∅
               examples.net_ok).
Proof.
  destruct (close_needs_an_entered_session Twemoji true true 1 (0, 0) ∅
              examples.net_ok) as [H _]; [reflexivity|exact H].
Defined.

(** X14. Closing does not stop the getters, which never look at the
    closed flag.  After a [close()] that returned, on a renderer over the
    caching wrapper: a key that has a file is still served, by a new open
    stream, which with caching on goes into the emptied memory cache of
    the closed renderer; a key that has no file raises RuntimeError, the
    session being closed, and no GET is sent. *)
Theorem closed_renderer_still_serves_files (ext : Externals)
    (src : HTTPBasedSource) (w0 w : World) (emoji : str) :
  close w0 = (Ok tt, w) ->
  source (main w0) = CachedHTTPBasedSource src ->
  (forall b,
     disk (env w0) !! _emoji_cache_path (sha256_hexdigest ext) (CACHE_DIR ext)
                        src emoji = Some b ->
     exists w1,
       _get_emoji ext emoji w = (Ok (Some (length (heap (env w)))), w1)
       /\ heap (env w1) = heap (env w) ++ [mkBytesIO b 0 false]
       /\ _closed (main w1) = true
       /\ (_cache (main w0) = true ->
           _emoji_cache (main w1) = {[ emoji := length (heap (env w)) ]}))
  /\ (is_Some (STYLE src) ->
      disk (env w0) !! _emoji_cache_path (sha256_hexdigest ext) (CACHE_DIR ext)
                         src emoji = None ->
      _get_emoji ext emoji w = (Raise RuntimeError, w)).
Proof.
  intros (Hcl & Hs & ->)%close_run Hsrc.
  assert (Hsess : _session src = SessionOfRenderer).
  { rewrite Hsrc in Hs. cbn in Hs. destruct (_session src); done. }
  set (w := closed_world w0).
  assert (Hmain : source (main w) = CachedHTTPBasedSource src).
  { unfold w, closed_world. cbn. by destruct (_cache (main w0)). }
  assert (Hflag : _cache (main w) = _cache (main w0)).
  { unfold w, closed_world. cbn. by destruct (_cache (main w0)) eqn:E. }
  assert (Hmem : (if _cache (main w) then _emoji_cache (main w) !! emoji else None)
                 = None).
  { unfold w, closed_world. cbn.
    destruct (_cache (main w0)) eqn:E; cbn; rewrite ?E; done. }
  assert (Hdisk : disk (env w) = disk (env w0)).
  { unfold w, closed_world. cbn. rewrite Hsrc. cbn. by rewrite Hsess. }
  assert (Hsc : session_closed (env w) = true).
  { unfold w, closed_world. cbn. rewrite Hsrc. cbn. by rewrite Hsess. }
  split.
  - intros b Hb. unfold _get_emoji. mstep. rewrite Hmem, Hmain.
    assert (Hget : in_env (get_emoji (sha256_hexdigest ext) (CACHE_DIR ext)
                             (CachedHTTPBasedSource src) emoji) w
                   = (Ok (Some (length (heap (env w)))),
                      set_env (set_heap (heap (env w) ++ [mkBytesIO b 0 false])
                                        (env w)) w)).
    { unfold in_env, zoom. cbn [get_emoji].
      unfold CachedHTTPBasedSource_get_emoji.
      by rewrite (cached_fetch_hit_env _ _ b) by (by rewrite Hdisk). }
    erewrite bind_Ok by exact Hget. cbn iota.
    assert (Hl : forall w2 : World,
              heap (env w2) = heap (env w) ++ [mkBytesIO b 0 false] ->
              seek0 w_heap w_set_heap (length (heap (env w))) w2 = (Ok tt, w2)).
    { intros w2 Hh.
      assert (Hlk : heap (env w2) !! length (heap (env w))
                    = Some (mkBytesIO b 0 false)).
      { rewrite Hh. by apply list_lookup_middle. }
      unfold seek0, with_stream, w_heap. rewrite Hlk. cbn [closed getvalue].
      rewrite list_insert_id by done. by destruct w2 as [m2 [] cv2]. }
    destruct (_cache (main w)) eqn:Hc; mstep.
    + erewrite bind_Ok by (by apply Hl). mstep.
      eexists. split; [reflexivity|].
      split_and!; [done|done|]. intros _. cbn. rewrite <- Hflag. cbn.
      by rewrite insert_empty.
    + erewrite bind_Ok by (by apply Hl). mstep.
      eexists. split; [reflexivity|].
      split_and!; [done|done|]. intros Hc0. congruence.
  - intros [style Hst] Hd. unfold _get_emoji. mstep. rewrite Hmem, Hmain.
    apply bind_Raise. unfold in_env, zoom. cbn [get_emoji].
    unfold CachedHTTPBasedSource_get_emoji.
    rewrite (DrawFacts.cached_fetch_fails _ _ (env w) (env w) RuntimeError).
    + by destruct w as [m [] cv].
    + by rewrite Hdisk.
    + unfold EmojiCDNSource_get_emoji. rewrite Hst. unfold try_except, request.
      rewrite Hsess. unfold mbind, M_bind, bind, gets. by rewrite Hsc.
Qed.

Lemma closed_renderer_still_serves_files_witness :
  exists w1,
    _get_emoji examples.ext examples.grinning (close examples.warmed).2
    = (Ok (Some (length (heap (env (close examples.warmed).2)))), w1)
    /\ heap (env w1)
       = heap (env (close examples.warmed).2) ++ [mkBytesIO examples.png 0 false]
    /\ _closed (main w1) = true
    /\ (_cache (main examples.warmed) = true ->
        _emoji_cache (main w1)
        = {[ examples.grinning := length (heap (env (close examples.warmed).2)) ]}).
Proof.
  destruct (closed_renderer_still_serves_files examples.ext
              (mkHTTP (py "TwitterEmojiSource") (Some (py "twitter"))
                      SessionOfRenderer)
              examples.warmed (close examples.warmed).2 examples.grinning)
    as [H _]; [reflexivity|reflexivity|].
  apply (H examples.png). reflexivity.
Defined.

Lemma seek0_Ok (w w' : World) r :
  seek0 w_heap w_set_heap r w = (Ok tt, w') ->
  main w' = main w
  /\ exists b, heap (env w) !! r = Some b /\ closed b = false
       /\ heap (env w') !! r = Some (mkBytesIO (getvalue b) 0 false).
Proof.
  unfold seek0, with_stream, w_heap.
  destruct (heap (env w) !! r) as [b|] eqn:Hb; [|done].
  destruct (closed b) eqn:Hc; [done|]. intros [= <-]. split; [done|].
  exists b. split_and!; [done|done|]. cbn.
  apply list_lookup_insert_eq. by eapply lookup_lt_Some.
Qed.

Lemma get_emoji_post (ext : Externals) (w w' : World) emoji r :
  _get_emoji ext emoji w = (Ok (Some r), w') ->
  (exists b, heap (env w') !! r = Some b /\ closed b = false /\ tell b = 0%nat)
  /\ (_cache (main w) = true -> _emoji_cache (main w') !! emoji = Some r).
Proof.
  unfold _get_emoji. mstep.
  destruct (if _cache (main w) then _emoji_cache (main w) !! emoji else None)
    as [entry|] eqn:Hmem.
  - unfold mbind, M_bind, bind.
    destruct (seek0 w_heap w_set_heap entry w) as [[[]|e] w1] eqn:Hseek; [|done].
    intros [= <- <-]. apply seek0_Ok in Hseek as (Hm & b & _ & _ & Hb).
    split; [by eexists|]. intros Hc. rewrite Hc in Hmem. by rewrite Hm.
  - unfold mbind, M_bind, bind.
    destruct (in_env _ w) as [[[r1|]|e] w1] eqn:Hget; [|done|done].
    destruct (_cache (main w)) eqn:Hc.
    + unfold modify.
      destruct (seek0 w_heap w_set_heap r1 _) as [[[]|e] w2] eqn:Hseek; [|done].
      intros [= <- <-]. apply seek0_Ok in Hseek as (Hm & b & _ & _ & Hb).
      split; [by eexists|]. intros _. rewrite Hm. cbn.
      by rewrite lookup_insert_eq.
    + cbn.
      destruct (seek0 w_heap w_set_heap r1 _) as [[[]|e] w2] eqn:Hseek; [|done].
      intros [= <- <-]. apply seek0_Ok in Hseek as (Hm & b & _ & _ & Hb).
      split; [by eexists|]. done.
Qed.

Lemma get_discord_emoji_post (ext : Externals) (w w' : World) id n r :
  builtins.int_of_str id = Some n ->
  _get_discord_emoji ext id w = (Ok (Some r), w') ->
  (exists b, heap (env w') !! r = Some b /\ closed b = false /\ tell b = 0%nat)
  /\ (_cache (main w) = true -> _discord_emoji_cache (main w') !! n = Some r).
Proof.
  intros Hn. unfold _get_discord_emoji. rewrite Hn. mstep.
  destruct (if _cache (main w) then _discord_emoji_cache (main w) !! n else None)
    as [entry|] eqn:Hmem.
  - unfold mbind, M_bind, bind.
    destruct (seek0 w_heap w_set_heap entry w) as [[[]|e] w1] eqn:Hseek; [|done].
    intros [= <- <-]. apply seek0_Ok in Hseek as (Hm & b & _ & _ & Hb).
    split; [by eexists|]. intros Hc. rewrite Hc in Hmem. by rewrite Hm.
  - unfold mbind, M_bind, bind.
    destruct (in_env _ w) as [[[r1|]|e] w1] eqn:Hget; [|done|done].
    destruct (_cache (main w)) eqn:Hc.
    + unfold modify.
      destruct (seek0 w_heap w_set_heap r1 _) as [[[]|e] w2] eqn:Hseek; [|done].
      intros [= <- <-]. apply seek0_Ok in Hseek as (Hm & b & _ & _ & Hb).
      split; [by eexists|]. intros _. rewrite Hm. cbn.
      by rewrite lookup_insert_eq.
    + cbn.
      destruct (seek0 w_heap w_set_heap r1 _) as [[[]|e] w2] eqn:Hseek; [|done].
      intros [= <- <-]. apply seek0_Ok in Hseek as (Hm & b & _ & _ & Hb).
      split; [by eexists|]. done.
Qed.

(** X15. What the two getters hand out.  Whenever [_get_emoji] or
    [_get_discord_emoji] returns a stream, from the memory cache, from a
    file or from the network, the stream is open and at position 0, and
    with caching on the memory cache of the renderer maps the key to
    that very stream. *)
Theorem getters_hand_out_rewound_streams (ext : Externals) (w : World) :
  (forall emoji r w',
     _get_emoji ext emoji w = (Ok (Some r), w') ->
     (exists b, heap (env w') !! r = Some b /\ closed b = false /\ tell b = 0%nat)
     /\ (_cache (main w) = true -> _emoji_cache (main w') !! emoji = Some r))
  /\ (forall id n r w',
        builtins.int_of_str id = Some n ->
        _get_discord_emoji ext id w = (Ok (Some r), w') ->
        (exists b, heap (env w') !! r = Some b /\ closed b = false
                   /\ tell b = 0%nat)
        /\ (_cache (main w) = true ->
            _discord_emoji_cache (main w') !! n = Some r)).
Proof.
  split.
  - intros emoji r w'. apply get_emoji_post.
  - intros id n r w'. apply get_discord_emoji_post.
Qed.

Lemma seek0_rewound (w : World) r b :
  heap (env w) !! r = Some b -> closed b = false -> tell b = 0%nat ->
  seek0 w_heap w_set_heap r w = (Ok tt, w).
Proof.
  intros Hb Hc Ht. rewrite (CacheFacts.seek0_hit w r b) by done.
  f_equal. rewrite list_insert_id.
  - by destruct w as [m [] cv].
  - rewrite Hb. f_equal. destruct b. cbn in *. by subst.
Qed.

(** X24. With caching on, a key is fetched once.  After a call of
    [_get_emoji] or [_get_discord_emoji] that returned a stream, the same
    call returns the same stream again and changes nothing: no GET is
    sent, no file is read, no stream is made. *)
Theorem cached_key_is_fetched_once (ext : Externals) (w : World) :
  _cache (main w) = true ->
  (forall emoji r w',
     _get_emoji ext emoji w = (Ok (Some r), w') ->
     _get_emoji ext emoji w' = (Ok (Some r), w'))
  /\ (forall id r w',
        _get_discord_emoji ext id w = (Ok (Some r), w') ->
        _get_discord_emoji ext id w' = (Ok (Some r), w')).
Proof.
  intros Hc. split.
  - intros emoji r w' Hrun.
    destruct (get_emoji_post ext w w' emoji r Hrun)
      as [(b & Hb & Hcl & Ht) Hmem].
    pose proof (proj1 (SessionFacts.cache_safe_get_emoji ext emoji w)) as Hflag.
    rewrite Hrun in Hflag. cbn [snd] in Hflag.
    unfold _get_emoji. mstep. rewrite Hflag, Hc, (Hmem Hc).
    erewrite bind_Ok by (by eapply seek0_rewound). by mstep.
  - intros id r w' Hrun.
    destruct (builtins.int_of_str id) as [n|] eqn:Hn.
    2:{ unfold _get_discord_emoji in Hrun. by rewrite Hn in Hrun. }
    destruct (get_discord_emoji_post ext w w' id n r Hn Hrun)
      as [(b & Hb & Hcl & Ht) Hmem].
    pose proof (proj1 (SessionFacts.cache_safe_get_discord_emoji ext id w))
      as Hflag.
    rewrite Hrun in Hflag. cbn [snd] in Hflag.
    unfold _get_discord_emoji. rewrite Hn. mstep. rewrite Hflag, Hc, (Hmem Hc).
    erewrite bind_Ok by (by eapply seek0_rewound). by mstep.
Qed.

Lemma cached_key_is_fetched_once_witness :
  _get_emoji examples.ext examples.grinning examples.warmed
  = (Ok (Some 0%nat), examples.warmed).
Proof.
  destruct (cached_key_is_fetched_once examples.ext
              (examples.entered examples.net_ok)) as [H _]; [reflexivity|].
  apply (H examples.grinning 0%nat examples.warmed). reflexivity.
Defined.

(** X27. With caching off the memory caches stay empty.  Whatever a
    program does with a renderer built with [cache=False] (enter it, ask
    it for emoji, draw with it, read the streams it hands out, close it),
    neither [_emoji_cache] nor [_discord_emoji_cache] ever holds an
    entry. *)
Theorem caching_off_keeps_the_memory_caches_empty (ext : Externals)
    (draw : PIL.ImageDraw) (w : World) :
  reachable ext draw w -> _cache (main w) = false ->
  _emoji_cache (main w) = ∅ /\ _discord_emoji_cache (main w) = ∅.
Proof.
  intros Hr. by apply (SessionFacts.reachable_cache_inv ext draw).
Qed.

Lemma caching_off_keeps_the_memory_caches_empty_witness :
  _emoji_cache
    (main (_get_emoji examples.ext examples.grinning
             (__aenter__
                (new_world (PilmojiMain_init (Http Twemoji) false true 1 (0, 0))
                           ∅ examples.net_ok)).2).2) = ∅
  /\ _discord_emoji_cache
       (main (_get_emoji examples.ext examples.grinning
                (__aenter__
                   (new_world (PilmojiMain_init (Http Twemoji) false true 1 (0, 0))
                              ∅ examples.net_ok)).2).2) = ∅.
Proof.
  apply (caching_off_keeps_the_memory_caches_empty examples.ext
           examples.fixed_draw).
  - apply reach_get_emoji, reach_enter, reach_new.
  - reflexivity.
Defined.

End SessionExtras.

(** * Further properties: [getsize] *)

Module SizeExtras.
Import helpers observing.

Section Getsize.
Context (tbl : list str) (ver : list Z) (font : PIL.FontT) (spacing : Z) (f : Q).

Lemma getsize_unfold t :
  getsize tbl ver t font spacing f
  = ((foldl (getsize_step ver font spacing f) (0%Z, 0%Q) (to_nodes tbl t)).1,
     ((foldl (getsize_step ver font spacing f) (0%Z, 0%Q) (to_nodes tbl t)).2 - inject_Z spacing)%Q).
Proof.
  unfold getsize.
  assert (E : forall acc lines,
    foldl (fun '(x, y) line =>
             let this_x :=
               foldl (fun this_x node =>
                        let width :=
                          match type node with
                          | text => text_width ver font PIL.no_opts (content node)
                          | _ => builtins.int (f * PIL.size font)
                          end in
                        this_x + width) 0 line in
             let y := (y + (inject_Z spacing + PIL.size font))%Q in
             (if x <? this_x then this_x else x, y)) acc lines
    = foldl (getsize_step ver font spacing f) acc lines).
  { intros acc lines. revert acc. induction lines as [|l lines IH]; intros [x y];
      [done|]. cbn [foldl]. by rewrite IH. }
  rewrite E. by destruct (foldl _ _ _).
Qed.

Lemma getsize_loop_height lines acc :
  ((foldl (getsize_step ver font spacing f) acc lines).2
   == acc.2 + inject_Z (Z.of_nat (length lines))
              * (inject_Z spacing + PIL.size font))%Q.
Proof.
  revert acc; induction lines as [|l lines IH]; intros acc.
  - cbn. ring.
  - cbn [foldl]. rewrite IH. cbn [getsize_step snd length].
    rewrite Nat2Z.inj_succ. unfold Z.succ. rewrite inject_Z_plus. ring.
Qed.

Lemma getsize_loop_width lines acc :
  acc.1 <= (foldl (getsize_step ver font spacing f) acc lines).1
  /\ Forall (fun line => line_width ver font f line
                         <= (foldl (getsize_step ver font spacing f) acc lines).1) lines
  /\ ((foldl (getsize_step ver font spacing f) acc lines).1 = acc.1
      \/ exists line, line ∈ lines
           /\ (foldl (getsize_step ver font spacing f) acc lines).1 = line_width ver font f line).
Proof.
  revert acc; induction lines as [|l lines IH]; intros acc.
  - cbn. split_and!; [lia|constructor|by left].
  - cbn [foldl]. destruct (IH (getsize_step ver font spacing f acc l)) as (Hge & Hall & Hwho).
    assert (Hstep : acc.1 <= (getsize_step ver font spacing f acc l).1
                    /\ line_width ver font f l <= (getsize_step ver font spacing f acc l).1
                    /\ ((getsize_step ver font spacing f acc l).1 = acc.1
                        \/ (getsize_step ver font spacing f acc l).1 = line_width ver font f l)).
    { cbn [getsize_step fst].
      destruct (Z.ltb_spec acc.1 (line_width ver font f l)); lia. }
    destruct Hstep as (H1 & H2 & H3). split_and!.
    + lia.
    + constructor; [lia|done].
    + destruct Hwho as [Hw|(line & Hin & Hw)].
      * rewrite Hw. destruct H3 as [H3|H3]; [by left|].
        right. exists l. split; [left|done].
      * right. exists line. split; [by right|done].
Qed.

End Getsize.

(** X16. The height [getsize] returns counts lines and nothing else:
    for a text of [n] lines it is [n] times ([spacing] plus the font
    size), less one [spacing]; neither the emoji nor the scale factor
    enter it, and the empty text has height [-spacing]. *)
Theorem getsize_height_counts_lines (tbl : list str) (ver : list Z) (t : str)
    (font : PIL.FontT) (spacing : Z) (f : Q) :
  ((getsize tbl ver t font spacing f).2
   == inject_Z (Z.of_nat (length (splitlines t)))
      * (inject_Z spacing + PIL.size font) - inject_Z spacing)%Q.
Proof.
  rewrite getsize_unfold. cbn [snd]. rewrite getsize_loop_height. cbn [snd].
  unfold to_nodes. rewrite length_map. ring.
Qed.

(** X17. The width [getsize] returns is that of the widest line, each
    line being the sum of the widths of its nodes, and 0 when no line is
    wider than 0: it is never negative. *)
Theorem getsize_width_is_widest_line (tbl : list str) (ver : list Z) (t : str)
    (font : PIL.FontT) (spacing : Z) (f : Q) :
  0 <= (getsize tbl ver t font spacing f).1
  /\ Forall (fun line => line_width ver font f line
                         <= (getsize tbl ver t font spacing f).1)
            (to_nodes tbl t)
  /\ ((getsize tbl ver t font spacing f).1 = 0
      \/ exists line, line ∈ to_nodes tbl t
           /\ (getsize tbl ver t font spacing f).1 = line_width ver font f line).
Proof.
  rewrite getsize_unfold. cbn [fst].
  apply (getsize_loop_width ver font spacing f (to_nodes tbl t) (0%Z, 0%Q)).
Qed.

Lemma round_vs_int (q : Q) :
  (0 <= q)%Q -> builtins.int q <= builtins.round q <= builtins.int q + 1.
Proof.
  intros Hq. unfold builtins.int, builtins.round.
  rewrite (proj2 (Qle_bool_iff 0 q) Hq).
  destruct (_ ?= _)%Q; [destruct (Z.even _)| |]; lia.
Qed.

(** X18. [getsize] and the drawer do not count an emoji alike: [getsize]
    truncates the scaled font size where the drawer rounds it.  For a
    scaled size that is not negative the width [getsize] counts for an
    emoji is the drawer's or one pixel less. *)
Theorem getsize_emoji_width_is_at_most_one_short (ver : list Z)
    (font : PIL.FontT) (f : Q) (node : Node) :
  type node <> text ->
  (0 <= f * PIL.size font)%Q ->
  node_width ver font f node <= core.emoji_width f font
                             <= node_width ver font f node + 1.
Proof.
  intros Hty Hq. unfold node_width, core.emoji_width.
  destruct (type node); [done| |]; by apply round_vs_int.
Qed.

Lemma getsize_emoji_width_is_at_most_one_short_witness :
  node_width [10; 4; 0] examples.fixed_font (3 # 2)
             (mkNode emoji examples.grinning)
  <= core.emoji_width (3 # 2) examples.fixed_font
  <= node_width [10; 4; 0] examples.fixed_font (3 # 2)
                (mkNode emoji examples.grinning) + 1.
Proof.
  apply (getsize_emoji_width_is_at_most_one_short [10; 4; 0]
           examples.fixed_font (3 # 2) (mkNode emoji examples.grinning));
    [done|]. vm_compute. discriminate.
Defined.

End SizeExtras.

(** * Further properties: the draw call *)

Module DrawExtras.
Import runtime source core frame frame_canvas observing outcomes MonadFacts
       CanvasFacts
       DrawFacts.

Lemma process_line_quiet ext node (w : World) :
  needs_fetch (_render_discord_emoji (main w)) node = false ->
  process_line ext node w = (Ok (node, None), w).
Proof.
  unfold needs_fetch, process_line. mstep. intros H.
  destruct (helpers.type node); [by mstep|done|].
  rewrite H. by mstep.
Qed.

Lemma gather_quiet ext line (w : World) :
  Forall (fun n => needs_fetch (_render_discord_emoji (main w)) n = false) line ->
  map_M (process_line ext) line w = (Ok (map (fun n => (n, None)) line), w).
Proof.
  induction 1 as [|n line Hn _ IH]; [done|].
  cbn [map_M map]. unfold bind. rewrite (process_line_quiet _ _ _ Hn).
  cbn beta iota. by rewrite IH.
Qed.

Lemma paste_nodes_no_asset ext font a sc off line x y (w : World) :
  paste_nodes ext font a sc off (map (fun n => (n, None)) line) x y w
  = (Ok tt, w).
Proof.
  revert x; induction line as [|n line IH]; intros x; [done|].
  cbn [map paste_nodes]. destruct (helpers.type n); apply IH.
Qed.

Lemma layout_line_quiet ext draw font a sc off sp line (w : World) :
  Forall (fun n => needs_fetch (_render_discord_emoji (main w)) n = false) line ->
  layout_line ext draw font a sc off sp line w
  = (Ok (quiet_layout draw font a line), w).
Proof.
  intros Hq. unfold layout_line, quiet_layout.
  erewrite bind_Ok by (by apply gather_quiet).
  rewrite build_text_line_no_asset. cbn [lift]. by mstep.
Qed.

Lemma layout_lines_quiet ext draw font a sc off sp lines (w : World) :
  Forall (Forall (fun n => needs_fetch (_render_discord_emoji (main w)) n = false))
         lines ->
  map_M (layout_line ext draw font a sc off sp) lines w
  = (Ok (map (quiet_layout draw font a) lines), w).
Proof.
  induction 1 as [|line lines Hl _ IH]; [done|].
  cbn [map map_M]. unfold bind. rewrite layout_line_quiet by done.
  cbn beta iota. by rewrite IH.
Qed.

Lemma line_x_good anchor align x wd :
  align = py "left" \/ align = py "center" \/ align = py "right" ->
  exists x', line_x anchor align x wd = Ok x'.
Proof.
  intros [-> | [-> | ->]]; unfold line_x; cbn; by eexists.
Qed.

Lemma draw_lines_no_asset_step ext draw font a anchor sc off x0 maxw ls l rest
    y ink sw (w : World) :
  (exists line, nodes_processed l = map (fun n => (n, None)) line) ->
  align a = py "left" \/ align a = py "center" \/ align a = py "right" ->
  exists x ink' sw',
    draw_lines ext draw font a anchor sc off x0 maxw ls (l :: rest) y ink sw w
    = draw_lines ext draw font a anchor sc off x0 maxw ls rest (y + ls)%Q ink' sw'
        (if nonempty (draw_string l)
         then add_canvas (PIL.DrawText (x, y) (draw_string l) anchor (spacing a)
                            (align a) sw) w
         else w)
    /\ (sw = 0 -> sw' = 0)
    /\ (ink = None -> ink' = None /\ sw' = sw)
    /\ (is_Some ink -> stroke_fill a = None -> is_Some ink' /\ sw' = 0).
Proof.
  intros [line Hl] Hal. cbn [draw_lines].
  destruct (line_x_good anchor (align a) x0 (maxw - pixel_width l) Hal) as [x Hx].
  rewrite Hx. cbn [lift]. mstep. exists x.
  assert (Hdraw : forall (k : unit -> M World unit),
    ((if (0 <? length (draw_string l))%nat
      then modify (add_canvas (PIL.DrawText (x, y) (draw_string l) anchor
                                 (spacing a) (align a) sw))
      else mret tt) ≫= k) w
    = k tt (if nonempty (draw_string l)
            then add_canvas (PIL.DrawText (x, y) (draw_string l) anchor (spacing a)
                               (align a) sw) w
            else w)).
  { intros k. by destruct (draw_string l). }
  rewrite Hdraw. rewrite Hl.
  destruct ink as [i|].
  - destruct (Z.eqb_spec sw 0) as [->|Hsw].
    + eexists (Some i), 0. cbn. 
      erewrite bind_Ok by apply paste_nodes_no_asset.
      split_and!; [reflexivity|done|done|by eauto].
    + destruct (stroke_fill a) as [sf|] eqn:Hsf.
      * destruct (getink draw (Some sf)) as [si|] eqn:Hsi.
        -- exists (Some si), 0. erewrite bind_Ok by apply paste_nodes_no_asset.
           split_and!; [reflexivity|done|done|done].
        -- exists (Some i), sw. erewrite bind_Ok by apply paste_nodes_no_asset.
           split_and!; [reflexivity|done|done|done].
      * exists (Some i), 0. erewrite bind_Ok by apply paste_nodes_no_asset.
        split_and!; [reflexivity|done|done|by eauto].
  - exists None, sw. erewrite bind_Ok by apply paste_nodes_no_asset.
    split_and!; [reflexivity|done|done|]. by intros [? ?].
Qed.

Lemma drawn_texts_app ops1 ops2 :
  drawn_texts (ops2 ++ ops1) = drawn_texts ops1 ++ drawn_texts ops2.
Proof. unfold drawn_texts. by rewrite rev_app_distr, omap_app. Qed.

Lemma pasted_app ops1 ops2 : pasted (ops2 ++ ops1) = pasted ops1 ++ pasted ops2.
Proof. unfold pasted. by rewrite rev_app_distr, omap_app. Qed.

Section QuietLines.
Context (ext : Externals) (draw : PIL.ImageDraw) (font : PIL.FontT) (a : TextArgs)
        (anchor : str) (sc : Q) (off : Z * Z) (x0 maxw ls : Q).
Hypothesis Halign :
  align a = py "left" \/ align a = py "center" \/ align a = py "right".

Lemma draw_lines_quiet (lines : list (list helpers.Node)) y ink sw (w : World) :
  exists ops,
    draw_lines ext draw font a anchor sc off x0 maxw ls (map (quiet_layout draw font a) lines) y ink sw w
    = (Ok tt, mkWorld (main w) (env w) (ops ++ canvas w))
    /\ pasted ops = []
    /\ map fst (drawn_texts ops)
       = List.filter (fun p => nonempty p.2) (rows_from y ls (map flat lines))
    /\ (sw = 0 -> Forall (fun d => d.2 = 0) (drawn_texts ops))
    /\ (ink = None -> Forall (fun d => d.2 = sw) (drawn_texts ops))
    /\ (is_Some ink -> stroke_fill a = None ->
        map snd (drawn_texts ops)
        = match lines with
          | [] => []
          | l :: rest =>
              (if nonempty (flat l) then [sw] else [])
              ++ replicate (length (List.filter nonempty (map flat rest))) 0
          end).
Proof.
  revert y ink sw w. induction lines as [|l lines IH]; intros y ink sw w.
  - exists []. cbn. destruct w. by split_and!.
  - cbn [map].
    destruct (draw_lines_no_asset_step ext draw font a anchor sc off x0 maxw ls
                (quiet_layout draw font a l)
                (map (quiet_layout draw font a) lines)
                y ink sw w)
      as (x & ink' & sw' & Hstep & Hsw0 & Hnone & Hsome); [by eexists|done|].
    rewrite Hstep.
    change (draw_string (quiet_layout draw font a l)) with (flat l) in *.
    match goal with
    | |- context [draw_lines _ _ _ _ _ _ _ _ _ _ _ _ _ _ ?w1] =>
        destruct (IH (y + ls)%Q ink' sw' w1)
          as (ops & Hrun & Hp & Hrows & H0 & HN & HS)
    end.
    set (op := PIL.DrawText (x, y) (flat l) anchor (spacing a) (align a) sw) in *.
    exists (ops ++ if nonempty (flat l) then [op] else []).
    assert (Hdt : drawn_texts (ops ++ if nonempty (flat l) then [op] else [])
                  = (if nonempty (flat l) then [(y, flat l, sw)] else []) ++ drawn_texts ops).
    { rewrite drawn_texts_app. by destruct (nonempty (flat l)). }
    split_and!.
    + rewrite Hrun. destruct (nonempty (flat l)); cbn; by rewrite <- ?app_assoc.
    + rewrite pasted_app, Hp. by destruct (nonempty (flat l)).
    + rewrite Hdt, map_app, Hrows. cbn [map rows_from List.filter snd].
      by destruct (nonempty (flat l)).
    + intros ->. rewrite Hdt. apply Forall_app. split; [|by apply H0, Hsw0].
      destruct (nonempty (flat l)); by repeat constructor.
    + intros ->. destruct (Hnone eq_refl) as [-> ->].
      rewrite Hdt. apply Forall_app. split; [|by apply HN].
      destruct (nonempty (flat l)); by repeat constructor.
    + intros Hi Hsf. destruct (Hsome Hi Hsf) as [Hi' ->].
      rewrite Hdt, map_app. f_equal; [by destruct (nonempty (flat l))|].
      specialize (H0 eq_refl). clear -H0 Hrows.
      assert (Hlen : length (drawn_texts ops)
                     = length (List.filter nonempty (map flat lines))).
      { rewrite <- (length_map fst), Hrows. clear.
        generalize (y + ls)%Q. induction lines as [|l' lines IH]; intros q; [done|].
        cbn [map rows_from List.filter snd]. destruct (nonempty (flat l')); simpl; by rewrite IH. }
      rewrite <- Hlen. clear -H0. induction H0 as [|d ds Hd _ IH]; [done|].
      simpl. by rewrite Hd, IH.
Qed.

End QuietLines.

(** A call none of whose nodes is fetched, as a whole. *)
Lemma text_quiet_run (ext : Externals) (draw : PIL.ImageDraw) (a : TextArgs)
    (anc : str) (w : World) :
  Forall (Forall (fun n => needs_fetch (_render_discord_emoji (main w)) n = false))
         (helpers.to_nodes (language_pack_values ext) (text a)) ->
  check_anchor (anchor a) (text a) = Ok anc ->
  check_direction (PIL.direction (opts a)) (text a) = Ok tt ->
  align a = py "left" \/ align a = py "center" \/ align a = py "right" ->
  exists ops,
    PilmojiDrawer_text ext draw a w
    = (Ok tt, mkWorld (main w) (env w) (ops ++ canvas w))
    /\ pasted ops = []
    /\ map fst (drawn_texts ops)
       = List.filter (fun p => nonempty p.2)
           (rows_from
              (start_y anc (xy a).2
                 (length (helpers.to_nodes (language_pack_values ext) (text a)))
                 (_multiline_spacing draw (default (load_default ext) (font a))
                    (spacing a) (stroke_width a)))
              (_multiline_spacing draw (default (load_default ext) (font a))
                 (spacing a) (stroke_width a))
              (map flat (helpers.to_nodes (language_pack_values ext) (text a))))
    /\ (stroke_width a = 0 -> Forall (fun d => d.2 = 0) (drawn_texts ops))
    /\ (getink draw (fill a) = None ->
        Forall (fun d => d.2 = stroke_width a) (drawn_texts ops))
    /\ (is_Some (getink draw (fill a)) -> stroke_fill a = None ->
        map snd (drawn_texts ops)
        = match helpers.to_nodes (language_pack_values ext) (text a) with
          | [] => []
          | l :: rest =>
              (if nonempty (flat l) then [stroke_width a] else [])
              ++ replicate (length (List.filter nonempty (map flat rest))) 0
          end).
Proof.
  intros Hq Ha Hd Hal. unfold PilmojiDrawer_text. mstep.
  rewrite Ha, Hd. cbn [lift]. mstep. destruct (xy a) as [x y] eqn:Hxy.
  erewrite bind_Ok by (by apply layout_lines_quiet).
  cbn [snd]. apply draw_lines_quiet. done.
Qed.

Lemma plain_lines_quiet tbl render (lines : list str) :
  Forall (plain tbl) lines ->
  Forall (Forall (fun n => needs_fetch render n = false))
         (map (helpers._parse_line tbl) lines)
  /\ map flat (map (helpers._parse_line tbl) lines) = lines.
Proof.
  induction 1 as [|line lines Hl _ [IH1 IH2]]; [by split|].
  cbn [map]. rewrite IH2, (TokenizerExtras.parse_line_plain _ _ Hl). split.
  - constructor; [|done]. destruct line; by repeat constructor.
  - f_equal. destruct line; [done|]. unfold flat. cbn. by rewrite app_nil_r.
Qed.

(** A call on a text without emoji, as a whole. *)
Lemma text_plain_run (ext : Externals) (draw : PIL.ImageDraw) (a : TextArgs)
    (anc : str) (w : World) :
  Forall (plain (language_pack_values ext)) (helpers.splitlines (text a)) ->
  check_anchor (anchor a) (text a) = Ok anc ->
  check_direction (PIL.direction (opts a)) (text a) = Ok tt ->
  align a = py "left" \/ align a = py "center" \/ align a = py "right" ->
  exists ops,
    PilmojiDrawer_text ext draw a w
    = (Ok tt, mkWorld (main w) (env w) (ops ++ canvas w))
    /\ pasted ops = []
    /\ map fst (drawn_texts ops)
       = List.filter (fun p => nonempty p.2)
           (rows_from
              (start_y anc (xy a).2 (length (helpers.splitlines (text a)))
                 (_multiline_spacing draw (default (load_default ext) (font a))
                    (spacing a) (stroke_width a)))
              (_multiline_spacing draw (default (load_default ext) (font a))
                 (spacing a) (stroke_width a))
              (helpers.splitlines (text a)))
    /\ (stroke_width a = 0 -> Forall (fun d => d.2 = 0) (drawn_texts ops))
    /\ (getink draw (fill a) = None ->
        Forall (fun d => d.2 = stroke_width a) (drawn_texts ops))
    /\ (is_Some (getink draw (fill a)) -> stroke_fill a = None ->
        map snd (drawn_texts ops)
        = match helpers.splitlines (text a) with
          | [] => []
          | l :: rest =>
              (if nonempty l then [stroke_width a] else [])
              ++ replicate (length (List.filter nonempty rest)) 0
          end).
Proof.
  intros Hplain Ha Hd Hal.
  destruct (plain_lines_quiet (language_pack_values ext)
              (_render_discord_emoji (main w)) _ Hplain) as [Hq Hflat].
  destruct (text_quiet_run ext draw a anc w Hq Ha Hd Hal)
    as (ops & Hrun & Hp & Hrows & H0 & HN & HS).
  exists ops. unfold helpers.to_nodes in *.
  rewrite length_map, Hflat in Hrows. split_and!; try done.
  intros Hi Hsf. rewrite (HS Hi Hsf).
  destruct (helpers.splitlines (text a)) as [|l rest]; [done|].
  cbn [map] in Hflat |- *. injection Hflat as -> ->. done.
Qed.

(** X6. A text without emoji: the call returns, asks nothing of the
    source and leaves the renderer and its world as they were, pastes
    nothing, and hands each non-empty line once to [draw.text], as it
    is, the lines in order and [line_spacing] apart from the anchor row
    on (an empty line takes its row and draws nothing). *)
Theorem plain_text_is_drawn_line_by_line (ext : Externals) (draw : PIL.ImageDraw)
    (a : TextArgs) (anc : str) (w : World) :
  Forall (plain (language_pack_values ext)) (helpers.splitlines (text a)) ->
  check_anchor (anchor a) (text a) = Ok anc ->
  check_direction (PIL.direction (opts a)) (text a) = Ok tt ->
  align a = py "left" \/ align a = py "center" \/ align a = py "right" ->
  exists ops,
    PilmojiDrawer_text ext draw a w
    = (Ok tt, mkWorld (main w) (env w) (ops ++ canvas w))
    /\ pasted ops = []
    /\ map fst (drawn_texts ops)
       = List.filter (fun p => nonempty p.2)
           (rows_from
              (start_y anc (xy a).2 (length (helpers.splitlines (text a)))
                 (_multiline_spacing draw (default (load_default ext) (font a))
                    (spacing a) (stroke_width a)))
              (_multiline_spacing draw (default (load_default ext) (font a))
                 (spacing a) (stroke_width a))
              (helpers.splitlines (text a))).
Proof.
  intros Hplain Ha Hd Hal.
  destruct (text_plain_run ext draw a anc w Hplain Ha Hd Hal)
    as (ops & Hrun & Hp & Hrows & _).
  by exists ops.
Qed.

Lemma plain_text_is_drawn_line_by_line_witness :
  exists ops,
    PilmojiDrawer_text examples.ext examples.fixed_draw
      (default_args (10, 20)%Q (py "Hi" ++ 10%N :: 10%N :: py "all"))
      (examples.entered examples.net_down)
    = (Ok tt, mkWorld (main (examples.entered examples.net_down))
                      (env (examples.entered examples.net_down))
                      (ops ++ canvas (examples.entered examples.net_down)))
    /\ pasted ops = []
    /\ map fst (drawn_texts ops) = [(20%Q, py "Hi"); ((20 + 25 + 25)%Q, py "all")].
Proof.
  apply (plain_text_is_drawn_line_by_line examples.ext examples.fixed_draw
           (default_args (10, 20)%Q (py "Hi" ++ 10%N :: 10%N :: py "all"))
           (py "la")).
  - change (Forall (plain examples.table) [py "Hi"; []; py "all"]).
    repeat (apply List.Forall_cons; [apply TokenizerExtras.plain_intro; by_decide|]).
    apply List.Forall_nil.
  - reflexivity.
  - reflexivity.
  - by left.
Defined.

(** X7. The stroke reaches the first line only.  When the drawing
    context has an ink for [fill] and no [stroke_fill] is given, the
    drawer sets its [stroke_width] to 0 while it handles the first line,
    and the variable lives on: in a text without emoji the first line is
    handed to [draw.text] with the [stroke_width] of the call, every later
    line with 0. *)
Theorem stroke_width_reaches_first_line_only (ext : Externals)
    (draw : PIL.ImageDraw) (a : TextArgs) (anc : str) (w : World) :
  Forall (plain (language_pack_values ext)) (helpers.splitlines (text a)) ->
  check_anchor (anchor a) (text a) = Ok anc ->
  check_direction (PIL.direction (opts a)) (text a) = Ok tt ->
  align a = py "left" \/ align a = py "center" \/ align a = py "right" ->
  is_Some (getink draw (fill a)) ->
  stroke_fill a = None ->
  exists ops,
    PilmojiDrawer_text ext draw a w
    = (Ok tt, mkWorld (main w) (env w) (ops ++ canvas w))
    /\ map snd (drawn_texts ops)
       = match helpers.splitlines (text a) with
         | [] => []
         | l :: rest =>
             (if nonempty l then [stroke_width a] else [])
             ++ replicate (length (List.filter nonempty rest)) 0
         end.
Proof.
  intros Hplain Ha Hd Hal Hink Hsf.
  destruct (text_plain_run ext draw a anc w Hplain Ha Hd Hal)
    as (ops & Hrun & _ & _ & _ & _ & Hs).
  exists ops. split; [done|]. by apply Hs.
Qed.

Lemma stroke_width_reaches_first_line_only_witness :
  exists ops,
    PilmojiDrawer_text examples.ext examples.fixed_draw
      (mkTextArgs (10, 20)%Q (py "Hi" ++ 10%N :: py "all") None None None 4 0
                  (py "left") PIL.no_opts 2 None false None None)
      (examples.entered examples.net_down)
    = (Ok tt, mkWorld (main (examples.entered examples.net_down))
                      (env (examples.entered examples.net_down))
                      (ops ++ canvas (examples.entered examples.net_down)))
    /\ map snd (drawn_texts ops) = [2; 0].
Proof.
  apply (stroke_width_reaches_first_line_only examples.ext examples.fixed_draw
           (mkTextArgs (10, 20)%Q (py "Hi" ++ 10%N :: py "all") None None None 4 0
                       (py "left") PIL.no_opts 2 None false None None)
           (py "la")).
  - change (Forall (plain examples.table) [py "Hi"; py "all"]).
    repeat (apply List.Forall_cons; [apply TokenizerExtras.plain_intro; by_decide|]).
    apply List.Forall_nil.
  - reflexivity.
  - reflexivity.
  - by left.
  - by eexists.
  - reflexivity.
Defined.

Lemma Image_open_run ext r b wh (w : World) :
  heap (env w) !! r = Some b -> closed b = false ->
  image_size ext (getvalue b) = Some wh ->
  Image_open ext r w
  = (Ok (getvalue b, wh),
     w_set_heap (<[r := mkBytesIO (getvalue b) (length (getvalue b)) false]>
                   (heap (env w))) w).
Proof.
  intros Hb Hc Hsz. unfold Image_open.
  erewrite bind_Ok by (by apply (CacheFacts.seek0_hit w r b)).
  assert (Hr : read w_heap w_set_heap r
                 (w_set_heap (<[r := mkBytesIO (getvalue b) 0 (closed b)]>
                                (heap (env w))) w)
               = (Ok (getvalue b),
                  w_set_heap (<[r := mkBytesIO (getvalue b) (length (getvalue b))
                                               false]> (heap (env w))) w)).
  { unfold read, with_stream, w_heap. cbn [env set_env w_set_heap heap set_heap].
    rewrite list_lookup_insert_eq by (by eapply lookup_lt_Some).
    rewrite Hc. cbn [closed getvalue tell drop Nat.max].
    unfold w_set_heap, set_env, set_heap. cbn.
    by rewrite list_insert_insert_eq. }
  erewrite bind_Ok by exact Hr. by rewrite Hsz.
Qed.

Lemma Qceiling_square (s W : Z) :
  s <> 0 -> Qceiling (inject_Z s / inject_Z s * inject_Z W) = W.
Proof.
  intros Hs. rewrite <- (Qceiling_Z W) at 2. apply Qceiling_comp.
  field. intros H. apply Hs. by apply (inject_Z_injective s 0).
Qed.

Lemma paste_square_asset (ext : Externals) (font : PIL.FontT)
    (a : TextArgs) (sc : Q) (ox oy : Z) (node : helpers.Node) (r : ref)
    (rest : list (helpers.Node * option ref)) (x y : Q) (w : World)
    (b : BytesIO) (s : Z) :
  helpers.type node <> helpers.text ->
  heap (env w) !! r = Some b -> closed b = false ->
  image_size ext (getvalue b) = Some (s, s) -> s <> 0 ->
  paste_nodes ext font a sc (ox, oy) ((node, Some r) :: rest) x y w
  = paste_nodes ext font a sc (ox, oy) rest
      (x + inject_Z (node_spacing a + emoji_width sc font))%Q y
      (add_canvas
         (PIL.Paste (getvalue b) (emoji_width sc font, emoji_width sc font)
                    (builtins.round (x + inject_Z ox),
                     builtins.round (y + inject_Z oy)))
         (w_set_heap (<[r := mkBytesIO (getvalue b) (length (getvalue b)) false]>
                        (heap (env w))) w)).
Proof.
  intros Hty Hb Hc Hsz Hs. cbn [paste_nodes].
  assert (Hrun : forall k : bytes * (Z * Z) -> M World unit,
            (Image_open ext r ≫= k) w
            = k (getvalue b, (s, s))
                (w_set_heap (<[r := mkBytesIO (getvalue b) (length (getvalue b))
                                              false]> (heap (env w))) w)).
  { intros k. by erewrite bind_Ok by (by eapply Image_open_run). }
  destruct (helpers.type node); [done| |];
    rewrite Hrun; rewrite (proj2 (Z.eqb_neq s 0) Hs); mstep;
    by rewrite Qceiling_square, LayoutFacts.round_inject_Z.
Qed.



(** X28. With [render_discord_emoji] off a custom emoji is drawn as its
    bare id.  The tokenizer has kept only the id of the token, and a node
    that is not fetched goes into the line as its content: a one-line
    text made of plain text, a custom-emoji token and plain text is
    handed to [draw.text] as the first text, the digits of the id and the
    second text; the name, the colons and the angle brackets are gone,
    nothing is asked of the source and nothing is pasted. *)
Theorem unrendered_custom_emoji_is_drawn_as_its_id (ext : Externals)
    (draw : PIL.ImageDraw) (a : TextArgs) (anc : str) (w : World)
    (pre tok post id : str) :
  _render_discord_emoji (main w) = false ->
  text a = pre ++ tok ++ post ->
  reading.wire_token id tok ->
  language_pack_values ext <> [] ->
  Forall (fun c => helpers.is_linebreak c = false) (text a) ->
  60%N ∉ pre ->
  (forall e k, e ∈ language_pack_values ext -> (k <= length pre)%nat ->
               ~ e `prefix_of` drop k (pre ++ tok ++ post)) ->
  plain (language_pack_values ext) post ->
  check_anchor (anchor a) (text a) = Ok anc ->
  check_direction (PIL.direction (opts a)) (text a) = Ok tt ->
  align a = py "left" \/ align a = py "center" \/ align a = py "right" ->
  exists ops,
    PilmojiDrawer_text ext draw a w
    = (Ok tt, mkWorld (main w) (env w) (ops ++ canvas w))
    /\ pasted ops = []
    /\ map (fun d => d.1.2) (drawn_texts ops) = [pre ++ id ++ post].
Proof.
  intros Hr Ht Htok Hne Hnb Hlt Hno Hpost Ha Hd Hal.
  assert (Hlines : helpers.to_nodes (language_pack_values ext) (text a)
                   = [match pre with
                      | [] => []
                      | _ :: _ => [helpers.mkNode helpers.text pre]
                      end
                      ++ helpers.mkNode helpers.discord_emoji id
                      :: match post with
                         | [] => []
                         | _ :: _ => [helpers.mkNode helpers.text post]
                         end]).
  { unfold helpers.to_nodes, helpers.splitlines.
    rewrite LineExtras.splitlines_from_plain; [|done|].
    - cbn [map]. rewrite Ht, (TokenizerExtras.parse_line_token _ _ _ _ id) by done.
      by rewrite (TokenizerExtras.parse_line_plain _ _ Hpost).
    - rewrite Ht. pose proof (TokenizerExtras.wire_token_length _ _ Htok).
      intros E. apply (f_equal length) in E. rewrite !length_app in E.
      simpl in E. lia. }
  destruct (text_quiet_run ext draw a anc w) as (ops & Hrun & Hp & Hrows & _);
    [|done|done|done|].
  { rewrite Hlines. constructor; [|constructor].
    apply Forall_app. split; [destruct pre; by repeat constructor|].
    constructor; [by unfold needs_fetch; cbn; rewrite Hr|].
    destruct post; by repeat constructor. }
  exists ops. split_and!; [done|done|].
  rewrite Hlines in Hrows. cbn [map rows_from List.filter length snd] in Hrows.
  assert (Hflat : flat (match pre with
                        | [] => []
                        | _ :: _ => [helpers.mkNode helpers.text pre]
                        end
                        ++ helpers.mkNode helpers.discord_emoji id
                        :: match post with
                           | [] => []
                           | _ :: _ => [helpers.mkNode helpers.text post]
                           end) = pre ++ id ++ post).
  { unfold flat. rewrite map_app, concat_app. cbn [map concat helpers.content].
    f_equal; [destruct pre; cbn; by rewrite ?app_nil_r|].
    f_equal. destruct post; cbn; by rewrite ?app_nil_r. }
  rewrite Hflat in Hrows.
  assert (Hne' : nonempty (pre ++ id ++ post) = true).
  { destruct Htok as (flag & name & _ & _ & _ & _ & _ & Hlen).
    destruct pre; [|done]. destruct id; [simpl in Hlen; lia|done]. }
  rewrite Hne' in Hrows.
  rewrite <- (map_map fst snd), Hrows. done.
Qed.

Lemma unrendered_custom_emoji_is_drawn_as_its_id_witness :
  exists ops,
    PilmojiDrawer_text examples.ext examples.fixed_draw
      (default_args (0, 0)%Q (py "Hi " ++ examples.token_foo ++ py "!"))
      (new_world (PilmojiMain_init (Http Twemoji) true false 1 (0, 0)) ∅
                 examples.net_down)
    = (Ok tt,
       mkWorld (PilmojiMain_init (Http Twemoji) true false 1 (0, 0))
               (mkEnv [] ∅ examples.net_down [] [] false) (ops ++ []))
    /\ pasted ops = []
    /\ map (fun d => d.1.2) (drawn_texts ops)
       = [py "Hi " ++ py "123456789012345678" ++ py "!"].
Proof.
  apply (unrendered_custom_emoji_is_drawn_as_its_id examples.ext
           examples.fixed_draw
           (default_args (0, 0)%Q (py "Hi " ++ examples.token_foo ++ py "!"))
           (py "la")
           (new_world (PilmojiMain_init (Http Twemoji) true false 1 (0, 0)) ∅
                      examples.net_down)
           (py "Hi ") examples.token_foo (py "!") (py "123456789012345678")).
  - reflexivity.
  - reflexivity.
  - exists [], (py "foo").
    split_and!; [reflexivity|by left|by_decide| | |by_decide| |];
      vm_compute; lia.
  - done.
  - by_decide.
  - by_decide.
  - apply TokenizerExtras.no_prefix_intro. by_decide.
  - apply TokenizerExtras.plain_intro; by_decide.
  - reflexivity.
  - reflexivity.
  - by left.
Defined.

(** X26. The string of a line fails to build in one case only: an asset
    was found for one of its nodes and the space of the font, by whose
    width the emoji width is divided, has width 0; the exception is then
    ZeroDivisionError.  In every other case a string is built. *)
Theorem line_string_fails_only_on_zero_width_space (sc : Q) (font : PIL.FontT)
    (off : Z * Z) (ns : Z) (sp : Q) (ps : list (helpers.Node * option ref))
    (acc : str) :
  if (has_asset ps && Qeq_bool sp 0)%bool
  then build_text_line sc font off ns sp ps acc = Raise ZeroDivisionError
  else is_Raise (build_text_line sc font off ns sp ps acc) = false.
Proof.
  revert acc. induction ps as [|[node stream] ps IH]; intros acc.
  - cbn. by destruct (Qeq_bool sp 0).
  - cbn [build_text_line has_asset existsb fst snd].
    fold (has_asset ps).
    assert (Hsp : space_to_had sc font off ns sp
                  = if Qeq_bool sp 0 then Raise ZeroDivisionError
                    else Ok (builtins.round
                               (inject_Z (builtins.round
                                  (inject_Z (emoji_width sc font + off.1 + ns * 2)))
                                / sp))).
    { unfold space_to_had. by destruct off. }
    destruct (helpers.type node), stream as [r|]; cbn [orb]; try apply IH.
    + rewrite Hsp. destruct (Qeq_bool sp 0) eqn:E; [done|].
      specialize (IH (acc ++ replicate
        (Z.to_nat (builtins.round
           (inject_Z (builtins.round
              (inject_Z (emoji_width sc font + off.1 + ns * 2))) / sp))) 32%N)).
      rewrite andb_false_r in IH. by rewrite andb_false_r.
    + rewrite Hsp. destruct (Qeq_bool sp 0) eqn:E; [done|].
      specialize (IH (acc ++ replicate
        (Z.to_nat (builtins.round
           (inject_Z (builtins.round
              (inject_Z (emoji_width sc font + off.1 + ns * 2))) / sp))) 32%N)).
      rewrite andb_false_r in IH. by rewrite andb_false_r.
Qed.

(** *** Emoji that no image was found for *)

Lemma gather_unfetched ext line (w : World) :
  Forall (fun n => process_line ext n w = (Ok (n, None), w)) line ->
  map_M (process_line ext) line w = (Ok (map (fun n => (n, None)) line), w).
Proof.
  induction 1 as [|n line Hn _ IH]; [done|].
  cbn [map_M map]. unfold bind. rewrite Hn. cbn beta iota. by rewrite IH.
Qed.

Lemma layout_lines_unfetched ext draw font a sc off sp lines (w : World) :
  Forall (Forall (fun n => process_line ext n w = (Ok (n, None), w))) lines ->
  map_M (layout_line ext draw font a sc off sp) lines w
  = (Ok (map (quiet_layout draw font a) lines), w).
Proof.
  induction 1 as [|line lines Hl _ IH]; [done|].
  cbn [map map_M]. unfold bind.
  assert (Hline : layout_line ext draw font a sc off sp line w
                  = (Ok (quiet_layout draw font a line), w)).
  { unfold layout_line, quiet_layout.
    erewrite bind_Ok by (by apply gather_unfetched).
    rewrite build_text_line_no_asset. cbn [lift]. by mstep. }
  rewrite Hline. cbn beta iota. by rewrite IH.
Qed.

(** A call none of whose nodes yields a stream, as a whole. *)
Lemma text_unfetched_run (ext : Externals) (draw : PIL.ImageDraw) (a : TextArgs)
    (anc : str) (w : World) :
  Forall (Forall (fun n => process_line ext n w = (Ok (n, None), w)))
         (helpers.to_nodes (language_pack_values ext) (text a)) ->
  check_anchor (anchor a) (text a) = Ok anc ->
  check_direction (PIL.direction (opts a)) (text a) = Ok tt ->
  align a = py "left" \/ align a = py "center" \/ align a = py "right" ->
  exists ops,
    PilmojiDrawer_text ext draw a w
    = (Ok tt, mkWorld (main w) (env w) (ops ++ canvas w))
    /\ pasted ops = []
    /\ map fst (drawn_texts ops)
       = List.filter (fun p => nonempty p.2)
           (rows_from
              (start_y anc (xy a).2
                 (length (helpers.to_nodes (language_pack_values ext) (text a)))
                 (_multiline_spacing draw (default (load_default ext) (font a))
                    (spacing a) (stroke_width a)))
              (_multiline_spacing draw (default (load_default ext) (font a))
                 (spacing a) (stroke_width a))
              (map flat (helpers.to_nodes (language_pack_values ext) (text a)))).
Proof.
  intros Hq Ha Hd Hal. unfold PilmojiDrawer_text. mstep.
  rewrite Ha, Hd. cbn [lift]. mstep. destruct (xy a) as [x y] eqn:Hxy.
  erewrite bind_Ok by (by apply layout_lines_unfetched).
  cbn [snd].
  match goal with
  | |- context [draw_lines ext draw ?font a anc ?sc ?off ?x0 ?maxw ?ls _ ?y0 ?ink ?sw w] =>
      destruct (draw_lines_quiet ext draw font a anc sc off x0 maxw ls Hal
                  (helpers.to_nodes (language_pack_values ext) (text a))
                  y0 ink sw w) as (ops & Hrun & Hp & Hrows & _)
  end.
  by exists ops.
Qed.

(** The nodes of a line without ['<'] keep the line: none is a custom
    emoji. *)
Lemma flat_parse_chunks tbl i chunks :
  Forall (fun e => (length e <= 18)%nat) tbl ->
  odd_chunks (fun c => c ∈ tbl \/ exists id, reading.wire_token id c) i chunks ->
  60%N ∉ concat chunks ->
  flat (helpers.parse_chunks i chunks) = concat chunks
  /\ Forall (fun n => helpers.type n <> helpers.discord_emoji)
            (helpers.parse_chunks i chunks).
Proof.
  intros Hb. revert i. induction chunks as [|c chunks IH]; intros i Hodd Hlt.
  - by split.
  - destruct Hodd as [Hc Hrest]. cbn [concat] in Hlt.
    destruct (IH (S i) Hrest) as [IHf IHn].
    { intros Hin. apply Hlt. apply elem_of_app. by right. }
    destruct c as [|c0 c]; [done|].
    cbn [helpers.parse_chunks]. destruct (Nat.even i) eqn:Hi.
    + split; [|by constructor]. unfold flat in *. cbn [map concat helpers.content].
      by rewrite IHf.
    + destruct (Hc eq_refl) as [Hin|[id Htok]].
      * rewrite Forall_forall in Hb. specialize (Hb _ Hin).
        destruct (Nat.ltb_spec 18 (length (c0 :: c))) as [?|_]; [lia|].
        split; [|by constructor]. unfold flat in *.
        cbn [map concat helpers.content]. by rewrite IHf.
      * exfalso. apply Hlt. apply elem_of_app. left.
        destruct Htok as (flag & name & -> & _). left.
Qed.

Lemma flat_parse_line tbl line :
  Forall (fun e => (length e <= 18)%nat) tbl -> 60%N ∉ line ->
  flat (helpers._parse_line tbl line) = line
  /\ Forall (fun n => helpers.type n <> helpers.discord_emoji)
            (helpers._parse_line tbl line).
Proof.
  intros Hb Hlt. unfold helpers._parse_line, helpers.EMOJI_REGEX_split.
  pose proof (TokenizerFacts.split_from_concat tbl line 0 []) as Hcat.
  cbn [rev app drop] in Hcat.
  destruct (flat_parse_chunks tbl 0 (helpers.split_from tbl line 0 []) Hb)
    as [Hf Hn].
  - apply TokenizerExtras.split_from_odd_chunks. intros s n.
    apply TokenizerExtras.match_classified.
  - by rewrite Hcat.
  - by rewrite Hf, Hcat.
Qed.

Lemma process_line_no_image ext f g node (w : World) :
  source (main w) = Custom f g ->
  helpers.type node <> helpers.discord_emoji ->
  f (helpers.content node) = None ->
  _emoji_cache (main w) !! helpers.content node = None ->
  process_line ext node w = (Ok (node, None), w).
Proof.
  intros Hsrc Hty Hf Hmem.
  assert (Hget : _get_emoji ext (helpers.content node) w = (Ok None, w)).
  { unfold _get_emoji. mstep.
    assert ((if _cache (main w) then _emoji_cache (main w) !! helpers.content node
             else None) = None) as -> by (rewrite Hmem; by destruct (_cache _)).
    rewrite Hsrc. unfold in_env, zoom, mbind, M_bind, bind. cbn [get_emoji].
    rewrite Hf. cbn. by destruct w as [m [] cv]. }
  unfold process_line. mstep.
  destruct (helpers.type node); [by mstep| |done].
  erewrite bind_Ok by exact Hget. by mstep.
Qed.

Lemma splitlines_from_Forall (P : N -> Prop) n s cur :
  (length s <= n)%nat -> Forall P s -> Forall P cur ->
  Forall (Forall P) (helpers.splitlines_from s cur).
Proof.
  revert s cur; induction n as [|n IH]; intros s cur Hlen Hs Hcur.
  - destruct s; [|simpl in Hlen; lia]. simpl.
    destruct cur; [constructor|]. repeat constructor. by apply Forall_rev.
  - destruct s as [|c s].
    { simpl. destruct cur; [constructor|]. repeat constructor.
      by apply Forall_rev. }
    simpl in Hlen. cbn [helpers.splitlines_from].
    assert (Hrev : Forall P (rev cur)) by by apply Forall_rev.
    inversion Hs as [|? ? Hc Hs']; subst.
    destruct (N.eqb c 13).
    + destruct s as [|d s]; [by repeat constructor|].
      simpl in Hlen. inversion Hs' as [|? ? Hd Hs'']; subst.
      destruct (N.eqb d 10); constructor; try done; apply IH;
        simpl; try lia; try done; constructor.
    + destruct (helpers.is_linebreak c) eqn:Ec.
      * constructor; [done|]. apply IH; [lia|done|constructor].
      * apply IH; [lia|done|]. by constructor.
Qed.

(** X29. An emoji for which the source has no image is drawn as text.
    Over a source that answers [None] for every emoji, with nothing in
    the memory cache, a text without ['<'] is handed to [draw.text] line by
    line exactly as it is, emoji included; nothing is pasted and the
    renderer and its world stay as they were. *)
Theorem emoji_without_image_is_drawn_as_text (ext : Externals)
    (draw : PIL.ImageDraw) (a : TextArgs) (anc : str) (w : World)
    (f : str -> option bytes) (g : Z -> option bytes) :
  source (main w) = Custom f g ->
  (forall e, f e = None) ->
  _emoji_cache (main w) = ∅ ->
  Forall (fun e => (length e <= 18)%nat) (language_pack_values ext) ->
  60%N ∉ text a ->
  check_anchor (anchor a) (text a) = Ok anc ->
  check_direction (PIL.direction (opts a)) (text a) = Ok tt ->
  align a = py "left" \/ align a = py "center" \/ align a = py "right" ->
  exists ops,
    PilmojiDrawer_text ext draw a w
    = (Ok tt, mkWorld (main w) (env w) (ops ++ canvas w))
    /\ pasted ops = []
    /\ map (fun d => d.1.2) (drawn_texts ops)
       = List.filter nonempty (helpers.splitlines (text a)).
Proof.
  intros Hsrc Hf Hmem Hb Hlt Ha Hd Hal.
  assert (Hlines : Forall (Forall (fun c => c <> 60%N))
                          (helpers.splitlines (text a))).
  { apply (splitlines_from_Forall _ (length (text a))); [done| |constructor].
    apply Forall_forall. intros c Hc ->. by apply Hlt. }
  assert (Hnodes : Forall (fun line =>
                     flat (helpers._parse_line (language_pack_values ext) line)
                     = line
                     /\ Forall (fun n => helpers.type n <> helpers.discord_emoji)
                           (helpers._parse_line (language_pack_values ext) line))
                     (helpers.splitlines (text a))).
  { eapply Forall_impl; [exact Hlines|]. intros line Hl.
    apply flat_parse_line; [done|]. intros Hin.
    rewrite Forall_forall in Hl. by apply (Hl _ Hin). }
  destruct (text_unfetched_run ext draw a anc w) as (ops & Hrun & Hp & Hrows);
    [|done|done|done|].
  { unfold helpers.to_nodes. clear -Hnodes Hsrc Hf Hmem.
    induction Hnodes as [|line lines [_ Hl] _ IH]; cbn [map]; constructor; [|done].
    eapply Forall_impl; [exact Hl|]. intros n Hn.
    apply (process_line_no_image ext f g); [done|done|done|].
    by rewrite Hmem. }
  exists ops. split_and!; [done|done|].
  assert (Hflat : map flat (helpers.to_nodes (language_pack_values ext) (text a))
                  = helpers.splitlines (text a)).
  { unfold helpers.to_nodes. clear -Hnodes.
    induction Hnodes as [|line lines [Hl _] _ IH]; cbn [map]; [done|].
    by rewrite Hl, IH. }
  rewrite Hflat in Hrows. rewrite <- (map_map fst snd), Hrows.
  generalize (start_y anc (xy a).2
                (length (helpers.to_nodes (language_pack_values ext) (text a)))
                (_multiline_spacing draw (default (load_default ext) (font a))
                   (spacing a) (stroke_width a))).
  generalize (_multiline_spacing draw (default (load_default ext) (font a))
                (spacing a) (stroke_width a)).
  clear. intros ls. induction (helpers.splitlines (text a)) as [|l lines IH];
    intros y; [done|].
  cbn [rows_from List.filter snd]. destruct (nonempty l); cbn [map snd]; by rewrite IH.
Qed.

Lemma emoji_without_image_is_drawn_as_text_witness :
  exists ops,
    PilmojiDrawer_text examples.ext examples.fixed_draw
      (default_args (0, 0)%Q (py "Hi " ++ examples.grinning))
      (new_world (PilmojiMain_init (Custom (fun _ => None) (fun _ => None))
                                   true true 1 (0, 0)) ∅ examples.net_down)
    = (Ok tt,
       mkWorld (PilmojiMain_init (Custom (fun _ => None) (fun _ => None))
                                 true true 1 (0, 0))
               (mkEnv [] ∅ examples.net_down [] [] false) (ops ++ []))
    /\ pasted ops = []
    /\ map (fun d => d.1.2) (drawn_texts ops) = [py "Hi " ++ examples.grinning].
Proof.
  apply (emoji_without_image_is_drawn_as_text examples.ext examples.fixed_draw
           (default_args (0, 0)%Q (py "Hi " ++ examples.grinning)) (py "la")
           (new_world (PilmojiMain_init (Custom (fun _ => None) (fun _ => None))
                                        true true 1 (0, 0)) ∅ examples.net_down)
           (fun _ => None) (fun _ => None)).
  - reflexivity.
  - done.
  - reflexivity.
  - by_decide.
  - by_decide.
  - reflexivity.
  - reflexivity.
  - by left.
Defined.

(** *** The first draw of an emoji *)

(** An emoji of the table at the end of a line, after text. *)
Lemma parse_line_text_then_emoji tbl (pre e : str) :
  e ∈ tbl -> e <> [] -> (length e <= 18)%nat -> pre <> [] -> 60%N ∉ pre ->
  (forall e' k, e' ∈ tbl -> (k < length pre)%nat ->
                ~ e' `prefix_of` drop k (pre ++ e)) ->
  helpers._parse_line tbl (pre ++ e)
  = [helpers.mkNode helpers.text pre; helpers.mkNode helpers.emoji e].
Proof.
  intros He Hne H18 Hpre Hlt Hno.
  unfold helpers._parse_line, helpers.EMOJI_REGEX_split.
  rewrite TokenizerExtras.split_from_plain_prefix.
  2:{ intros k Hk. apply TokenizerExtras.no_match_plain.
      - intros e' He'. by apply Hno.
      - rewrite head_lookup, lookup_drop, Nat.add_0_r, lookup_app_l by done.
        intros Hh. apply Hlt. by apply (list_elem_of_lookup_2 _ k). }
  destruct (TokenizerFacts.EMOJI_REGEX_match_longest tbl e)
    as (m & rest & Hm & Hsplit & Hmatch & Hmax).
  { exists e. split; [done|]. exists []; by rewrite app_nil_r. }
  assert (Hlen : length m = length e).
  { apply Nat.le_antisymm.
    - apply (f_equal length) in Hsplit. rewrite length_app in Hsplit. lia.
    - apply Hmax; [done|]. exists []; by rewrite app_nil_r. }
  destruct (length e) as [|n] eqn:En; [by destruct e|].
  rewrite Hlen in Hmatch.
  rewrite (TokenizerFacts.split_from_match tbl e n) by done.
  rewrite <- En, firstn_all, drop_all, app_nil_r, rev_involutive.
  destruct pre as [|c pre]; [done|]. destruct e as [|d e]; [done|].
  cbn [helpers.split_from helpers.parse_chunks Nat.even rev].
  destruct (Nat.ltb_spec 18 (length (d :: e))) as [?|_]; [lia|done].
Qed.

Lemma get_emoji_fills ext src style status body emoji (w : World) :
  source (main w) = CachedHTTPBasedSource src ->
  _session src = SessionOfRenderer -> STYLE src = Some style ->
  session_closed (env w) = false ->
  (if _cache (main w) then _emoji_cache (main w) !! emoji else None) = None ->
  disk (env w) !! _emoji_cache_path (sha256_hexdigest ext) (CACHE_DIR ext) src emoji
  = None ->
  network (env w) (BASE_EMOJI_CDN_URL ++ quote_plus emoji ++ py "?style="
                   ++ quote_plus style) = HttpResponse status body ->
  ok status = true ->
  _get_emoji ext emoji w
  = (Ok (Some (length (heap (env w)))), fetched_world ext src style emoji body w).
Proof.
  intros Hsrc Hs Hst Hc Hmem Hd Hn Hok. unfold _get_emoji. mstep.
  rewrite Hmem, Hsrc.
  assert (Hget : in_env (get_emoji (sha256_hexdigest ext) (CACHE_DIR ext)
                           (CachedHTTPBasedSource src) emoji) w
                 = (Ok (Some (length (heap (env w)))),
                    set_env (env (fetched_world ext src style emoji body w)) w)).
  { unfold in_env, zoom. cbn [get_emoji]. unfold CachedHTTPBasedSource_get_emoji.
    pose proof (SourceExtras.try_request_ok src _ status body (env w) Hs Hc Hn Hok)
      as Hf.
    erewrite (SourceExtras.cached_fetch_fills _ _ body (env w) _ Hd);
      [|unfold EmojiCDNSource_get_emoji; rewrite Hst; exact Hf|reflexivity].
    unfold set_disk, set_heap, add_request, fetched_world. cbn. by rewrite Hc. }
  erewrite bind_Ok by exact Hget. cbn iota.
  assert (Hseek : forall w2 : World,
            heap (env w2) = heap (env w) ++ [mkBytesIO body 0 false] ->
            seek0 w_heap w_set_heap (length (heap (env w))) w2 = (Ok tt, w2)).
  { intros w2 Hh.
    apply (SessionExtras.seek0_rewound w2 _ (mkBytesIO body 0 false)); [|done|done].
    rewrite Hh. by apply list_lookup_middle. }
  unfold fetched_world.
  destruct (_cache (main w)); mstep;
    (erewrite bind_Ok by (by apply Hseek)); mstep; reflexivity.
Qed.

Lemma build_text_then_emoji sc font off ns sp pre e r n :
  space_to_had sc font off ns sp = Ok n ->
  build_text_line sc font off ns sp
    [(helpers.mkNode helpers.text pre, None);
     (helpers.mkNode helpers.emoji e, Some r)] []
  = Ok (pre ++ replicate (Z.to_nat n) 32%N).
Proof. intros Hn. cbn [build_text_line helpers.type helpers.content app]. by rewrite Hn. Qed.

Lemma layout_text_then_emoji ext draw font a sc off sp src style status body
    pre e n (w : World) :
  source (main w) = CachedHTTPBasedSource src ->
  _session src = SessionOfRenderer -> STYLE src = Some style ->
  session_closed (env w) = false ->
  (if _cache (main w) then _emoji_cache (main w) !! e else None) = None ->
  disk (env w) !! _emoji_cache_path (sha256_hexdigest ext) (CACHE_DIR ext) src e
  = None ->
  network (env w) (BASE_EMOJI_CDN_URL ++ quote_plus e ++ py "?style="
                   ++ quote_plus style) = HttpResponse status body ->
  ok status = true ->
  space_to_had sc font off (node_spacing a) sp = Ok n ->
  layout_line ext draw font a sc off sp
    [helpers.mkNode helpers.text pre; helpers.mkNode helpers.emoji e] w
  = (Ok (mkLayoutLine
           [(helpers.mkNode helpers.text pre, None);
            (helpers.mkNode helpers.emoji e, Some (length (heap (env w))))]
           (pre ++ replicate (Z.to_nat n) 32%N)
           (PIL.textlength draw (pre ++ replicate (Z.to_nat n) 32%N) font
                           (opts a) false)),
     fetched_world ext src style e body w).
Proof.
  intros Hsrc Hs Hst Hc Hmem Hd Hn Hok Hsp. unfold layout_line.
  assert (Hg : map_M (process_line ext)
                 [helpers.mkNode helpers.text pre; helpers.mkNode helpers.emoji e] w
               = (Ok [(helpers.mkNode helpers.text pre, None);
                      (helpers.mkNode helpers.emoji e, Some (length (heap (env w))))],
                  fetched_world ext src style e body w)).
  { cbn [map_M]. unfold bind at 1.
    rewrite (process_line_quiet ext _ w) by done. cbn beta iota.
    assert (Hp : process_line ext (helpers.mkNode helpers.emoji e) w
                 = (Ok (helpers.mkNode helpers.emoji e,
                        Some (length (heap (env w)))),
                    fetched_world ext src style e body w)).
    { unfold process_line. mstep. cbn [helpers.type helpers.content].
      erewrite bind_Ok by (by eapply get_emoji_fills). by mstep. }
    unfold bind. rewrite Hp. reflexivity. }
  erewrite bind_Ok by exact Hg.
  rewrite (build_text_then_emoji _ _ _ _ _ _ _ _ n) by done.
  cbn [lift]. by mstep.
Qed.

Lemma paste_nodes_text_step ext font a sc off pre stream rest x y :
  paste_nodes ext font a sc off ((helpers.mkNode helpers.text pre, stream) :: rest)
              x y
  = paste_nodes ext font a sc off rest
      (x + inject_Z (node_spacing a
                     + helpers.text_width (PIL_version ext) font (opts a) pre))%Q y.
Proof. reflexivity. Qed.

(** The second loop on the one line "text, emoji" whose asset is the
    square image in the open stream [r]. *)
Lemma draw_text_then_emoji ext draw font a anchor sc ox oy x0 maxw ls pre e r
    (str_line : str) pw y ink sw (w : World) b s :
  align a = py "left" \/ align a = py "center" \/ align a = py "right" ->
  str_line <> [] ->
  heap (env w) !! r = Some b -> closed b = false ->
  image_size ext (getvalue b) = Some (s, s) -> s <> 0 ->
  exists x box,
    draw_lines ext draw font a anchor sc (ox, oy) x0 maxw ls
      [mkLayoutLine [(helpers.mkNode helpers.text pre, None);
                     (helpers.mkNode helpers.emoji e, Some r)] str_line pw]
      y ink sw w
    = (Ok tt,
       add_canvas
         (PIL.Paste (getvalue b) (emoji_width sc font, emoji_width sc font) box)
         (w_set_heap (<[r := mkBytesIO (getvalue b) (length (getvalue b)) false]>
                        (heap (env w)))
            (add_canvas (PIL.DrawText (x, y) str_line anchor (spacing a)
                           (align a) sw) w))).
Proof.
  intros Hal Hne Hb Hc Hsz Hs. cbn [draw_lines].
  destruct (line_x_good anchor (align a) x0 (maxw - pw) Hal) as [x Hx].
  cbn [pixel_width draw_string nodes_processed]. rewrite Hx. cbn [lift]. mstep.
  exists x.
  assert (Hlen : (0 <? length str_line)%nat = true).
  { destruct str_line; [done|]. reflexivity. }
  rewrite Hlen. mstep.
  match goal with
  | |- context [match ?t with pair _ _ => _ end] =>
      destruct t as [[[ink' sw'] x'] y']
  end.
  rewrite paste_nodes_text_step.
  eexists.
  erewrite bind_Ok.
  2:{ rewrite (paste_square_asset ext font a sc ox oy
                 (helpers.mkNode helpers.emoji e) r [] _ _ _ b s);
        [|done|done|done|done|done].
      cbn [paste_nodes]. reflexivity. }
  cbn [draw_lines]. reflexivity.
Qed.

(** X30. The first draw of an emoji, from the text to the canvas.  On a
    one-line text made of plain text and then an emoji of the table,
    drawn over an entered, open session whose two cache tiers do not have
    the emoji, with a CDN that answers with a square image: the call
    returns; one GET was sent, to the URL of the emoji under the style;
    the body is in the file of the key and, with caching on, its stream
    in the memory cache; [draw.text] was called once, with the text
    followed by the spaces that stand for the emoji; and the image was
    pasted once, at width and height
    [round(emoji_scale_factor * font.size)]. *)
Theorem first_draw_of_an_emoji (ext : Externals) (draw : PIL.ImageDraw)
    (a : TextArgs) (anc : str) (w : World) (src : HTTPBasedSource)
    (style pre e : str) (status s n : Z) (body : bytes) :
  let font := default (load_default ext) (font a) in
  let sc := default (_default_emoji_scale_factor (main w)) (emoji_scale_factor a) in
  let off := default (_default_emoji_position_offset (main w))
                     (emoji_position_offset a) in
  let url := BASE_EMOJI_CDN_URL ++ quote_plus e ++ py "?style=" ++ quote_plus style in
  let path := _emoji_cache_path (sha256_hexdigest ext) (CACHE_DIR ext) src e in
  text a = pre ++ e ->
  e ∈ language_pack_values ext -> e <> [] -> (length e <= 18)%nat ->
  pre <> [] -> 60%N ∉ pre ->
  (forall e' k, e' ∈ language_pack_values ext -> (k < length pre)%nat ->
                ~ e' `prefix_of` drop k (pre ++ e)) ->
  Forall (fun c => helpers.is_linebreak c = false) (pre ++ e) ->
  source (main w) = CachedHTTPBasedSource src ->
  _session src = SessionOfRenderer -> STYLE src = Some style ->
  session_closed (env w) = false ->
  (if _cache (main w) then _emoji_cache (main w) !! e else None) = None ->
  disk (env w) !! path = None ->
  network (env w) url = HttpResponse status body -> ok status = true ->
  image_size ext body = Some (s, s) -> s <> 0 ->
  space_to_had sc font off (node_spacing a)
               (PIL.textlength draw [32%N] font (opts a) (embedded_color a))
  = Ok n ->
  check_anchor (anchor a) (text a) = Ok anc ->
  check_direction (PIL.direction (opts a)) (text a) = Ok tt ->
  align a = py "left" \/ align a = py "center" \/ align a = py "right" ->
  exists ops box w',
    PilmojiDrawer_text ext draw a w = (Ok tt, w')
    /\ canvas w' = ops ++ canvas w
    /\ map (fun d => d.1.2) (drawn_texts ops) = [pre ++ replicate (Z.to_nat n) 32%N]
    /\ pasted ops = [(body, (emoji_width sc font, emoji_width sc font), box)]
    /\ requests (env w') = url :: requests (env w)
    /\ disk (env w') = <[path := body]> (disk (env w))
    /\ _emoji_cache (main w')
       = (if _cache (main w)
          then <[e := length (heap (env w))]> (_emoji_cache (main w))
          else _emoji_cache (main w)).
Proof.
  intros font sc off url path Ht He Hne H18 Hpre Hlt Hno Hnb Hsrc Hs Hst Hc Hmem Hd
         Hn Hok Hsz Hs0 Hsp Ha Hdir Hal.
  assert (Hnodes : helpers.to_nodes (language_pack_values ext) (text a)
                   = [[helpers.mkNode helpers.text pre;
                       helpers.mkNode helpers.emoji e]]).
  { unfold helpers.to_nodes, helpers.splitlines. rewrite Ht.
    rewrite LineExtras.splitlines_from_plain; [|done|by destruct pre].
    cbn [map]. by rewrite parse_line_text_then_emoji. }
  unfold PilmojiDrawer_text. mstep. rewrite Ha, Hdir. cbn [lift]. mstep.
  destruct (xy a) as [x y]. rewrite Hnodes. cbn [map_M].
  fold font sc off.
  erewrite bind_Ok.
  2:{ unfold bind.
      rewrite (layout_text_then_emoji ext draw font a sc off _ src style status
                 body pre e n w) by done.
      reflexivity. }
  destruct off as [ox oy] eqn:Hoff.
  destruct (draw_text_then_emoji ext draw font a anc sc ox oy x
              (foldl builtins.Qmax 0%Q
                 (pixel_width <$>
                  [mkLayoutLine
                     [(helpers.mkNode helpers.text pre, None);
                      (helpers.mkNode helpers.emoji e, Some (length (heap (env w))))]
                     (pre ++ replicate (Z.to_nat n) 32%N)
                     (PIL.textlength draw (pre ++ replicate (Z.to_nat n) 32%N) font
                                     (opts a) false)]))
              (_multiline_spacing draw font (spacing a) (stroke_width a))
              pre e (length (heap (env w)))
              (pre ++ replicate (Z.to_nat n) 32%N)
              (PIL.textlength draw (pre ++ replicate (Z.to_nat n) 32%N) font
                              (opts a) false)
              (start_y anc y 1 (_multiline_spacing draw font (spacing a)
                                                   (stroke_width a)))
              (getink draw (fill a)) (stroke_width a)
              (fetched_world ext src style e body w)
              (mkBytesIO body 0 false) s) as (x1 & box & Hrun);
    [done|by destruct pre| |done|done|done|].
  { cbn. by apply list_lookup_middle. }
  eexists [_; _], box, _. split; [exact Hrun|].
  split_and!; try reflexivity.
  cbn. by destruct (_cache (main w)).
Qed.

Lemma first_draw_of_an_emoji_witness :
  exists ops box w',
    PilmojiDrawer_text examples.ext examples.fixed_draw
      (default_args (0, 0)%Q (py "Hi " ++ examples.grinning))
      (examples.entered examples.net_ok) = (Ok tt, w')
    /\ canvas w' = ops ++ canvas (examples.entered examples.net_ok)
    /\ map (fun d => d.1.2) (drawn_texts ops) = [py "Hi " ++ replicate 3 32%N]
    /\ pasted ops = [(examples.png, (21, 21), box)]
    /\ requests (env w')
       = [py "https://emojicdn.elk.sh/%F0%9F%98%80?style=twitter"]
    /\ disk (env w')
       = <[_emoji_cache_path examples.stub_digest (py "/srv/.cache")
             (mkHTTP (py "TwitterEmojiSource") (Some (py "twitter"))
                     SessionOfRenderer) examples.grinning := examples.png]> ∅
    /\ _emoji_cache (main w')
       = (if _cache (main (examples.entered examples.net_ok))
          then <[examples.grinning
                 := length (heap (env (examples.entered examples.net_ok)))]>
                 (_emoji_cache (main (examples.entered examples.net_ok)))
          else _emoji_cache (main (examples.entered examples.net_ok))).
Proof.
  apply (first_draw_of_an_emoji examples.ext examples.fixed_draw
           (default_args (0, 0)%Q (py "Hi " ++ examples.grinning)) (py "la")
           (examples.entered examples.net_ok)
           (mkHTTP (py "TwitterEmojiSource") (Some (py "twitter"))
                   SessionOfRenderer)
           (py "twitter") (py "Hi ") examples.grinning 200 72 3 examples.png).
  - reflexivity.
  - apply list_elem_of_In. left. reflexivity.
  - done.
  - cbn. lia.
  - done.
  - by_decide.
  - intros e' k He' Hk.
    apply (TokenizerExtras.no_prefix_intro examples.table
             (py "Hi " ++ examples.grinning) 2); [by_decide|done|cbn in Hk; lia].
  - by_decide.
  - reflexivity.
  - reflexivity.
  - reflexivity.
  - reflexivity.
  - reflexivity.
  - reflexivity.
  - reflexivity.
  - reflexivity.
  - reflexivity.
  - done.
  - reflexivity.
  - reflexivity.
  - reflexivity.
  - by left.
Defined.

End DrawExtras.
